(** * Nested subscriptions of react-redux: listener registry and subscription nodes

    Shallow embedding of [utils/Subscription.ts] ([createListenerCollection],
    [createSubscription]) together with the part of [components/Provider.tsx]
    that wires a root subscription to the store.

    The JavaScript heap is made explicit.  Every call of [subscribe]
    allocates one [Listener] object and one [unsubscribe] closure; both live
    in one heap cell, addressed by the position at which it was allocated.
    A registry's closure variables [first]/[last] are a [Collection]; the
    closure variables of [createSubscription] are a [Subscription] record.
    Functions of type [() => void] are first-order terms of [VoidFunc]; a
    fuel-indexed evaluator [call] runs them.  [None] stands for a run that
    does not return normally: an exception, or exhausted fuel. *)

From stdpp Require Import base option list sorting.
From Stdlib Require Import Lia Arith.
Set Default Proof Using "Type".

(** * Part I: the program and the notions the theorems are stated with *)

(** ** Data *)

Abbreviation loc := nat (only parsing).   (* address of a Listener object *)

Abbreviation cid := nat (only parsing).   (* identity of a listener collection *)

Abbreviation sid := nat (only parsing).   (* identity of a Subscription object *)

(** Values of type [VoidFunc = () => void] that the program creates or is
    handed.  [Unsubscribe l] is the closure returned by the [subscribe] call
    that allocated listener [l].  [Mark k] is a terminal listener that only
    records that it ran.  The remaining constructors are methods of the
    subscription object and user callbacks that call the public surface. *)
Inductive VoidFunc : Type :=
  | Mark (k : nat)
  | Unsubscribe (l : loc)
  | Subscribe (c : cid) (f : VoidFunc)
  | Notify (c : cid)
  | Clear (c : cid)
  | AddNestedSub (s : sid) (f : VoidFunc)
  | NotifyNestedSubs (s : sid)
  | HandleChangeWrapper (s : sid)
  | TrySubscribe (s : sid)
  | TryUnsubscribe (s : sid)
  | Seq (f g : VoidFunc).

Global Instance VoidFunc_eq_dec : EqDecision VoidFunc.
Proof. solve_decision. Defined.

(** [type Listener = { callback, next, prev }] *)
Record Listener := mkListener {
  callback : VoidFunc;
  next : option loc;
  prev : option loc
}.

(** A heap cell: the listener object and the environment of the
    [unsubscribe] closure that captured it ([isSubscribed], and the
    collection whose [first]/[last] it refers to). *)
Record Cell := mkCell {
  obj : Listener;
  scope : cid;
  isSubscribed : bool
}.

(** [let first, last] of [createListenerCollection]. *)
Record Collection := mkCollection {
  first : option loc;
  last : option loc
}.

(** The value of the variable [listeners]: the shared sentinel
    [nullListeners] (only [notify] and [get]) or a live collection. *)
Inductive ListenersRef : Type :=
  | NullListeners
  | Live (c : cid).

(** Closure variables of one [createSubscription(store, parentSub)] call and
    the [onStateChange] slot of the returned object. *)
Record Subscription := mkSubscription {
  store : cid;
  parentSub : option sid;
  s_unsubscribe : option VoidFunc;
  s_listeners : ListenersRef;
  onStateChange : option VoidFunc
}.

(** Ghost trace of observable calls. *)
Inductive Event : Type :=
  | EvInvoke (l : loc)                      (* notify calls listener l's callback *)
  | EvMark (k : nat)                        (* terminal listener [Mark k] ran *)
  | EvStoreSubscribe (st : cid) (f : VoidFunc)  (* store.subscribe(f) was called *)
  | EvAddNestedSub (s : sid) (f : VoidFunc).    (* s.addNestedSub(f) was called *)

Global Instance Event_eq_dec : EqDecision Event.
Proof. solve_decision. Defined.

Record World := mkWorld {
  heap : list Cell;
  colls : list Collection;
  subs : list Subscription;
  trace : list Event
}.

Definition init : World := mkWorld [] [] [] [].

(** ** Field updates and allocation *)

Definition set_next (o : option loc) (L : Listener) : Listener :=
  mkListener (callback L) o (prev L).

Definition set_prev (o : option loc) (L : Listener) : Listener :=
  mkListener (callback L) (next L) o.

Definition upd_obj (f : Listener → Listener) (c : Cell) : Cell :=
  mkCell (f (obj c)) (scope c) (isSubscribed c).

Definition set_isSubscribed (b : bool) (c : Cell) : Cell :=
  mkCell (obj c) (scope c) b.

Definition set_first (o : option loc) (C : Collection) : Collection :=
  mkCollection o (last C).

Definition set_last (o : option loc) (C : Collection) : Collection :=
  mkCollection (first C) o.

Definition set_unsubscribe (u : option VoidFunc) (S : Subscription) : Subscription :=
  mkSubscription (store S) (parentSub S) u (s_listeners S) (onStateChange S).

Definition set_listeners (r : ListenersRef) (S : Subscription) : Subscription :=
  mkSubscription (store S) (parentSub S) (s_unsubscribe S) r (onStateChange S).

Definition set_onStateChange (f : option VoidFunc) (S : Subscription) : Subscription :=
  mkSubscription (store S) (parentSub S) (s_unsubscribe S) (s_listeners S) f.

Definition store_cell (l : loc) (c : Cell) (w : World) : World :=
  mkWorld (<[l := c]> (heap w)) (colls w) (subs w) (trace w).

Definition alloc (c : Cell) (w : World) : World :=
  mkWorld (heap w ++ [c]) (colls w) (subs w) (trace w).

Definition store_coll (c : cid) (C : Collection) (w : World) : World :=
  mkWorld (heap w) (<[c := C]> (colls w)) (subs w) (trace w).

Definition store_sub (s : sid) (S : Subscription) (w : World) : World :=
  mkWorld (heap w) (colls w) (<[s := S]> (subs w)) (trace w).

Definition log (e : Event) (w : World) : World :=
  mkWorld (heap w) (colls w) (subs w) (trace w ++ [e]).

(** ** The listener collection ([createListenerCollection]) *)

(** [createListenerCollection()]: a new pair of variables [first = null],
    [last = null]. *)
Definition createListenerCollection (w : World) : cid * World :=
  (length (colls w),
   mkWorld (heap w) (colls w ++ [mkCollection None None]) (subs w) (trace w)).

(** [clear() { first = null; last = null }] *)
Definition clear (c : cid) (w : World) : option World :=
  C ← colls w !! c;
  Some (store_coll c (mkCollection None None) w).

(** The loop of [get()].  Each iteration pushes one listener; a walk longer
    than the number of allocated listeners revisits one of them and never
    ends, which is what running out of [k] stands for. *)
Fixpoint get_loop (k : nat) (h : list Cell) (listener : option loc) : option (list loc) :=
  match listener with
  | None => Some []
  | Some l =>
    match k with
    | 0 => None
    | S k' =>
      cell ← h !! l;
      rest ← get_loop k' h (next (obj cell));
      Some (l :: rest)
    end
  end.

Definition get (c : cid) (w : World) : option (list loc) :=
  C ← colls w !! c;
  get_loop (length (heap w)) (heap w) (first C).

(** [subscribe(callback)] *)
Definition subscribe (c : cid) (cb : VoidFunc) (w : World) : option (VoidFunc * World) :=
  C ← colls w !! c;
  let l := length (heap w) in
  (* let listener = (last = { callback, next: null, prev: last }) *)
  let w1 := store_coll c (set_last (Some l) C)
              (alloc (mkCell (mkListener cb None (last C)) c true) w) in
  cl ← heap w1 !! l;
  w2 ← match prev (obj cl) with
       | Some p =>
         (* listener.prev.next = listener *)
         cp ← heap w1 !! p;
         Some (store_cell p (upd_obj (set_next (Some l)) cp) w1)
       | None =>
         (* first = listener *)
         C1 ← colls w1 !! c;
         Some (store_coll c (set_first (Some l) C1) w1)
       end;
  Some (Unsubscribe l, w2).

(** The closure [unsubscribe] returned for listener [l]. *)
Definition unsubscribe (l : loc) (w : World) : option World :=
  cell ← heap w !! l;
  let c := scope cell in
  (* if (!isSubscribed || first === null) return *)
  if negb (isSubscribed cell) then Some w else
  C ← colls w !! c;
  match first C with
  | None => Some w
  | Some _ =>
    (* isSubscribed = false *)
    let w1 := store_cell l (set_isSubscribed false cell) w in
    cl ← heap w1 !! l;
    w2 ← match next (obj cl) with
         | Some n =>
           (* listener.next.prev = listener.prev *)
           cn ← heap w1 !! n;
           Some (store_cell n (upd_obj (set_prev (prev (obj cl))) cn) w1)
         | None =>
           (* last = listener.prev *)
           C1 ← colls w1 !! c;
           Some (store_coll c (set_last (prev (obj cl)) C1) w1)
         end;
    cl2 ← heap w2 !! l;
    match prev (obj cl2) with
    | Some p =>
      (* listener.prev.next = listener.next *)
      cp ← heap w2 !! p;
      Some (store_cell p (upd_obj (set_next (next (obj cl2))) cp) w2)
    | None =>
      (* first = listener.next *)
      C2 ← colls w2 !! c;
      Some (store_coll c (set_first (next (obj cl2)) C2) w2)
    end
  end.

(** Modelled from the spec: [getBatch()] of [./batch], which is not among
    the sources.  The batching primitive "executes work synchronously". *)
Definition batch (work : World → option World) (w : World) : option World :=
  work w.

(** The [while (listener)] loop of [notify()].  [listener.next] is read
    after the callback has returned.  [callf] runs a callback. *)
Fixpoint walk (callf : VoidFunc → World → option World) (k : nat)
    (listener : option loc) (w : World) : option World :=
  match listener with
  | None => Some w
  | Some l =>
    match k with
    | 0 => None
    | S k' =>
      cell ← heap w !! l;
      w1 ← callf (callback (obj cell)) (log (EvInvoke l) w);
      cell' ← heap w1 !! l;
      walk callf k' (next (obj cell')) w1
    end
  end.

Definition notify_with (callf : VoidFunc → World → option World) (k : nat)
    (c : cid) (w : World) : option World :=
  batch (λ w, C ← colls w !! c; walk callf k (first C) w) w.

(** Method calls through the variable [listeners]: the sentinel has no
    [subscribe] and no [clear], so calling them throws. *)
Definition ref_subscribe (r : ListenersRef) (cb : VoidFunc) (w : World)
    : option (VoidFunc * World) :=
  match r with NullListeners => None | Live c => subscribe c cb w end.

Definition ref_clear (r : ListenersRef) (w : World) : option World :=
  match r with NullListeners => None | Live c => clear c w end.

Definition ref_notify (callf : VoidFunc → World → option World) (k : nat)
    (r : ListenersRef) (w : World) : option World :=
  match r with NullListeners => Some w | Live c => notify_with callf k c w end.

Definition ref_get (r : ListenersRef) (w : World) : option (list loc) :=
  match r with NullListeners => Some [] | Live c => get c w end.

(** ** The store *)

(** Modelled from the spec: the upstream source (the Redux store), which is
    not among the sources.  Its [subscribe] has "the same semantics as this
    core's own registry subscribe", so a store is a listener collection; a
    state change invokes the registered callbacks.  The store records each
    [subscribe] call in the trace. *)
Definition createStore (w : World) : cid * World := createListenerCollection w.

Definition store_subscribe (st : cid) (cb : VoidFunc) (w : World)
    : option (VoidFunc * World) :=
  subscribe st cb (log (EvStoreSubscribe st cb) w).

(** ** The subscription object ([createSubscription]) *)

Definition createSubscription (st : cid) (parent : option sid) (w : World)
    : sid * World :=
  (length (subs w),
   mkWorld (heap w) (colls w)
     (subs w ++ [mkSubscription st parent None NullListeners None]) (trace w)).

(** [subscription.onStateChange = f] (done by the embedding component). *)
Definition assign_onStateChange (s : sid) (f : option VoidFunc) (w : World)
    : option World :=
  S ← subs w !! s;
  Some (store_sub s (set_onStateChange f S) w).

(** [trySubscribe()], with the parent's [addNestedSub] as a parameter. *)
Definition trySubscribe_with
    (up : sid → VoidFunc → World → option (VoidFunc * World))
    (s : sid) (w : World) : option World :=
  S ← subs w !! s;
  match s_unsubscribe S with
  | Some _ => Some w
  | None =>
    '(u, w1) ← match parentSub S with
               | Some p => up p (HandleChangeWrapper s) w
               | None => store_subscribe (store S) (HandleChangeWrapper s) w
               end;
    (* unsubscribe = ... *)
    S1 ← subs w1 !! s;
    let w2 := store_sub s (set_unsubscribe (Some u) S1) w1 in
    (* listeners = createListenerCollection() *)
    let '(c, w3) := createListenerCollection w2 in
    S3 ← subs w3 !! s;
    Some (store_sub s (set_listeners (Live c) S3) w3)
  end.

(** [addNestedSub(listener)].  The recursion climbs the chain of parents;
    [n] bounds its depth. *)
Fixpoint addNestedSub (n : nat) (s : sid) (listener : VoidFunc) (w : World)
    : option (VoidFunc * World) :=
  match n with
  | 0 => None
  | S n' =>
    w1 ← trySubscribe_with (addNestedSub n') s (log (EvAddNestedSub s listener) w);
    S ← subs w1 !! s;
    ref_subscribe (s_listeners S) listener w1
  end.

Definition trySubscribe (n : nat) (s : sid) (w : World) : option World :=
  trySubscribe_with (addNestedSub n) s w.

(** [isSubscribed() { return Boolean(unsubscribe) }] *)
Definition sub_isSubscribed (s : sid) (w : World) : option bool :=
  S ← subs w !! s;
  Some (bool_decide (is_Some (s_unsubscribe S))).

(** [getListeners: () => listeners] *)
Definition getListeners (s : sid) (w : World) : option ListenersRef :=
  S ← subs w !! s;
  Some (s_listeners S).

(** [notifyNestedSubs() { listeners.notify() }] *)
Definition notifyNestedSubs_with (callf : VoidFunc → World → option World)
    (k : nat) (s : sid) (w : World) : option World :=
  S ← subs w !! s;
  ref_notify callf k (s_listeners S) w.

(** [handleChangeWrapper()] *)
Definition handleChangeWrapper_with (callf : VoidFunc → World → option World)
    (s : sid) (w : World) : option World :=
  S ← subs w !! s;
  match onStateChange S with
  | Some f => callf f w
  | None => Some w
  end.

(** [tryUnsubscribe()] *)
Definition tryUnsubscribe_with (callf : VoidFunc → World → option World)
    (s : sid) (w : World) : option World :=
  S ← subs w !! s;
  match s_unsubscribe S with
  | None => Some w
  | Some u =>
    (* unsubscribe() *)
    w1 ← callf u w;
    (* unsubscribe = undefined *)
    S1 ← subs w1 !! s;
    let w2 := store_sub s (set_unsubscribe None S1) w1 in
    (* listeners.clear() *)
    S2 ← subs w2 !! s;
    w3 ← ref_clear (s_listeners S2) w2;
    (* listeners = nullListeners *)
    S3 ← subs w3 !! s;
    Some (store_sub s (set_listeners NullListeners S3) w3)
  end.

(** ** Calling a function value *)

Fixpoint call (n : nat) (f : VoidFunc) (w : World) : option World :=
  match n with
  | 0 => None
  | S n' =>
    match f with
    | Mark k => Some (log (EvMark k) w)
    | Unsubscribe l => unsubscribe l w
    | Subscribe c g => snd <$> subscribe c g w
    | Notify c => notify_with (call n') n' c w
    | Clear c => clear c w
    | AddNestedSub s g => snd <$> addNestedSub n' s g w
    | NotifyNestedSubs s => notifyNestedSubs_with (call n') n' s w
    | HandleChangeWrapper s => handleChangeWrapper_with (call n') s w
    | TrySubscribe s => trySubscribe n' s w
    | TryUnsubscribe s => tryUnsubscribe_with (call n') s w
    | Seq g h => w1 ← call n' g w; call n' h w1
    end
  end.

(** The public operations, with the fuel of the callbacks they run. *)
Definition notify (n : nat) (c : cid) (w : World) : option World :=
  notify_with (call n) n c w.

Definition notifyNestedSubs (n : nat) (s : sid) (w : World) : option World :=
  notifyNestedSubs_with (call n) n s w.

Definition handleChangeWrapper (n : nat) (s : sid) (w : World) : option World :=
  handleChangeWrapper_with (call n) s w.

Definition tryUnsubscribe (n : nat) (s : sid) (w : World) : option World :=
  tryUnsubscribe_with (call n) s w.

(** Modelled from the spec: a change of the upstream source, which invokes
    the callbacks registered with the store "with no arguments on change". *)
Definition store_change (n : nat) (st : cid) (w : World) : option World :=
  notify n st w.

(** ** The Provider component ([components/Provider.tsx]) *)

(** The callback that [Provider] passes to [useIsomorphicLayoutEffect], for
    the subscription [s] of its context value.  [stateChanged] is the value
    of [previousState !== store.getState()]: the state of the store is not
    part of this development. *)
Definition Provider_effect (n : nat) (stateChanged : bool) (s : sid) (w : World)
    : option World :=
  w ← assign_onStateChange s (Some (NotifyNestedSubs s)) w;
  w ← trySubscribe n s w;
  if stateChanged then notifyNestedSubs n s w else Some w.

(** The cleanup function that the effect returns. *)
Definition Provider_cleanup (n : nat) (s : sid) (w : World) : option World :=
  w ← tryUnsubscribe n s w;
  assign_onStateChange s None w.

(** ** Observations *)

Definition invoked (tr : list Event) : list loc :=
  omap (λ e, match e with EvInvoke l => Some l | _ => None end) tr.

Definition marks (tr : list Event) : list nat :=
  omap (λ e, match e with EvMark k => Some k | _ => None end) tr.

(** ** Views of the heap and the invariant of a registry *)

Definition nxt (h : list Cell) (l : loc) : option loc :=
  cell ← h !! l; next (obj cell).

Definition prv (h : list Cell) (l : loc) : option loc :=
  cell ← h !! l; prev (obj cell).

Definition cb_of (h : list Cell) (l : loc) : option VoidFunc :=
  cell ← h !! l; Some (callback (obj cell)).

Definition scope_of (h : list Cell) (l : loc) : option cid :=
  cell ← h !! l; Some (scope cell).

(** [alive h c l]: listener [l] was registered with collection [c] and its
    [unsubscribe] closure still has [isSubscribed = true]. *)
Definition alive (h : list Cell) (c : cid) (l : loc) : Prop :=
  ∃ cell, h !! l = Some cell ∧ scope cell = c ∧ isSubscribed cell = true.

Definition aliveb (h : list Cell) (c : cid) (l : loc) : bool :=
  match h !! l with
  | Some cell => bool_decide (scope cell = c) && isSubscribed cell
  | None => false
  end.

(** Listeners are allocated at increasing addresses, so registration order
    is the order of addresses.  [least A b o]: [o] is the least member of
    [A] at or after [b], or null when there is none; [greatest A b o]: the
    greatest member of [A] before [b]. *)
Definition least (A : loc → Prop) (b : nat) (o : option loc) : Prop :=
  match o with
  | Some y => A y ∧ b ≤ y ∧ ∀ z, A z → b ≤ z → y ≤ z
  | None => ∀ z, A z → ¬ b ≤ z
  end.

Definition greatest (A : loc → Prop) (b : nat) (o : option loc) : Prop :=
  match o with
  | Some y => A y ∧ y < b ∧ ∀ z, A z → z < b → z ≤ y
  | None => ∀ z, A z → ¬ z < b
  end.

(** The registry invariant: [first]/[last] are the oldest and youngest live
    listeners, and every live listener is linked to its live neighbours. *)
Definition reg_ok (w : World) (c : cid) : Prop :=
  ∃ C, colls w !! c = Some C ∧
    least (alive (heap w) c) 0 (first C) ∧
    greatest (alive (heap w) c) (length (heap w)) (last C) ∧
    ∀ l, alive (heap w) c l →
      least (alive (heap w) c) (S l) (nxt (heap w) l) ∧
      greatest (alive (heap w) c) l (prv (heap w) l).

(** [A] without the handle [l]. *)
Definition without (A : loc → Prop) (l : loc) : loc → Prop :=
  λ z, A z ∧ z ≠ l.

Global Instance alive_dec h c l : Decision (alive h c l).
Proof.
  unfold alive. destruct (h !! l) as [cell|].
  - destruct (decide (scope cell = c)) as [Hs|Hs];
      [destruct (isSubscribed cell) eqn:Hf|].
    + left. exists cell. split; [reflexivity|]. split; [exact Hs|exact Hf].
    + right. intros (x & Hx & _ & Hfx). injection Hx as <-. congruence.
    + right. intros (x & Hx & Hsx & _). injection Hx as <-. contradiction.
  - right. intros (x & Hx & _). discriminate Hx.
Defined.

(** The live listeners of collection [c], oldest first. *)
Definition live (w : World) (c : cid) : list loc :=
  filter (alive (heap w) c) (seq 0 (length (heap w))).

(** The traversal "from [last] via [prev]" of the data-model invariant. *)
Fixpoint back_loop (k : nat) (h : list Cell) (listener : option loc)
    : option (list loc) :=
  match listener with
  | None => Some []
  | Some l =>
    match k with
    | 0 => None
    | S k' =>
      cell ← h !! l;
      rest ← back_loop k' h (prev (obj cell));
      Some (l :: rest)
    end
  end.

Definition get_backwards (c : cid) (w : World) : option (list loc) :=
  C ← colls w !! c;
  back_loop (length (heap w)) (heap w) (last C).

(** ** Sequences of subscribe and unsubscribe calls *)

(** A client of a registry calls [subscribe(cb)], keeping the closure it
    gets back, or calls the closure returned by its [k]-th [subscribe]. *)
Inductive Op : Type :=
  | OpSubscribe (cb : VoidFunc)
  | OpUnsubscribe (k : nat).

Definition step (c : cid) (op : Op) (st : World * list VoidFunc)
    : option (World * list VoidFunc) :=
  match op with
  | OpSubscribe cb =>
    '(u, w') ← subscribe c cb st.1;
    Some (w', st.2 ++ [u])
  | OpUnsubscribe k =>
    match st.2 !! k with
    | Some u => w' ← call 1 u st.1; Some (w', st.2)
    | None => Some st   (* no such closure has been returned: nothing to call *)
    end
  end.

Fixpoint run (c : cid) (ops : list Op) (st : World * list VoidFunc)
    : option (World * list VoidFunc) :=
  match ops with
  | [] => Some st
  | op :: ops' => st' ← step c op st; run c ops' st'
  end.

(** What the specification says about such a sequence, read off the
    sequence alone: the callbacks registered, in order, and the indices of
    the closures that were called ([n] closures exist at the start). *)
Definition subscribed (ops : list Op) : list VoidFunc :=
  omap (λ op, match op with OpSubscribe cb => Some cb | OpUnsubscribe _ => None end) ops.

Fixpoint called (n : nat) (ops : list Op) : list nat :=
  match ops with
  | [] => []
  | OpSubscribe _ :: ops' => called (S n) ops'
  | OpUnsubscribe k :: ops' =>
    if decide (k < n) then k :: called n ops' else called n ops'
  end.

(** "the still-subscribed callbacks in original registration order" *)
Definition still_subscribed (ops : list Op) : list nat :=
  filter (λ k, k ∉ called 0 ops) (seq 0 (length (subscribed ops))).

(** The data-model invariant, in the words of the specification. *)
Definition dll_invariant (w : World) (c : cid) : Prop :=
  ∃ C ls, colls w !! c = Some C ∧
    (* acyclic *)
    NoDup ls ∧
    (* traversal from first via next reaches last and then null *)
    get c w = Some ls ∧ list.last ls = last C ∧
    (* traversal from last via prev reaches first *)
    get_backwards c w = Some (reverse ls) ∧ head ls = first C ∧
    (* every handle either is first with prev == null or prev.next == it,
       symmetric for next/last *)
    ∀ l, l ∈ ls →
      ((prv (heap w) l = None ∧ first C = Some l) ∨
       (∃ p, prv (heap w) l = Some p ∧ nxt (heap w) p = Some l)) ∧
      ((nxt (heap w) l = None ∧ last C = Some l) ∨
       (∃ n, nxt (heap w) l = Some n ∧ prv (heap w) n = Some l)).

(** No closure refers to a collection that does not exist yet. *)
Definition scoped (w : World) : Prop :=
  ∀ l cell, heap w !! l = Some cell → scope cell < length (colls w).

(** State of a run on collection [c] whose listeners start at address [b]:
    [cbs] are the callbacks registered so far, [cs] the indices of the
    closures called so far. *)
Definition run_inv (b : nat) (c : cid) (cbs : list VoidFunc) (cs : list nat)
    (st : World * list VoidFunc) : Prop :=
  reg_ok st.1 c ∧
  st.2 = (λ k, Unsubscribe (b + k)) <$> seq 0 (length cbs) ∧
  length (heap st.1) = b + length cbs ∧
  (∀ z, alive (heap st.1) c z ↔ b ≤ z ∧ z < b + length cbs ∧ z - b ∉ cs) ∧
  (∀ z, b ≤ z → z < b + length cbs → scope_of (heap st.1) z = Some c) ∧
  (∀ k, k ∈ cs → k < length cbs) ∧
  (∀ k cb, cbs !! k = Some cb → cb_of (heap st.1) (b + k) = Some cb).

(** ** Notions for passes of [notify] *)

Definition flag_of (h : list Cell) (l : loc) : option bool :=
  cell ← h !! l; Some (isSubscribed cell).

Fixpoint unsubscribe_all (ls : list loc) (w : World) : option World :=
  match ls with
  | [] => Some w
  | l :: ls' => w' ← unsubscribe l w; unsubscribe_all ls' w'
  end.

(** [unsubs f = Some ls]: the callback [f] only records that it ran and
    calls the [unsubscribe] closures of the handles [ls], in that order. *)
Fixpoint unsubs (f : VoidFunc) : option (list loc) :=
  match f with
  | Mark _ => Some []
  | Unsubscribe l => Some [l]
  | Seq g h => a ← unsubs g; b ← unsubs h; Some (a ++ b)
  | _ => None
  end.

(** Nesting depth of [Seq]: the fuel [call] needs for such a callback. *)
Fixpoint height (f : VoidFunc) : nat :=
  match f with
  | Seq g h => S (height g `max` height h)
  | _ => 1
  end.

(** The handles that the callback of handle [g] unsubscribes. *)
Definition unsubs_of (h : list Cell) (g : loc) : list loc :=
  default [] (cb_of h g ≫= unsubs).

(** [o] is the first member of [A0] after [y] such that no member of [A]
    lies strictly between: where the walker goes from [y], which may be a
    handle that was unsubscribed during the pass. *)
Definition wleast (A A0 : loc → Prop) (y : loc) (o : option loc) : Prop :=
  match o with
  | Some z => A0 z ∧ y < z ∧ ∀ x, A x → y < x → z ≤ x
  | None => ∀ x, A x → ¬ y < x
  end.

Definition at_or_after (o : option loc) (x : loc) : Prop :=
  match o with Some y => y ≤ x | None => False end.

(** Invariant of a pass over the handles [A0] that were live when it
    started: no handle has been added, and from every handle of [A0], live
    or not, the [next] link skips only handles that are no longer live. *)
Definition pass_inv (c : cid) (A0 : loc → Prop) (w : World) : Prop :=
  (∀ x, alive (heap w) c x → A0 x) ∧
  (∀ y, A0 y → wleast (alive (heap w) c) A0 y (nxt (heap w) y)).

Definition cbs_ok (c : cid) (n : nat) (A0 : loc → Prop) (w : World) : Prop :=
  ∀ y, A0 y → ∃ f ls, cb_of (heap w) y = Some f ∧ unsubs f = Some ls ∧
    height f ≤ n ∧ ∀ l, l ∈ ls → scope_of (heap w) l = Some c.

(** The callback of handle [y] only records and calls [unsubscribe]
    closures of collection [c], and runs within fuel [n]. *)
Definition unsubscriber (h : list Cell) (c : cid) (n : nat) (y : loc) : Prop :=
  match cb_of h y ≫= (λ f, ls ← unsubs f; Some (f, ls)) with
  | Some (f, ls) => height f ≤ n ∧ Forall (λ l, scope_of h l = Some c) ls
  | None => False
  end.

Global Instance unsubscriber_dec h c n y : Decision (unsubscriber h c n y).
Proof.
  unfold unsubscriber.
  destruct (cb_of h y ≫= (λ f, ls ← unsubs f; Some (f, ls))) as [[f ls]|]; apply _.
Defined.

(** The scenario of the specification: [cb3] calls handle1's
    [unsubscribe]; handle2 has been unsubscribed before the pass. *)
Definition scenario_ops : list Op :=
  [OpSubscribe (Mark 1); OpSubscribe (Mark 2);
   OpSubscribe (Seq (Mark 3) (Unsubscribe 0)); OpUnsubscribe 1].

Definition scenario_registry : option World :=
  fst <$> run 0 scenario_ops ((createListenerCollection init).2, []).

(** [appends c f]: the callback [f] only records that it ran and calls
    [subscribe] of collection [c], with callbacks of the same kind. *)
Fixpoint appends (c : cid) (f : VoidFunc) : bool :=
  match f with
  | Mark _ => true
  | Subscribe c' g => bool_decide (c' = c) && appends c g
  | Seq g h => appends c g && appends c h
  | _ => false
  end.



(** Fuel that [f] and the callbacks nested in it need. *)
Fixpoint depth (f : VoidFunc) : nat :=
  match f with
  | Subscribe _ g => S (depth g)
  | Seq g h => S (depth g `max` depth h)
  | _ => 1
  end.



Definition appender (h : list Cell) (c : cid) (n : nat) (y : loc) : Prop :=
  match cb_of h y with
  | Some f => appends c f = true ∧ depth f ≤ n
  | None => False
  end.

Global Instance appender_dec h c n y : Decision (appender h c n y).
Proof. unfold appender. destruct (cb_of h y); apply _. Defined.

(** The live handles of [c] at or after address [b]. *)
Definition rest (w : World) (c : cid) (b : nat) : list loc :=
  filter (alive (heap w) c) (seq b (length (heap w) - b)).

(** ** Well-formed and reachable worlds *)

(** Every reference stored in the heap or in a collection points to an
    allocated object. *)
Definition closed (w : World) : Prop :=
  (∀ z n, nxt (heap w) z = Some n → n < length (heap w)) ∧
  (∀ z p, prv (heap w) z = Some p → p < length (heap w)) ∧
  (∀ z c, scope_of (heap w) z = Some c → c < length (colls w)) ∧
  (∀ c C, colls w !! c = Some C →
     (∀ f, first C = Some f → f < length (heap w)) ∧
     (∀ f, last C = Some f → f < length (heap w))).

(** The invariant of the data model: [unsubscribe] is set iff [listeners]
    is a live collection; what [unsubscribe] holds is a closure returned by
    a [subscribe]. *)
Definition attached_ok (w : World) (S : Subscription) : Prop :=
  match s_unsubscribe S, s_listeners S with
  | None, NullListeners => True
  | Some (Unsubscribe l), Live c => l < length (heap w) ∧ c < length (colls w)
  | _, _ => False
  end.

(** A subscription's store exists, its parent was created before it, and
    it satisfies the invariant above. *)
Definition subs_ok (w : World) : Prop :=
  ∀ s S, subs w !! s = Some S →
    store S < length (colls w) ∧
    (∀ p, parentSub S = Some p → p < s) ∧
    attached_ok w S.

Definition wf (w : World) : Prop := closed w ∧ subs_ok w.

(** In every registry a non-null [last] comes with a non-null [first]:
    what the guard [first === null] of [unsubscribe] relies on for a handle
    that is the tail of its list. *)
Definition tail_has_head (cs : list Collection) : Prop :=
  ∀ c C, cs !! c = Some C → is_Some (last C) → is_Some (first C).

(** The fields of the subscriptions that no operation of the program
    assigns are the same in [w'] as in [w]. *)
Definition same_static (w w' : World) : Prop :=
  length (subs w') = length (subs w) ∧
  ∀ s S, subs w !! s = Some S →
    ∃ S', subs w' !! s = Some S' ∧ store S' = store S ∧
      parentSub S' = parentSub S ∧ onStateChange S' = onStateChange S.

(** [e] records an upstream subscribe call (the store's [subscribe] or a
    parent's [addNestedSub]) that passes the change handler of node [s]. *)
Definition upstream_of (s : sid) (e : Event) : Prop :=
  match e with
  | EvStoreSubscribe _ f | EvAddNestedSub _ f => f = HandleChangeWrapper s
  | _ => False
  end.

Global Instance upstream_of_dec s e : Decision (upstream_of s e).
Proof. destruct e; simpl; apply _. Defined.

(** How many times the upstream subscribe mechanism was invoked for [s]. *)
Definition upstream_calls (s : sid) (tr : list Event) : nat :=
  length (filter (upstream_of s) tr).

(** What a call [s.addNestedSub(f)] from world [w] returns. *)
Definition add_post (s : sid) (f : VoidFunc) (w : World)
    (r : VoidFunc * World) : Prop :=
  ∃ l c S' C evs,
    r.1 = Unsubscribe l ∧ wf r.2 ∧ same_static w r.2 ∧
    length (heap w) ≤ l ∧ l < length (heap r.2) ∧
    length (colls w) ≤ length (colls r.2) ∧
    subs r.2 !! s = Some S' ∧ s_listeners S' = Live c ∧
    is_Some (s_unsubscribe S') ∧
    cb_of (heap r.2) l = Some f ∧ alive (heap r.2) c l ∧
    colls r.2 !! c = Some C ∧ last C = Some l ∧
    trace r.2 = trace w ++ EvAddNestedSub s f :: evs ∧
    Forall (λ e, ∃ q, q ≤ s ∧ upstream_of q e) evs.

(** What [s.trySubscribe()] from world [w] returns. *)
Definition try_post (s : sid) (w w' : World) : Prop :=
  ∃ S' c l evs,
    wf w' ∧ same_static w w' ∧
    length (heap w) ≤ length (heap w') ∧ length (colls w) ≤ length (colls w') ∧
    subs w' !! s = Some S' ∧ s_listeners S' = Live c ∧
    s_unsubscribe S' = Some (Unsubscribe l) ∧
    trace w' = trace w ++ evs ∧
    Forall (λ e, ∃ q, q ≤ s ∧ upstream_of q e) evs ∧
    (∀ S, subs w !! s = Some S →
       match s_unsubscribe S with
       | Some _ => w' = w
       | None => ∃ e evs', evs = e :: evs' ∧ upstream_of s e ∧
                   Forall (λ e, ∃ q, q < s ∧ upstream_of q e) evs'
       end).

(** The worlds a program can be in: stores and subscriptions are created
    (a parent before its children), the embedding component assigns
    [onStateChange], and functions are called. *)
Inductive reachable : World → Prop :=
  | reach_init : reachable init
  | reach_createStore w :
      reachable w → reachable (createStore w).2
  | reach_createSubscription w st parent :
      reachable w → st < length (colls w) →
      (∀ p, parent = Some p → p < length (subs w)) →
      reachable (createSubscription st parent w).2
  | reach_assign w s f w' :
      reachable w → assign_onStateChange s f w = Some w' → reachable w'
  | reach_call w n f w' :
      reachable w → call n f w = Some w' → reachable w'.

(** ** Propagation through a tree of subscriptions *)

(** [logs evs w]: the world [w] after the events [evs] were recorded. *)
Definition logs (evs : list Event) (w : World) : World :=
  mkWorld (heap w) (colls w) (subs w) (trace w ++ evs).

Definition same_store (w w2 : World) : Prop :=
  heap w2 = heap w ∧ colls w2 = colls w ∧ subs w2 = subs w.

(** The callback [f], run in a world with the objects of [w], returns and
    only records the events [evs]. *)
Definition quiet (n : nat) (f : VoidFunc) (w : World) (evs : list Event) : Prop :=
  ∀ w2, same_store w w2 → call n f w2 = Some (logs evs w2).

(** The callbacks of the live listeners of [c], oldest first. *)
Definition cbs (w : World) (c : cid) : list VoidFunc :=
  omap (cb_of (heap w)) (live w c).

(** The events of a pass over [c] in which the callback [f] records [E f]. *)
Definition pass_events (E : VoidFunc → list Event) (w : World) (c : cid) (b : nat)
    : list Event :=
  flat_map (λ x, EvInvoke x :: E (default (Mark 0) (cb_of (heap w) x))) (rest w c b).

(** [s.addNestedSub(Mark k)] for each [k] of [ks], in order. *)
Fixpoint add_all (n : nat) (s : sid) (ks : list nat) (w : World) : option World :=
  match ks with
  | [] => Some w
  | k :: ks' => r ← addNestedSub n s (Mark k) w; add_all n s ks' r.2
  end.

(** The tree of the specification's scenario: a store, a node P attached
    to it the way [Provider] attaches its subscription
    ([onStateChange = notifyNestedSubs], then [trySubscribe()]), a node C
    with parent P whose [onStateChange] is its [notifyNestedSubs], then the
    terminal listeners [ksP] registered on P and [ksC] on C. *)
Definition tree_base : option World :=
  let '(st, w) := createStore init in
  let '(P, w) := createSubscription st None w in
  w ← assign_onStateChange P (Some (NotifyNestedSubs P)) w;
  w ← trySubscribe 1 P w;
  let '(C, w) := createSubscription st (Some P) w in
  assign_onStateChange C (Some (NotifyNestedSubs C)) w.

Definition tree_scenario (ksP ksC : list nat) : option World :=
  w ← tree_base;
  w ← add_all 2 0 ksP w;
  add_all 2 1 ksC w.

(** The same tree with further terminal listeners [ksP'] registered on P
    after C has attached. *)
Definition tree_scenario_late (ksP ksC ksP' : list nat) : option World :=
  w ← tree_scenario ksP ksC;
  add_all 2 0 ksP' w.

Definition P_rec : Subscription :=
  mkSubscription 0 None (Some (Unsubscribe 0)) (Live 1) (Some (NotifyNestedSubs 0)).

Definition C_detached : Subscription :=
  mkSubscription 0 (Some 0) None NullListeners (Some (NotifyNestedSubs 1)).

Definition C_attached (l : loc) : Subscription :=
  mkSubscription 0 (Some 0) (Some (Unsubscribe l)) (Live 2) (Some (NotifyNestedSubs 1)).

(** The tree while C is detached: P's registry holds [fsP]. *)
Definition tree_inv1 (fsP : list VoidFunc) (w : World) : Prop :=
  closed w ∧ reg_ok w 0 ∧ reg_ok w 1 ∧
  cbs w 0 = [HandleChangeWrapper 0] ∧ cbs w 1 = fsP ∧
  marks (trace w) = [] ∧ length (colls w) = 2 ∧
  subs w = [P_rec; C_detached].

(** The tree once C is attached: C's registry holds [fsC]. *)
Definition tree_inv2 (fsP fsC : list VoidFunc) (w : World) : Prop :=
  closed w ∧ reg_ok w 0 ∧ reg_ok w 1 ∧ reg_ok w 2 ∧
  cbs w 0 = [HandleChangeWrapper 0] ∧ cbs w 1 = fsP ∧ cbs w 2 = fsC ∧
  marks (trace w) = [] ∧ length (colls w) = 3 ∧
  ∃ l, subs w = [P_rec; C_attached l].

(** What a terminal listener records; what the change handler of C
    records, given the world [w]. *)
Definition leaf_events (f : VoidFunc) : list Event :=
  match f with Mark k => [EvMark k] | _ => [] end.

Definition node_events (w : World) (c : cid) (f : VoidFunc) : list Event :=
  match f with
  | Mark k => [EvMark k]
  | HandleChangeWrapper _ => pass_events leaf_events w c 0
  | _ => []
  end.

(** ** Concrete worlds *)

(** The registry of the specification's scenario, before the pass. *)
Definition demo_registry : World := default init scenario_registry.



(** A detached root node. *)
Definition demo_root : World :=
  (createSubscription 0 None (createStore init).2).2.

(** A registry with two recording callbacks; a registry whose callback
    calls [notify()] of the registry itself. *)
Definition demo_marks : World :=
  default init
    (fst <$> run 0 [OpSubscribe (Mark 1); OpSubscribe (Mark 2)]
               ((createListenerCollection init).2, [])).


(** The tree before any terminal listener is registered (P attached, C
    detached); the tree with one listener on P; a detached child of a
    detached root. *)
Definition demo_tree_base : World := default init tree_base.

Definition demo_provider : World := default init (tree_scenario [100] []).

Definition demo_child : World := (createSubscription 0 (Some 0) demo_root).2.

(** A root node attached to its store. *)
Definition demo_attached : World := default init (trySubscribe 0 0 demo_root).

(** * Part II: lemmas and theorems *)

(** Closed statements about a concrete run are settled by running the
    program: each world is obtained by evaluating the call that produces
    it. *)
Ltac by_running :=
  repeat lazymatch goal with
         | |- ∃ _, _ => eexists
         | |- _ ∧ _ => split
         | |- _ = _ => vm_compute; reflexivity
         end.

(** ** Effect of the list operations on the views *)

Lemma aliveb_spec h c l : aliveb h c l = true ↔ alive h c l.
Proof.
  unfold aliveb, alive. destruct (h !! l) as [cell|]; split.
  - intros [H1 H2]%andb_prop. apply bool_decide_eq_true in H1. eauto.
  - intros (x & Hx & H1 & H2). simplify_eq. rewrite H2, andb_true_r.
    by apply bool_decide_eq_true.
  - discriminate.
  - by intros (x & Hx & _).
Qed.

Lemma alive_lt h c l : alive h c l → l < length h.
Proof. intros (cell & H & _). by eapply lookup_lt_Some. Qed.

Section Views.

Context (h : list Cell).

Lemma lookup_relink p cp f z :
  h !! p = Some cp →
  <[p := upd_obj f cp]> h !! z =
    if decide (z = p) then Some (upd_obj f cp) else h !! z.
Proof.
  intros Hp. destruct (decide (z = p)) as [->|Hne].
  - apply list_lookup_insert_eq. by eapply lookup_lt_Some.
  - by apply list_lookup_insert_ne.
Qed.

Lemma alive_relink p cp f c z :
  h !! p = Some cp →
  alive (<[p := upd_obj f cp]> h) c z ↔ alive h c z.
Proof.
  intros Hp. unfold alive. rewrite (lookup_relink _ _ _ _ Hp).
  destruct (decide (z = p)) as [->|]; [|done].
  split.
  - intros (x & Hx & H1 & H2). simplify_eq. eauto.
  - intros (x & Hx & H1 & H2). simplify_eq. eexists; split; [done|]. eauto.
Qed.

Lemma nxt_set_next p cp o z :
  h !! p = Some cp →
  nxt (<[p := upd_obj (set_next o) cp]> h) z =
    if decide (z = p) then o else nxt h z.
Proof.
  intros Hp. unfold nxt. rewrite (lookup_relink _ _ _ _ Hp).
  by destruct (decide (z = p)).
Qed.

Lemma prv_set_next p cp o z :
  h !! p = Some cp →
  prv (<[p := upd_obj (set_next o) cp]> h) z = prv h z.
Proof.
  intros Hp. unfold prv. rewrite (lookup_relink _ _ _ _ Hp).
  destruct (decide (z = p)) as [->|]; [|done]. by rewrite Hp.
Qed.

Lemma nxt_set_prev p cp o z :
  h !! p = Some cp →
  nxt (<[p := upd_obj (set_prev o) cp]> h) z = nxt h z.
Proof.
  intros Hp. unfold nxt. rewrite (lookup_relink _ _ _ _ Hp).
  destruct (decide (z = p)) as [->|]; [|done]. by rewrite Hp.
Qed.

Lemma prv_set_prev p cp o z :
  h !! p = Some cp →
  prv (<[p := upd_obj (set_prev o) cp]> h) z =
    if decide (z = p) then o else prv h z.
Proof.
  intros Hp. unfold prv. rewrite (lookup_relink _ _ _ _ Hp).
  by destruct (decide (z = p)).
Qed.

Lemma cb_of_relink p cp f z :
  h !! p = Some cp → (∀ L, callback (f L) = callback L) →
  cb_of (<[p := upd_obj f cp]> h) z = cb_of h z.
Proof.
  intros Hp Hf. unfold cb_of. rewrite (lookup_relink _ _ _ _ Hp).
  destruct (decide (z = p)) as [->|]; [|done]. rewrite Hp. simpl. by rewrite Hf.
Qed.

Lemma scope_of_relink p cp f z :
  h !! p = Some cp → scope_of (<[p := upd_obj f cp]> h) z = scope_of h z.
Proof.
  intros Hp. unfold scope_of. rewrite (lookup_relink _ _ _ _ Hp).
  destruct (decide (z = p)) as [->|]; [|done]. by rewrite Hp.
Qed.

Lemma lookup_unflag l cell z :
  h !! l = Some cell →
  <[l := set_isSubscribed false cell]> h !! z =
    if decide (z = l) then Some (set_isSubscribed false cell) else h !! z.
Proof.
  intros Hl. destruct (decide (z = l)) as [->|Hne].
  - apply list_lookup_insert_eq. by eapply lookup_lt_Some.
  - by apply list_lookup_insert_ne.
Qed.

Lemma alive_unflag l cell c z :
  h !! l = Some cell →
  alive (<[l := set_isSubscribed false cell]> h) c z ↔ alive h c z ∧ z ≠ l.
Proof.
  intros Hl. unfold alive. rewrite (lookup_unflag _ _ _ Hl).
  destruct (decide (z = l)) as [->|].
  - split; [intros (x & Hx & _ & Hf); by simplify_eq|intros [_ []]; done].
  - naive_solver.
Qed.

Lemma nxt_unflag l cell z :
  h !! l = Some cell → nxt (<[l := set_isSubscribed false cell]> h) z = nxt h z.
Proof.
  intros Hl. unfold nxt. rewrite (lookup_unflag _ _ _ Hl).
  destruct (decide (z = l)) as [->|]; [|done]. by rewrite Hl.
Qed.

Lemma prv_unflag l cell z :
  h !! l = Some cell → prv (<[l := set_isSubscribed false cell]> h) z = prv h z.
Proof.
  intros Hl. unfold prv. rewrite (lookup_unflag _ _ _ Hl).
  destruct (decide (z = l)) as [->|]; [|done]. by rewrite Hl.
Qed.

Lemma cb_of_unflag l cell z :
  h !! l = Some cell → cb_of (<[l := set_isSubscribed false cell]> h) z = cb_of h z.
Proof.
  intros Hl. unfold cb_of. rewrite (lookup_unflag _ _ _ Hl).
  destruct (decide (z = l)) as [->|]; [|done]. by rewrite Hl.
Qed.

Lemma scope_of_unflag l cell z :
  h !! l = Some cell →
  scope_of (<[l := set_isSubscribed false cell]> h) z = scope_of h z.
Proof.
  intros Hl. unfold scope_of. rewrite (lookup_unflag _ _ _ Hl).
  destruct (decide (z = l)) as [->|]; [|done]. by rewrite Hl.
Qed.

Lemma lookup_snoc x z :
  (h ++ [x]) !! z =
    if decide (z = length h) then Some x else h !! z.
Proof.
  destruct (decide (z = length h)) as [->|Hne].
  - by rewrite lookup_app_r, Nat.sub_diag.
  - destruct (decide (z < length h)).
    + by rewrite lookup_app_l.
    + rewrite !lookup_ge_None_2; [done| lia |rewrite length_app; simpl; lia].
Qed.

Lemma alive_snoc x c z :
  alive (h ++ [x]) c z ↔
    alive h c z ∨ (z = length h ∧ scope x = c ∧ isSubscribed x = true).
Proof.
  unfold alive. rewrite lookup_snoc. destruct (decide (z = length h)) as [->|].
  - split.
    + intros (y & Hy & ? & ?). simplify_eq. by right.
    + intros [(y & Hy & _)|(_ & ? & ?)]; [|eauto].
      apply lookup_lt_Some in Hy. lia.
  - naive_solver.
Qed.

Lemma nxt_snoc x z :
  nxt (h ++ [x]) z = if decide (z = length h) then next (obj x) else nxt h z.
Proof. unfold nxt. rewrite lookup_snoc. by destruct (decide _). Qed.

Lemma prv_snoc x z :
  prv (h ++ [x]) z = if decide (z = length h) then prev (obj x) else prv h z.
Proof. unfold prv. rewrite lookup_snoc. by destruct (decide _). Qed.

Lemma cb_of_snoc x z :
  cb_of (h ++ [x]) z =
    if decide (z = length h) then Some (callback (obj x)) else cb_of h z.
Proof. unfold cb_of. rewrite lookup_snoc. by destruct (decide _). Qed.

Lemma scope_of_snoc x z :
  scope_of (h ++ [x]) z =
    if decide (z = length h) then Some (scope x) else scope_of h z.
Proof. unfold scope_of. rewrite lookup_snoc. by destruct (decide _). Qed.

End Views.

Lemma subscribe_effect c cb w C :
  colls w !! c = Some C →
  (∀ p, last C = Some p → p < length (heap w)) →
  let l := length (heap w) in
  ∃ w', subscribe c cb w = Some (Unsubscribe l, w') ∧
    length (heap w') = S l ∧ subs w' = subs w ∧ trace w' = trace w ∧
    colls w' =
      <[c := mkCollection (match last C with Some _ => first C | None => Some l end)
                          (Some l)]> (colls w) ∧
    (∀ c' z, alive (heap w') c' z ↔ alive (heap w) c' z ∨ (c' = c ∧ z = l)) ∧
    (∀ z, nxt (heap w') z =
            if decide (last C = Some z) then Some l
            else if decide (z = l) then None else nxt (heap w) z) ∧
    (∀ z, prv (heap w') z = if decide (z = l) then last C else prv (heap w) z) ∧
    (∀ z, cb_of (heap w') z = if decide (z = l) then Some cb else cb_of (heap w) z) ∧
    (∀ z, scope_of (heap w') z =
            if decide (z = l) then Some c else scope_of (heap w) z).
Proof.
  intros HC Hlast l. unfold subscribe. rewrite HC. simpl.
  rewrite lookup_snoc, decide_True by done. simpl.
  destruct (last C) as [p|] eqn:Hp.
  - specialize (Hlast p eq_refl).
    destruct (lookup_lt_is_Some_2 (heap w) p Hlast) as [cp Hcp].
    assert (Hcp' : (heap w ++ [mkCell (mkListener cb None (Some p)) c true]) !! p
                   = Some cp) by (by rewrite lookup_app_l).
    rewrite Hcp'. simpl. eexists; split; [done|]. simpl.
    split; [by rewrite length_insert, length_app, Nat.add_1_r|].
    do 3 (split; [done|]).
    split; [|split; [|split; [|split]]]; intros.
    + rewrite alive_relink by done. rewrite alive_snoc. simpl. naive_solver.
    + rewrite nxt_set_next by done. rewrite nxt_snoc. simpl.
      destruct (decide (z = p)) as [->|]; [by rewrite decide_True|].
      by rewrite (decide_False (P := Some p = Some z)) by congruence.
    + rewrite prv_set_next by done. by rewrite prv_snoc.
    + rewrite cb_of_relink by done. by rewrite cb_of_snoc.
    + rewrite scope_of_relink by done. by rewrite scope_of_snoc.
  - simpl. rewrite list_lookup_insert_eq by (by eapply lookup_lt_Some).
    simpl. eexists; split; [done|]. simpl.
    split; [by rewrite length_app, Nat.add_1_r|].
    do 2 (split; [done|]).
    split; [by rewrite list_insert_insert_eq|].
    split; [|split; [|split; [|split]]]; intros.
    + rewrite alive_snoc. simpl. naive_solver.
    + by rewrite nxt_snoc.
    + by rewrite prv_snoc.
    + by rewrite cb_of_snoc.
    + by rewrite scope_of_snoc.
Qed.

Lemma unsubscribe_effect l w cell C :
  heap w !! l = Some cell → isSubscribed cell = true →
  colls w !! scope cell = Some C → is_Some (first C) →
  (∀ n, nxt (heap w) l = Some n → n < length (heap w)) →
  (∀ p, prv (heap w) l = Some p → p < length (heap w)) →
  ∃ w', unsubscribe l w = Some w' ∧
    length (heap w') = length (heap w) ∧ subs w' = subs w ∧ trace w' = trace w ∧
    colls w' =
      <[scope cell :=
          mkCollection
            (match prv (heap w) l with Some _ => first C | None => nxt (heap w) l end)
            (match nxt (heap w) l with Some _ => last C | None => prv (heap w) l end)]>
        (colls w) ∧
    (∀ c' z, alive (heap w') c' z ↔ alive (heap w) c' z ∧ z ≠ l) ∧
    (∀ z, nxt (heap w') z =
            if decide (prv (heap w) l = Some z) then nxt (heap w) l else nxt (heap w) z) ∧
    (∀ z, prv (heap w') z =
            if decide (nxt (heap w) l = Some z) then prv (heap w) l else prv (heap w) z) ∧
    (∀ z, cb_of (heap w') z = cb_of (heap w) z) ∧
    (∀ z, scope_of (heap w') z = scope_of (heap w) z).
Proof.
  intros Hl Hflag HC [f0 Hfirst] Hn Hp.
  assert (Hon : nxt (heap w) l = next (obj cell)) by (unfold nxt; by rewrite Hl).
  assert (Hop : prv (heap w) l = prev (obj cell)) by (unfold prv; by rewrite Hl).
  rewrite Hon, Hop in *. clear Hon Hop.
  unfold unsubscribe. rewrite Hl. simpl. rewrite Hflag. simpl.
  rewrite HC. simpl. rewrite Hfirst.
  pose proof (lookup_lt_Some _ _ _ Hl) as Hlt.
  rewrite list_lookup_insert_eq by done. simpl.
  destruct cell as [[f on op] c flag]. simpl in *.
  set (cell := mkCell (mkListener f on op) c flag) in *.
  set (h1 := <[l := set_isSubscribed false cell]> (heap w)).
  assert (Hlen1 : length h1 = length (heap w)) by apply length_insert.
  destruct on as [n|].
  - (* listener.next.prev = listener.prev *)
    specialize (Hn n eq_refl).
    destruct (lookup_lt_is_Some_2 h1 n) as [cn Hcn]; [lia|].
    fold h1. rewrite Hcn. simpl. fold h1.
    set (h2 := <[n := upd_obj (set_prev op) cn]> h1).
    assert (Hl2 : prv h2 l = op ∧ nxt h2 l = Some n).
    { unfold h2. rewrite prv_set_prev, nxt_set_prev by done.
      unfold h1. rewrite nxt_unflag, prv_unflag by done.
      unfold nxt, prv. rewrite Hl. simpl. split; [by destruct (decide _)|done]. }
    destruct Hl2 as [Hpl2 Hnl2].
    destruct (lookup_lt_is_Some_2 h2 l) as [cl2 Hcl2];
      [unfold h2; rewrite length_insert; lia|].
    fold h2. rewrite Hcl2. simpl. fold h1. fold h2.
    assert (prev (obj cl2) = op) as -> by (unfold prv in Hpl2; by rewrite Hcl2 in Hpl2).
    assert (next (obj cl2) = Some n) as -> by (unfold nxt in Hnl2; by rewrite Hcl2 in Hnl2).
    destruct op as [p|].
    + specialize (Hp p eq_refl).
      destruct (lookup_lt_is_Some_2 h2 p) as [cp Hcp2];
        [unfold h2; rewrite length_insert; lia|].
      rewrite Hcp2. simpl. fold h1. fold h2. eexists; split; [done|]. simpl.
      split; [by rewrite !length_insert|].
      do 2 (split; [done|]).
      split; [symmetry; apply list_insert_id; rewrite HC; f_equal;
              destruct C; simpl in *; by subst|].
      split; [|split; [|split; [|split]]]; intros.
      * rewrite alive_relink by done. unfold h2. rewrite alive_relink by done.
        unfold h1. by rewrite alive_unflag.
      * rewrite nxt_set_next by done. unfold h2. rewrite nxt_set_prev by done.
        unfold h1. rewrite nxt_unflag by done.
        destruct (decide (z = p)) as [->|]; [by rewrite decide_True|].
        by rewrite (decide_False (P := Some p = Some z)) by congruence.
      * rewrite prv_set_next by done. unfold h2. rewrite prv_set_prev by done.
        unfold h1. rewrite prv_unflag by done.
        destruct (decide (z = n)) as [->|]; [by rewrite decide_True|].
        by rewrite (decide_False (P := Some n = Some z)) by congruence.
      * rewrite cb_of_relink by done. unfold h2. rewrite cb_of_relink by done.
        unfold h1. by rewrite cb_of_unflag.
      * rewrite scope_of_relink by done. unfold h2. rewrite scope_of_relink by done.
        unfold h1. by rewrite scope_of_unflag.
    + rewrite HC. simpl. eexists; split; [done|]. simpl.
      split; [by rewrite !length_insert|].
      do 2 (split; [done|]).
      split; [f_equal; destruct C; unfold set_first, set_last; simpl in *; by subst|].
      split; [|split; [|split; [|split]]]; intros.
      * unfold h2. rewrite alive_relink by done.
        unfold h1. by rewrite alive_unflag.
      * unfold h2. rewrite nxt_set_prev by done.
        unfold h1. by rewrite nxt_unflag by done.
      * unfold h2. rewrite prv_set_prev by done.
        unfold h1. rewrite prv_unflag by done.
        destruct (decide (z = n)) as [->|]; [by rewrite decide_True|].
        by rewrite (decide_False (P := Some n = Some z)) by congruence.
      * unfold h2. rewrite cb_of_relink by done.
        unfold h1. by rewrite cb_of_unflag.
      * unfold h2. rewrite scope_of_relink by done.
        unfold h1. by rewrite scope_of_unflag.
  - (* last = listener.prev *)
    simpl. rewrite (list_lookup_insert_eq (heap w)) by done. simpl.
    destruct op as [p|].
    + specialize (Hp p eq_refl).
      destruct (lookup_lt_is_Some_2 h1 p) as [cp Hcp]; [lia|].
      fold h1. rewrite Hcp. simpl. eexists; split; [done|]. simpl.
      split; [by rewrite !length_insert|].
      do 2 (split; [done|]).
      split; [f_equal; destruct C; unfold set_first, set_last; simpl in *; by subst|].
      split; [|split; [|split; [|split]]]; intros.
      * rewrite alive_relink by done. unfold h1. by rewrite alive_unflag.
      * rewrite nxt_set_next by done. unfold h1. rewrite nxt_unflag by done.
        destruct (decide (z = p)) as [->|]; [by rewrite decide_True|].
        by rewrite (decide_False (P := Some p = Some z)) by congruence.
      * rewrite prv_set_next by done. unfold h1. by rewrite prv_unflag by done.
      * rewrite cb_of_relink by done. unfold h1. by rewrite cb_of_unflag.
      * rewrite scope_of_relink by done. unfold h1. by rewrite scope_of_unflag.
    + rewrite list_lookup_insert_eq by (by eapply lookup_lt_Some).
      simpl. eexists; split; [done|]. simpl.
      split; [by rewrite !length_insert|].
      do 2 (split; [done|]).
      split; [by rewrite list_insert_insert_eq|].
      split; [|split; [|split; [|split]]]; intros.
      * fold h1. unfold h1. by rewrite alive_unflag.
      * fold h1. unfold h1. by rewrite nxt_unflag by done.
      * fold h1. unfold h1. by rewrite prv_unflag by done.
      * fold h1. unfold h1. by rewrite cb_of_unflag.
      * fold h1. unfold h1. by rewrite scope_of_unflag.
Qed.

Lemma least_ext (A A' : loc → Prop) b o :
  (∀ z, b ≤ z → (A z ↔ A' z)) → least A b o → least A' b o.
Proof.
  intros HA. destruct o as [y|]; simpl.
  - intros (Hy & Hb & Hmin). split; [by apply HA|]. split; [done|].
    intros z Hz Hbz. apply Hmin; [by apply HA|done].
  - intros Hno z Hz Hbz. eapply Hno; [|done]. by apply HA.
Qed.

Lemma greatest_ext (A A' : loc → Prop) b o :
  (∀ z, z < b → (A z ↔ A' z)) → greatest A b o → greatest A' b o.
Proof.
  intros HA. destruct o as [y|]; simpl.
  - intros (Hy & Hb & Hmax). split; [by apply HA|]. split; [done|].
    intros z Hz Hbz. apply Hmax; [by apply HA|done].
  - intros Hno z Hz Hbz. eapply Hno; [|done]. by apply HA.
Qed.

Lemma reg_ok_create w c :
  reg_ok w c → reg_ok (createListenerCollection w).2 c.
Proof.
  intros (C & HC & H). exists C. split; [|done].
  simpl. by apply lookup_app_l_Some.
Qed.

Lemma reg_ok_fresh w :
  (∀ l cell, heap w !! l = Some cell → scope cell < length (colls w)) →
  reg_ok (createListenerCollection w).2 (createListenerCollection w).1.
Proof.
  intros Hsc. exists (mkCollection None None). simpl.
  split; [by rewrite lookup_app_r, Nat.sub_diag|].
  assert (Hno : ∀ z, ¬ alive (heap w) (length (colls w)) z).
  { intros z (cell & Hz & Hs & _). apply Hsc in Hz. lia. }
  split; [intros z Hz; by apply Hno in Hz|].
  split; [intros z Hz; by apply Hno in Hz|].
  intros z Hz. by apply Hno in Hz.
Qed.

Lemma reg_ok_subscribe w c c' cb u w' :
  reg_ok w c → reg_ok w c' →
  subscribe c cb w = Some (u, w') → reg_ok w' c'.
Proof.
  intros (C & HC & Hf & Hl & Hlinks) (C' & HC' & Hf' & Hl' & Hlinks') Hsub.
  destruct (subscribe_effect c cb w C HC) as
    (w2 & Hsub2 & Hlen & _ & _ & Hcolls & Halive & Hnxt & Hprv & _).
  { intros p Hp. rewrite Hp in Hl. destruct Hl as (Hl & _). by eapply alive_lt. }
  rewrite Hsub in Hsub2. injection Hsub2 as -> <-.
  set (l := length (heap w)) in *.
  assert (Hlt : ∀ c0 z, alive (heap w) c0 z → z < l) by (intros; by eapply alive_lt).
  destruct (decide (c' = c)) as [->|Hne].
  - (* the collection subscribed to *)
    rewrite HC in HC'. injection HC' as <-.
    eexists. split.
    { rewrite Hcolls. apply list_lookup_insert_eq. by eapply lookup_lt_Some. }
    simpl. rewrite Hlen.
    assert (HA : ∀ z, alive (heap w') c z ↔ alive (heap w) c z ∨ z = l)
      by (intros; rewrite Halive; naive_solver).
    split; [|split].
    + destruct (last C) as [p|] eqn:Hp; simpl in *.
      * destruct (first C) as [f|]; simpl in *.
        -- destruct Hf as (Hf1 & _ & Hf2). split; [apply HA; by left|].
           split; [lia|]. intros z [Hz| ->]%HA _; [apply Hf2; [done|lia]|].
           apply Hlt in Hf1. lia.
        -- destruct Hl as (Hl & _). exfalso. eapply Hf; [exact Hl|lia].
      * split; [apply HA; by right|]. split; [lia|].
        intros z [Hz| ->]%HA _; [|lia]. exfalso. eapply Hl; [exact Hz|by eapply Hlt].
    + split; [apply HA; by right|]. split; [lia|].
      intros z [Hz| ->]%HA _; [|lia]. apply Hlt in Hz. lia.
    + intros z Hz. rewrite Hnxt, Hprv. apply HA in Hz. split.
      * destruct (decide (last C = Some z)) as [Hlz|Hlz].
        { simpl. split; [apply HA; by right|]. rewrite Hlz in Hl.
          destruct Hl as (Hl1 & Hl2 & Hl3). split; [lia|].
          intros y [Hy| ->]%HA ?; [|lia]. specialize (Hl3 y Hy (Hlt _ _ Hy)). lia. }
        destruct (decide (z = l)) as [->|Hzl].
        { simpl. intros y [Hy| ->]%HA ?; [apply Hlt in Hy|]; lia. }
        destruct Hz as [Hz|]; [|done].
        destruct (Hlinks z Hz) as [Hn _].
        destruct (nxt (heap w) z) as [y|]; simpl in *.
        -- destruct Hn as (Hy1 & Hy2 & Hy3). split; [apply HA; by left|].
           split; [done|]. intros y' [Hy'| ->]%HA ?; [by apply Hy3|].
           apply Hlt in Hy1. lia.
        -- destruct (last C) as [p|]; simpl in *.
           ++ destruct Hl as (Hl1 & Hl2 & Hl3).
              specialize (Hl3 z Hz (Hlt _ _ Hz)).
              assert (z < p) by (assert (p ≠ z) by congruence; lia).
              exfalso. eapply Hn; [exact Hl1|lia].
           ++ exfalso. eapply Hl; [exact Hz|by eapply Hlt].
      * destruct (decide (z = l)) as [->|Hzl].
        { eapply greatest_ext; [|exact Hl]. intros y Hy. rewrite HA.
          split; [by left|intros [|]; [done|lia]]. }
        destruct Hz as [Hz|]; [|done].
        destruct (Hlinks z Hz) as [_ Hp].
        eapply greatest_ext; [|exact Hp]. intros y Hy. rewrite HA.
        apply Hlt in Hz. split; [by left|intros [|]; [done|lia]].
  - (* another collection *)
    exists C'. split.
    { rewrite Hcolls. by rewrite list_lookup_insert_ne. }
    rewrite Hlen.
    assert (HA : ∀ z, alive (heap w') c' z ↔ alive (heap w) c' z)
      by (intros; rewrite Halive; naive_solver).
    split; [by eapply least_ext; [|exact Hf']|].
    split.
    { destruct (last C') as [p|]; simpl in *.
      - destruct Hl' as (H1 & H2 & H3). split; [by apply HA|]. split; [lia|].
        intros z Hz%HA _. apply H3; [done|by eapply Hlt].
      - intros z Hz%HA _. exfalso. eapply Hl'; [exact Hz|by eapply Hlt]. }
    intros z Hz%HA. destruct (Hlinks' z Hz) as [Hn Hp].
    rewrite Hnxt, Hprv.
    rewrite decide_False; [rewrite decide_False|].
    + rewrite decide_False by (apply Hlt in Hz; lia).
      split; [by eapply least_ext; [|exact Hn]|by eapply greatest_ext; [|exact Hp]].
    + apply Hlt in Hz. lia.
    + intros Hlz. rewrite Hlz in Hl. destruct Hl as ((x & Hx & Hxs & _) & _).
      destruct Hz as (x' & Hx' & Hxs' & _). congruence.
Qed.

Section Remove.

Context (A : loc → Prop) (l : loc).

Lemma least_remove_other b o :
  least A b o → o ≠ Some l → least (without A l) b o.
Proof.
  destruct o as [y|]; simpl.
  - intros (Hy & Hb & Hmin) Hne. split; [split; [done|congruence]|].
    split; [done|]. intros z [Hz _]. by apply Hmin.
  - intros Hno _ z [Hz _]. by apply Hno.
Qed.

Lemma least_remove_skip b on :
  least A (S l) on → (∀ z, A z → b ≤ z → z < l → False) → b ≤ l →
  least (without A l) b on.
Proof.
  intros Hon Hgap Hb. destruct on as [y|]; simpl in *.
  - destruct Hon as (Hy & Hly & Hmin). split; [split; [done|lia]|].
    split; [lia|]. intros z [Hz Hzl] Hbz.
    destruct (decide (z < l)); [by destruct (Hgap z)|]. apply Hmin; [done|lia].
  - intros z [Hz Hzl] Hbz.
    destruct (decide (z < l)); [by destruct (Hgap z)|].
    eapply Hon; [exact Hz|lia].
Qed.

Lemma greatest_remove_other b o :
  greatest A b o → o ≠ Some l → greatest (without A l) b o.
Proof.
  destruct o as [y|]; simpl.
  - intros (Hy & Hb & Hmax) Hne. split; [split; [done|congruence]|].
    split; [done|]. intros z [Hz _]. by apply Hmax.
  - intros Hno _ z [Hz _]. by apply Hno.
Qed.

Lemma greatest_remove_skip b op :
  greatest A l op → (∀ z, A z → z < b → l < z → False) → l < b →
  greatest (without A l) b op.
Proof.
  intros Hop Hgap Hb. destruct op as [y|]; simpl in *.
  - destruct Hop as (Hy & Hly & Hmax). split; [split; [done|lia]|].
    split; [lia|]. intros z [Hz Hzl] Hbz.
    destruct (decide (l < z)); [by destruct (Hgap z)|]. apply Hmax; [done|lia].
  - intros z [Hz Hzl] Hbz.
    destruct (decide (l < z)); [by destruct (Hgap z)|].
    eapply Hop; [exact Hz|lia].
Qed.

Lemma least_greatest_adjacent z op :
  A z → least A (S z) (Some l) → greatest A l op → op = Some z.
Proof.
  intros Hz (Hl & Hzl & Hmin) Hop. destruct op as [p|]; simpl in *.
  - destruct Hop as (Hp & Hpl & Hmax). f_equal.
    specialize (Hmax z Hz). destruct (decide (p = z)); [done|].
    specialize (Hmin p Hp). lia.
  - exfalso. eapply Hop; [exact Hz|lia].
Qed.

Lemma greatest_least_adjacent z on :
  A z → greatest A z (Some l) → least A (S l) on → on = Some z.
Proof.
  intros Hz (Hl & Hzl & Hmax) Hon. destruct on as [n|]; simpl in *.
  - destruct Hon as (Hn & Hnl & Hmin). f_equal.
    specialize (Hmin z Hz). destruct (decide (n = z)); [done|].
    specialize (Hmax n Hn). lia.
  - exfalso. eapply Hon; [exact Hz|lia].
Qed.

End Remove.

(** On a registry that satisfies the invariant an [unsubscribe] closure
    returns normally. *)
Lemma unsubscribe_returns l w cell :
  heap w !! l = Some cell → reg_ok w (scope cell) →
  ∃ w', unsubscribe l w = Some w'.
Proof.
  intros Hl (C & HC & Hf & Hlast & Hlinks).
  destruct (isSubscribed cell) eqn:Hflag.
  - assert (Hal : alive (heap w) (scope cell) l) by (exists cell; eauto).
    destruct (Hlinks l Hal) as [Hn Hp].
    destruct (unsubscribe_effect l w cell C) as (w' & Hw' & _); try done.
    + destruct (first C); [done|]. exfalso. eapply Hf; [exact Hal|lia].
    + intros n Hnl. rewrite Hnl in Hn. destruct Hn as (Hn & _). by eapply alive_lt.
    + intros p Hpl. rewrite Hpl in Hp. destruct Hp as (Hp & _). by eapply alive_lt.
    + eauto.
  - exists w. unfold unsubscribe. rewrite Hl. simpl. by rewrite Hflag.
Qed.

Lemma unsubscribe_dead l w cell :
  heap w !! l = Some cell → isSubscribed cell = false → unsubscribe l w = Some w.
Proof. intros Hl Hflag. unfold unsubscribe. rewrite Hl. simpl. by rewrite Hflag. Qed.

Lemma reg_ok_unsubscribe l w cell c' w' :
  heap w !! l = Some cell → reg_ok w (scope cell) → reg_ok w c' →
  unsubscribe l w = Some w' → reg_ok w' c'.
Proof.
  intros Hl Hok Hok' Hun.
  destruct (isSubscribed cell) eqn:Hflag;
    [|rewrite (unsubscribe_dead _ _ _ Hl Hflag) in Hun; by simplify_eq].
  destruct Hok as (C & HC & Hf & Hlast & Hlinks).
  destruct Hok' as (C' & HC' & Hf' & Hlast' & Hlinks').
  set (c := scope cell) in *.
  assert (Hal : alive (heap w) c l) by (exists cell; eauto).
  destruct (Hlinks l Hal) as [Hn Hp].
  assert (Hlt : ∀ c0 z, alive (heap w) c0 z → z < length (heap w))
    by (intros; by eapply alive_lt).
  destruct (unsubscribe_effect l w cell C) as
    (w2 & Hw2 & Hlen & _ & _ & Hcolls & Halive & Hnxt & Hprv & _); try done.
  { destruct (first C); [done|]. exfalso. eapply Hf; [exact Hal|lia]. }
  { intros n Hnl. rewrite Hnl in Hn. destruct Hn as (Hn & _). by eapply Hlt. }
  { intros p Hpl. rewrite Hpl in Hp. destruct Hp as (Hp & _). by eapply Hlt. }
  rewrite Hun in Hw2. injection Hw2 as <-. fold c in Hcolls.
  set (on := nxt (heap w) l) in *. set (op := prv (heap w) l) in *.
  assert (Hgap_lo : ∀ b z, (∀ p, op = Some p → p < b) →
            alive (heap w) c z → b ≤ z → z < l → False).
  { intros b z Hb Hz Hbz Hzl. destruct op as [p|]; simpl in *.
    - destruct Hp as (_ & _ & Hmax). specialize (Hmax z Hz Hzl).
      specialize (Hb p eq_refl). lia.
    - by eapply Hp. }
  assert (Hgap_hi : ∀ b z, (∀ n, on = Some n → b ≤ n) →
            alive (heap w) c z → z < b → l < z → False).
  { intros b z Hb Hz Hbz Hzl. destruct on as [n|]; simpl in *.
    - destruct Hn as (_ & _ & Hmin). specialize (Hmin z Hz Hzl).
      specialize (Hb n eq_refl). lia.
    - eapply Hn; [exact Hz|lia]. }
  destruct (decide (c' = c)) as [->|Hne].
  - rewrite HC in HC'. injection HC' as <-.
    eexists. split.
    { rewrite Hcolls. apply list_lookup_insert_eq. by eapply lookup_lt_Some. }
    simpl. rewrite Hlen.
    split; [|split].
    + eapply least_ext; [intros z _; symmetry; apply Halive|].
      destruct op as [p|] eqn:Eop; simpl in Hp.
      * apply least_remove_other; [done|]. intros Hfl. rewrite Hfl in Hf.
        destruct Hf as (_ & _ & Hmin). destruct Hp as (Hp1 & Hp2 & _).
        specialize (Hmin p Hp1). lia.
      * apply least_remove_skip; [done| |lia].
        intros z Hz _ Hzl. by eapply Hp.
    + eapply greatest_ext; [intros z _; symmetry; apply Halive|].
      destruct on as [n|] eqn:Eon; simpl in Hn.
      * apply greatest_remove_other; [done|]. intros Hfl. rewrite Hfl in Hlast.
        destruct Hlast as (_ & _ & Hmax). destruct Hn as (Hn1 & Hn2 & _).
        specialize (Hmax n Hn1 (Hlt _ _ Hn1)). lia.
      * apply greatest_remove_skip; [done| |by eapply Hlt].
        intros z Hz _ Hzl. eapply Hn; [exact Hz|lia].
    + intros z [Hz Hzl]%Halive. destruct (Hlinks z Hz) as [Hzn Hzp].
      rewrite Hnxt, Hprv. split.
      * eapply least_ext; [intros y _; symmetry; apply Halive|].
        destruct (decide (op = Some z)) as [Hopz|Hopz].
        -- rewrite Hopz in Hp. destruct Hp as (_ & Hzl' & _).
           apply least_remove_skip; [done| |lia].
           intros y Hy Hzy Hyl. eapply (Hgap_lo (S z)); try done.
           intros p Hpz. simplify_eq. lia.
        -- apply least_remove_other; [done|]. intros Hzl'. apply Hopz.
           rewrite Hzl' in Hzn. by eapply least_greatest_adjacent.
      * eapply greatest_ext; [intros y _; symmetry; apply Halive|].
        destruct (decide (on = Some z)) as [Honz|Honz].
        -- rewrite Honz in Hn. destruct Hn as (_ & Hzl' & _).
           apply greatest_remove_skip; [done| |lia].
           intros y Hy Hzy Hyl. eapply (Hgap_hi z); try done.
           intros n Hnz. simplify_eq. lia.
        -- apply greatest_remove_other; [done|]. intros Hzl'. apply Honz.
           rewrite Hzl' in Hzp. by eapply greatest_least_adjacent.
  - exists C'. split.
    { rewrite Hcolls. by rewrite list_lookup_insert_ne. }
    rewrite Hlen.
    assert (HA : ∀ z, alive (heap w') c' z ↔ alive (heap w) c' z).
    { intros z. rewrite Halive. split; [by intros []|]. intros Hz. split; [done|].
      intros ->. destruct Hz as (x & Hx & Hxs & _). simplify_eq. }
    split; [by eapply least_ext; [|exact Hf']|].
    split; [by eapply greatest_ext; [|exact Hlast']|].
    intros z Hz%HA. destruct (Hlinks' z Hz) as [Hzn Hzp].
    rewrite Hnxt, Hprv.
    assert (Hother : ∀ y, alive (heap w) c y → y ≠ z).
    { intros y (x & Hx & Hxs & _) ->. destruct Hz as (x' & Hx' & Hxs' & _).
      simplify_eq. }
    rewrite decide_False; [rewrite decide_False|].
    + split; [by eapply least_ext; [|exact Hzn]|by eapply greatest_ext; [|exact Hzp]].
    + intros Honz. rewrite Honz in Hn. destruct Hn as (Hn & _). by eapply Hother.
    + intros Hopz. rewrite Hopz in Hp. destruct Hp as (Hp & _). by eapply Hother.
Qed.

Lemma filter_seq_none (P : nat → Prop) `{∀ x, Decision (P x)} b n :
  (∀ z, b ≤ z → z < b + n → ¬ P z) → filter P (seq b n) = [].
Proof.
  revert b. induction n as [|n IH]; intros b HP; [done|]. simpl.
  rewrite filter_cons_False by (apply HP; lia). apply IH. intros z ??. apply HP; lia.
Qed.

Lemma filter_seq_split (P : nat → Prop) `{∀ x, Decision (P x)} b n y :
  b ≤ y → y < b + n → P y → (∀ z, b ≤ z → z < y → ¬ P z) →
  filter P (seq b n) = y :: filter P (seq (S y) (b + n - S y)).
Proof.
  intros Hby Hyn Hy Hgap.
  replace n with ((y - b) + S (b + n - S y)) at 1 by lia.
  rewrite seq_app, filter_app.
  rewrite filter_seq_none by (intros; apply Hgap; lia). simpl.
  replace (b + (y - b)) with y by lia. by rewrite filter_cons_True.
Qed.

Lemma filter_seq_split_last (P : nat → Prop) `{∀ x, Decision (P x)} b y :
  y < b → P y → (∀ z, y < z → z < b → ¬ P z) →
  filter P (seq 0 b) = filter P (seq 0 y) ++ [y].
Proof.
  intros Hyb Hy Hgap.
  replace b with (y + S (b - S y)) at 1 by lia.
  rewrite seq_app, filter_app. f_equal. simpl.
  rewrite filter_cons_True by done. f_equal.
  apply filter_seq_none. intros; apply Hgap; lia.
Qed.

Lemma get_loop_live h c k b o :
  (∀ l, alive h c l → least (alive h c) (S l) (nxt h l)) →
  least (alive h c) b o → length h - b ≤ k →
  get_loop k h o = Some (filter (alive h c) (seq b (length h - b))).
Proof.
  intros Hlinks. revert b o.
  induction k as [|k IH]; intros b o Ho Hk.
  - destruct o as [y|]; simpl in *.
    + destruct Ho as (Hy & Hb & _). apply alive_lt in Hy. lia.
    + rewrite filter_seq_none; [done|]. intros z Hbz _ Hz. by eapply Ho.
  - destruct o as [y|]; simpl in *.
    + destruct Ho as (Hy & Hb & Hmin).
      pose proof (alive_lt _ _ _ Hy) as Hlt.
      destruct (Hy) as (cell & Hcell & _). rewrite Hcell. simpl.
      specialize (IH (S y) (nxt h y) (Hlinks y Hy)).
      unfold nxt in IH. rewrite Hcell in IH. simpl in IH.
      rewrite IH by lia. simpl.
      rewrite (filter_seq_split _ b _ y); [|lia|lia|done|].
      * by replace (b + (length h - b) - S y) with (length h - S y) by lia.
      * intros z Hbz Hzy Hz. specialize (Hmin z Hz Hbz). lia.
    + rewrite filter_seq_none; [done|]. intros z Hbz _ Hz. by eapply Ho.
Qed.

Lemma back_loop_live h c k b o :
  (∀ l, alive h c l → greatest (alive h c) l (prv h l)) →
  greatest (alive h c) b o → b ≤ k →
  back_loop k h o = Some (reverse (filter (alive h c) (seq 0 b))).
Proof.
  intros Hlinks. revert b o.
  induction k as [|k IH]; intros b o Ho Hk.
  - destruct o as [y|]; simpl in *.
    + destruct Ho as (Hy & Hb & _). lia.
    + rewrite filter_seq_none; [done|]. intros z _ Hbz Hz. by eapply Ho.
  - destruct o as [y|]; simpl in *.
    + destruct Ho as (Hy & Hb & Hmax).
      destruct (Hy) as (cell & Hcell & _). rewrite Hcell. simpl.
      specialize (IH y (prv h y) (Hlinks y Hy)).
      unfold prv in IH. rewrite Hcell in IH. simpl in IH.
      rewrite IH by lia. simpl.
      rewrite (filter_seq_split_last _ b y); [|done|done|].
      * by rewrite reverse_snoc.
      * intros z Hyz Hzb Hz. specialize (Hmax z Hz Hzb). lia.
    + rewrite filter_seq_none; [done|]. intros z _ Hbz Hz. by eapply Ho.
Qed.

Lemma get_live w c : reg_ok w c → get c w = Some (live w c).
Proof.
  intros (C & HC & Hf & _ & Hlinks). unfold get, live. rewrite HC. simpl.
  rewrite (get_loop_live _ c _ 0); [by rewrite Nat.sub_0_r| |done|lia].
  intros l Hl. by apply Hlinks.
Qed.

Lemma get_backwards_live w c :
  reg_ok w c → get_backwards c w = Some (reverse (live w c)).
Proof.
  intros (C & HC & _ & Hl & Hlinks). unfold get_backwards, live. rewrite HC. simpl.
  apply back_loop_live; [|done|lia]. intros l Hal. by apply Hlinks.
Qed.

Lemma elem_of_live w c l : l ∈ live w c ↔ alive (heap w) c l.
Proof.
  unfold live. rewrite list_elem_of_filter, elem_of_seq.
  split; [by intros []|]. intros Hl. split; [done|]. apply alive_lt in Hl. lia.
Qed.

Lemma NoDup_live w c : NoDup (live w c).
Proof. apply NoDup_filter, NoDup_seq. Qed.

Lemma unsubscribe_live_effect l w cell :
  heap w !! l = Some cell → isSubscribed cell = true → reg_ok w (scope cell) →
  ∃ w', unsubscribe l w = Some w' ∧
    length (heap w') = length (heap w) ∧ subs w' = subs w ∧ trace w' = trace w ∧
    length (colls w') = length (colls w) ∧
    (∀ c' z, alive (heap w') c' z ↔ alive (heap w) c' z ∧ z ≠ l) ∧
    (∀ z, nxt (heap w') z =
            if decide (prv (heap w) l = Some z) then nxt (heap w) l else nxt (heap w) z) ∧
    (∀ z, cb_of (heap w') z = cb_of (heap w) z) ∧
    (∀ z, scope_of (heap w') z = scope_of (heap w) z).
Proof.
  intros Hl Hflag (C & HC & Hf & Hlast & Hlinks).
  assert (Hal : alive (heap w) (scope cell) l) by (exists cell; eauto).
  destruct (Hlinks l Hal) as [Hn Hp].
  destruct (unsubscribe_effect l w cell C) as
    (w' & Hw' & Hlen & Hsubs & Htr & Hcolls & Halive & Hnxt & _ & Hcb & Hsc); try done.
  - destruct (first C); [done|]. exfalso. eapply Hf; [exact Hal|lia].
  - intros n Hnl. rewrite Hnl in Hn. destruct Hn as (Hn & _). by eapply alive_lt.
  - intros p Hpl. rewrite Hpl in Hp. destruct Hp as (Hp & _). by eapply alive_lt.
  - exists w'. rewrite Hcolls, length_insert. eauto 10.
Qed.

Lemma reg_ok_dll_invariant w c : reg_ok w c → dll_invariant w c.
Proof.
  intros Hok. pose proof Hok as (C & HC & Hf & Hl & Hlinks).
  exists C, (live w c). split; [done|]. split; [apply NoDup_live|].
  split; [by apply get_live|].
  assert (Hlt : ∀ z, alive (heap w) c z → z < length (heap w))
    by (intros; by eapply alive_lt).
  split; [|split; [by apply get_backwards_live|split]].
  - unfold live. destruct (last C) as [y|]; simpl in *.
    + destruct Hl as (Hy & Hyl & Hmax).
      rewrite (filter_seq_split_last _ _ y); [by rewrite last_snoc|done|done|].
      intros z Hyz Hzl Hz. specialize (Hmax z Hz Hzl). lia.
    + rewrite filter_seq_none; [done|]. intros z _ Hz Hal. by eapply Hl.
  - unfold live. destruct (first C) as [y|]; simpl in *.
    + destruct Hf as (Hy & _ & Hmin).
      rewrite (filter_seq_split _ 0 _ y); [done|lia|by apply Hlt|done|].
      intros z _ Hzy Hz. specialize (Hmin z Hz). lia.
    + rewrite filter_seq_none; [done|]. intros z _ Hz Hal. eapply Hf; [done|lia].
  - intros l Hal%elem_of_live. destruct (Hlinks l Hal) as [Hn Hp]. split.
    + destruct (prv (heap w) l) as [p|] eqn:Hpl; simpl in Hp.
      * right. exists p. split; [done|]. pose proof Hp as (Hp1 & _).
        destruct (Hlinks p Hp1) as [Hpn _].
        by apply (greatest_least_adjacent (alive (heap w) c) p l).
      * left. split; [done|]. destruct (first C) as [f|]; simpl in Hf.
        -- destruct Hf as (Hf1 & _ & Hf2). f_equal.
           specialize (Hf2 l Hal). destruct (decide (f = l)); [done|].
           exfalso. eapply Hp; [exact Hf1|lia].
        -- exfalso. eapply Hf; [exact Hal|lia].
    + destruct (nxt (heap w) l) as [n|] eqn:Hnl; simpl in Hn.
      * right. exists n. split; [done|]. pose proof Hn as (Hn1 & _).
        destruct (Hlinks n Hn1) as [_ Hnp].
        by apply (least_greatest_adjacent (alive (heap w) c) n l).
      * left. split; [done|]. destruct (last C) as [f|]; simpl in Hl.
        -- destruct Hl as (Hl1 & Hl2 & Hl3). f_equal.
           specialize (Hl3 l Hal (Hlt _ Hal)). destruct (decide (f = l)); [done|].
           exfalso. eapply Hn; [exact Hl1|lia].
        -- exfalso. eapply Hl; [exact Hal|by apply Hlt].
Qed.

Lemma subscribe_live_effect c cb w :
  reg_ok w c →
  let l := length (heap w) in
  ∃ w', subscribe c cb w = Some (Unsubscribe l, w') ∧
    length (heap w') = S l ∧ subs w' = subs w ∧ trace w' = trace w ∧
    length (colls w') = length (colls w) ∧
    (∀ c' z, alive (heap w') c' z ↔ alive (heap w) c' z ∨ (c' = c ∧ z = l)) ∧
    (∀ z, cb_of (heap w') z = if decide (z = l) then Some cb else cb_of (heap w) z) ∧
    (∀ z, scope_of (heap w') z =
            if decide (z = l) then Some c else scope_of (heap w) z).
Proof.
  intros (C & HC & Hf & Hl & Hlinks) l.
  destruct (subscribe_effect c cb w C HC) as
    (w' & Hsub & Hlen & Hsubs & Htr & Hcolls & Halive & _ & _ & Hcb & Hsc).
  { intros p Hp. rewrite Hp in Hl. destruct Hl as (Hl & _). by eapply alive_lt. }
  exists w'. rewrite Hcolls, length_insert. eauto 10.
Qed.

Lemma filter_seq_shift (P Q : nat → Prop)
    `{∀ x, Decision (P x)} `{∀ x, Decision (Q x)} b n :
  (∀ k, k < n → (P (b + k) ↔ Q k)) →
  filter P (seq b n) = (λ k, b + k) <$> filter Q (seq 0 n).
Proof.
  induction n as [|n IH]; intros HPQ; [done|].
  rewrite !seq_S, !filter_app, fmap_app, IH by (intros; apply HPQ; lia).
  f_equal. simpl. specialize (HPQ n (Nat.lt_succ_diag_r n)).
  destruct (decide (Q n)) as [HQ|HQ].
  - rewrite !filter_cons_True by (done || by apply HPQ). done.
  - rewrite !filter_cons_False by (done || by rewrite HPQ). done.
Qed.

(** ** Runs of subscribe and unsubscribe calls *)

Section Run.

Context (b : nat) (c : cid).

Lemma run_inv_subscribe cbs cs st cb :
  run_inv b c cbs cs st →
  ∃ st', step c (OpSubscribe cb) st = Some st' ∧ run_inv b c (cbs ++ [cb]) cs st'.
Proof.
  destruct st as [w us]. intros (Hok & Hus & Hlen & Hal & Hsc & Hcs & Hcb).
  simpl in *.
  destruct (subscribe_live_effect c cb w Hok) as
    (w' & Hsub & Hlen' & _ & _ & _ & Halive & Hcb' & Hsc').
  rewrite Hsub. simpl. eexists; split; [done|].
  assert (Hn : length (cbs ++ [cb]) = S (length cbs))
    by (rewrite length_app; simpl; lia).
  unfold run_inv. simpl. rewrite Hn.
  split; [by eapply reg_ok_subscribe|].
  split; [by rewrite seq_S, fmap_app, Hus, Hlen|].
  split; [lia|].
  split; [|split; [|split]].
  - intros z. rewrite Halive, Hal. split.
    + intros [(?&?&?)|[_ ->]]; [split; [done|split; [lia|done]]|].
      split; [lia|]. split; [lia|]. intros Hin%Hcs. lia.
    + intros (?&?&?). destruct (decide (z = length (heap w))); [by right|].
      left. split; [done|]. split; [lia|done].
  - intros z ??. rewrite Hsc'. destruct (decide _); [done|]. apply Hsc; lia.
  - intros k Hk%Hcs. lia.
  - intros k f Hk. rewrite Hcb'.
    destruct (decide (k = length cbs)) as [->|Hne].
    + rewrite decide_True by lia.
      rewrite lookup_app_r, Nat.sub_diag in Hk by lia. by simplify_eq.
    + rewrite decide_False.
      * apply Hcb. rewrite lookup_app_l in Hk; [done|].
        apply lookup_lt_Some in Hk. lia.
      * apply lookup_lt_Some in Hk. lia.
Qed.

Lemma run_inv_unsubscribe cbs cs st k :
  run_inv b c cbs cs st →
  ∃ st', step c (OpUnsubscribe k) st = Some st' ∧
    run_inv b c cbs (if decide (k < length cbs) then cs ++ [k] else cs) st'.
Proof.
  destruct st as [w us]. intros (Hok & Hus & Hlen & Hal & Hsc & Hcs & Hcb).
  simpl in *. destruct (decide (k < length cbs)) as [Hk|Hk].
  - assert (Hu : us !! k = Some (Unsubscribe (b + k))).
    { rewrite Hus, list_lookup_fmap, lookup_seq_lt by done. done. }
    rewrite Hu. simpl.
    destruct (lookup_lt_is_Some_2 (heap w) (b + k)) as [cell Hcell]; [lia|].
    assert (Hscope : scope cell = c).
    { specialize (Hsc (b + k)). unfold scope_of in Hsc. rewrite Hcell in Hsc.
      simpl in Hsc. assert (Some (scope cell) = Some c) by (apply Hsc; lia).
      by simplify_eq. }
    destruct (isSubscribed cell) eqn:Hflag.
    + rewrite <- Hscope in Hok.
      destruct (unsubscribe_live_effect _ _ _ Hcell Hflag Hok) as
        (w' & Hun & Hlen' & _ & _ & _ & Halive & _ & Hcb' & Hsc').
      rewrite Hun. simpl. eexists; split; [done|].
      unfold run_inv. simpl. rewrite Hlen'.
      split; [eapply reg_ok_unsubscribe; [done|done| |done]; by rewrite <- Hscope|].
      split; [done|]. split; [done|].
      split; [|split; [|split]].
      * intros z. rewrite Halive, Hal, elem_of_app, list_elem_of_singleton.
        split; [intros ((?&?&?)&?)|intros (?&?&?)].
        -- split; [done|]. split; [done|]. intros [|]; [done|lia].
        -- split; [split; [done|split; [done|tauto]]|]. intros ->.
           assert (b + k - b = k) by lia. tauto.
      * intros z ??. rewrite Hsc'. by apply Hsc.
      * intros j [Hj|Hj%list_elem_of_singleton]%elem_of_app;
          [by apply Hcs|by subst].
      * intros j f Hj. rewrite Hcb'. by apply Hcb.
    + rewrite (unsubscribe_dead _ _ _ Hcell Hflag). simpl.
      eexists; split; [done|]. unfold run_inv. simpl.
      split; [done|]. split; [done|]. split; [done|].
      assert (Hkcs : k ∈ cs).
      { destruct (decide (k ∈ cs)) as [|Hnot]; [done|]. exfalso.
        assert (Hz : alive (heap w) c (b + k)).
        { apply Hal. split; [lia|]. split; [lia|].
          by replace (b + k - b) with k by lia. }
        destruct Hz as (x & Hx & _ & Hfx). simplify_eq. congruence. }
      split; [|split; [done|split; [|done]]].
      * intros z. rewrite Hal, elem_of_app, list_elem_of_singleton.
        split; [intros (?&?&?)|intros (?&?&?)].
        -- split; [done|]. split; [done|]. intros [|]; [done|by subst].
        -- split; [done|]. split; [done|]. tauto.
      * intros j [Hj|Hj%list_elem_of_singleton]%elem_of_app;
          [by apply Hcs|by subst].
  - rewrite lookup_ge_None_2; [by eexists|].
    rewrite Hus, length_fmap, length_seq. lia.
Qed.

Lemma run_preserves ops cbs cs st :
  run_inv b c cbs cs st →
  ∃ st', run c ops st = Some st' ∧
    run_inv b c (cbs ++ subscribed ops) (cs ++ called (length cbs) ops) st'.
Proof.
  revert cbs cs st. induction ops as [|op ops IH]; intros cbs cs st Hinv.
  - exists st. split; [done|]. simpl. by rewrite !app_nil_r.
  - destruct op as [cb|k].
    + destruct (run_inv_subscribe cbs cs st cb Hinv) as (st1 & Hstep & Hinv1).
      destruct (IH _ _ _ Hinv1) as (st' & Hrun & Hinv').
      exists st'. cbn [run]. rewrite Hstep. simpl. split; [done|].
      rewrite length_app, Nat.add_1_r, <- app_assoc in Hinv'. done.
    + destruct (run_inv_unsubscribe cbs cs st k Hinv) as (st1 & Hstep & Hinv1).
      destruct (IH _ _ _ Hinv1) as (st' & Hrun & Hinv').
      exists st'. cbn [run]. rewrite Hstep. simpl. split; [done|].
      destruct (decide (k < length cbs)); [|done].
      by rewrite <- app_assoc in Hinv'.
Qed.

End Run.

Lemma run_inv_fresh w0 :
  scoped w0 →
  run_inv (length (heap w0)) (createListenerCollection w0).1 [] []
          ((createListenerCollection w0).2, []).
Proof.
  intros Hsc. unfold run_inv. simpl.
  split; [by apply (reg_ok_fresh w0)|].
  split; [done|]. split; [lia|].
  split; [|split; [intros; lia|split; [by intros k Hk%elem_of_nil|done]]].
  intros z. split; [|lia]. intros (x & Hx & Hxs & _). apply Hsc in Hx. lia.
Qed.

(** C3.  For every sequence of [subscribe]/[unsubscribe] calls on a freshly
    created listener registry, the calls all return, and [get()] afterwards
    returns exactly the handles whose [unsubscribe] closure was not called,
    in their original registration order.  (The [k]-th [subscribe] returns
    the closure of the handle at address [length (heap w0) + k], which holds
    the [k]-th registered callback.) *)
Theorem get_returns_still_subscribed (w0 : World) (ops : list Op) :
  scoped w0 →
  ∃ w us,
    run (createListenerCollection w0).1 ops ((createListenerCollection w0).2, [])
      = Some (w, us) ∧
    us = (λ k, Unsubscribe (length (heap w0) + k)) <$> seq 0 (length (subscribed ops)) ∧
    (∀ k cb, subscribed ops !! k = Some cb →
       cb_of (heap w) (length (heap w0) + k) = Some cb) ∧
    get (createListenerCollection w0).1 w
      = Some ((λ k, length (heap w0) + k) <$> still_subscribed ops).
Proof.
  intros Hsc. set (b := length (heap w0)). set (c := (createListenerCollection w0).1).
  destruct (run_preserves b c ops [] [] _ (run_inv_fresh w0 Hsc))
    as ([w us] & Hrun & Hok & Hus & Hlen & Hal & _ & _ & Hcb).
  simpl in *. exists w, us. split; [done|]. split; [done|]. split; [done|].
  rewrite (get_live _ _ Hok). f_equal. unfold live, still_subscribed.
  rewrite Hlen, seq_app, filter_app. simpl.
  rewrite filter_seq_none; [simpl|].
  - apply filter_seq_shift. intros k Hk. rewrite Hal.
    replace (b + k - b) with k by lia. split; [by intros (_ & _ & ?)|].
    intros ?. split; [lia|]. split; [lia|done].
  - intros z _ Hz Halz. apply Hal in Halz. lia.
Qed.

(** C7.  On a freshly created listener registry, after every sequence of
    [subscribe] and [unsubscribe] calls the doubly-linked-list invariant
    holds, and every further [subscribe] or [unsubscribe] call returns and
    leaves it holding. *)
Theorem subscribe_unsubscribe_preserve_dll_invariant (w0 : World) (ops : list Op) :
  scoped w0 →
  ∃ st,
    run (createListenerCollection w0).1 ops ((createListenerCollection w0).2, [])
      = Some st ∧
    dll_invariant st.1 (createListenerCollection w0).1 ∧
    ∀ op, ∃ st', step (createListenerCollection w0).1 op st = Some st' ∧
      dll_invariant st'.1 (createListenerCollection w0).1.
Proof.
  intros Hsc. set (b := length (heap w0)). set (c := (createListenerCollection w0).1).
  destruct (run_preserves b c ops [] [] _ (run_inv_fresh w0 Hsc))
    as (st & Hrun & Hinv).
  exists st. split; [done|]. split; [apply reg_ok_dll_invariant, Hinv|].
  intros [cb|k].
  - destruct (run_inv_subscribe b c _ _ st cb Hinv) as (st' & Hstep & Hinv').
    exists st'. split; [done|]. apply reg_ok_dll_invariant, Hinv'.
  - destruct (run_inv_unsubscribe b c _ _ st k Hinv) as (st' & Hstep & Hinv').
    exists st'. split; [done|]. apply reg_ok_dll_invariant, Hinv'.
Qed.

Lemma scoped_init : scoped init.
Proof. intros l cell Hl. simpl in Hl. by rewrite lookup_nil in Hl. Qed.

Lemma flag_of_relink h p cp f z :
  h !! p = Some cp → flag_of (<[p := upd_obj f cp]> h) z = flag_of h z.
Proof.
  intros Hp. unfold flag_of. rewrite (lookup_relink _ _ _ _ _ Hp).
  destruct (decide (z = p)) as [->|]; [|done]. by rewrite Hp.
Qed.

Lemma flag_of_unflag h l cell z :
  h !! l = Some cell →
  flag_of (<[l := set_isSubscribed false cell]> h) z =
    if decide (z = l) then Some false else flag_of h z.
Proof.
  intros Hl. unfold flag_of. rewrite (lookup_unflag _ _ _ _ Hl).
  by destruct (decide (z = l)).
Qed.

Lemma flag_of_snoc h x z :
  flag_of (h ++ [x]) z =
    if decide (z = length h) then Some (isSubscribed x) else flag_of h z.
Proof. unfold flag_of. rewrite lookup_snoc. by destruct (decide _). Qed.

Lemma unsubscribe_flag_false l w cell :
  heap w !! l = Some cell → isSubscribed cell = false → unsubscribe l w = Some w.
Proof. apply unsubscribe_dead. Qed.

(** A call of [unsubscribe] that returns either changed nothing or has set
    its [isSubscribed] to false; flags of other closures are untouched. *)
Lemma unsubscribe_flags l w w1 :
  unsubscribe l w = Some w1 →
  (w1 = w ∨ flag_of (heap w1) l = Some false) ∧
  (∀ z, z ≠ l → flag_of (heap w1) z = flag_of (heap w) z) ∧
  (∀ z, flag_of (heap w) z = Some false → flag_of (heap w1) z = Some false).
Proof.
  unfold unsubscribe.
  destruct (heap w !! l) as [cell|] eqn:Hl; simpl; [|done].
  destruct (isSubscribed cell) eqn:Hflag; simpl; [|intros; simplify_eq; eauto].
  destruct (colls w !! scope cell) as [C|] eqn:HC; simpl; [|done].
  destruct (first C) as [f0|]; [|intros; simplify_eq; eauto].
  pose proof (lookup_lt_Some _ _ _ Hl) as Hlt.
  rewrite list_lookup_insert_eq by done. simpl.
  set (h1 := <[l := set_isSubscribed false cell]> (heap w)).
  assert (H1 : ∀ z, flag_of h1 z = if decide (z = l) then Some false else flag_of (heap w) z)
    by (intros; by apply flag_of_unflag).
  assert (Hfin : ∀ h', (∀ z, flag_of h' z = flag_of h1 z) →
            (flag_of h' l = Some false) ∧
            (∀ z, z ≠ l → flag_of h' z = flag_of (heap w) z) ∧
            (∀ z, flag_of (heap w) z = Some false → flag_of h' z = Some false)).
  { intros h' Hh'. split; [|split].
    - by rewrite Hh', H1, decide_True.
    - intros z Hz. by rewrite Hh', H1, decide_False.
    - intros z Hz. rewrite Hh', H1. by destruct (decide _). }
  destruct (next (obj cell)) as [n|]; simpl; fold h1.
  - destruct (h1 !! n) as [cn|] eqn:Hn; simpl; [|done]. fold h1.
    set (h2 := <[n := upd_obj (set_prev (prev (obj cell))) cn]> h1).
    assert (H2 : ∀ z, flag_of h2 z = flag_of h1 z)
      by (intros; by apply flag_of_relink).
    destruct (h2 !! l) as [cl2|] eqn:Hl2; simpl; [|done]. fold h1. fold h2.
    destruct (prev (obj cl2)) as [p|]; simpl; fold h1; fold h2.
    + destruct (h2 !! p) as [cp|] eqn:Hp; simpl; [|done].
      intros ?; simplify_eq. simpl.
      destruct (Hfin (<[p := upd_obj (set_next (next (obj cl2))) cp]> h2)) as (?&?&?);
        [|by eauto].
      intros z. by rewrite flag_of_relink, H2.
    + destruct (colls w !! scope cell); simpl; [|done].
      intros ?; simplify_eq. simpl. destruct (Hfin h2 H2) as (?&?&?). eauto.
  - assert (h1 !! l = Some (set_isSubscribed false cell)) as ->
      by (by apply list_lookup_insert_eq).
    simpl. fold h1.
    destruct (prev (obj cell)) as [p|]; simpl; fold h1.
    + destruct (h1 !! p) as [cp|] eqn:Hp; simpl; [|done].
      intros ?; simplify_eq. simpl.
      destruct (Hfin (<[p := upd_obj (set_next (next (obj cell))) cp]> h1)) as (?&?&?);
        [|by eauto].
      intros z. by rewrite flag_of_relink.
    + rewrite list_lookup_insert_eq by (by eapply lookup_lt_Some). simpl.
      intros ?; simplify_eq. simpl. destruct (Hfin h1) as (?&?&?); eauto.
Qed.

Lemma subscribe_flags c cb w u w' :
  subscribe c cb w = Some (u, w') →
  ∀ z, flag_of (heap w) z = Some false → flag_of (heap w') z = Some false.
Proof.
  unfold subscribe. intros H z Hz.
  assert (Hzlt : z < length (heap w)).
  { unfold flag_of in Hz. destruct (heap w !! z) eqn:E; [|done].
    by eapply lookup_lt_Some. }
  apply bind_Some in H as (C & HC & H). simpl in H.
  rewrite lookup_snoc, decide_True in H by done. simpl in H.
  set (h1 := heap w ++ [mkCell (mkListener cb None (last C)) c true]) in *.
  assert (H1 : flag_of h1 z = Some false).
  { unfold h1. rewrite flag_of_snoc, decide_False by lia. done. }
  destruct (last C) as [p|]; simpl in H.
  - apply bind_Some in H as (w2 & H2 & H). simplify_eq.
    apply bind_Some in H2 as (cp & Hcp & H2). simplify_eq. simpl.
    by rewrite flag_of_relink.
  - apply bind_Some in H as (w2 & H2 & H). simplify_eq.
    apply bind_Some in H2 as (C1 & HC1 & H2). by simplify_eq.
Qed.

(** ** The flag of a handle, once false, stays false *)

(** Properties of the heap that [subscribe] and [unsubscribe] preserve are
    preserved by every call. *)
Section HeapStable.

Context (P : list Cell → Prop).

Context (Psub : ∀ c cb w u w', subscribe c cb w = Some (u, w') → P (heap w) → P (heap w')).

Context (Pun : ∀ l w w', unsubscribe l w = Some w' → P (heap w) → P (heap w')).

Lemma addNestedSub_stable n s g w u w' :
  addNestedSub n s g w = Some (u, w') → P (heap w) → P (heap w').
Proof using Psub.
  revert s g w u w'. induction n as [|n IH]; intros s g w u w' H HP; [done|].
  simpl in H. apply bind_Some in H as (w1 & H1 & H).
  apply bind_Some in H as (S1 & HS1 & H).
  assert (HP1 : P (heap w1)).
  { unfold trySubscribe_with in H1.
    apply bind_Some in H1 as (S0 & HS0 & H1). simpl in H1.
    destruct (s_unsubscribe S0); [by simplify_eq|].
    apply bind_Some in H1 as ([u1 w2] & Hup & H1). simpl in H1.
    apply bind_Some in H1 as (S2 & HS2 & H1). simpl in H1.
    apply bind_Some in H1 as (S3 & HS3 & H1). simplify_eq. simpl.
    destruct (parentSub S0) as [p|].
    - by eapply IH.
    - unfold store_subscribe in Hup. by eapply Psub in Hup. }
  destruct (s_listeners S1) as [|c]; simpl in H; [done|]. by eapply Psub.
Qed.

Lemma walk_stable (callf : VoidFunc → World → option World) k o w w' :
  (∀ f w w', callf f w = Some w' → P (heap w) → P (heap w')) →
  walk callf k o w = Some w' → P (heap w) → P (heap w').
Proof.
  intros Hcall. revert o w. induction k as [|k IH]; intros [l|] w H HP;
    simpl in H; simplify_eq; try done.
  apply bind_Some in H as (cell & Hcell & H).
  apply bind_Some in H as (w1 & H1 & H).
  apply bind_Some in H as (cell' & Hcell' & H).
  eapply IH; [done|]. by eapply Hcall in H1.
Qed.

Lemma call_stable n f w w' :
  call n f w = Some w' → P (heap w) → P (heap w').
Proof using Psub Pun.
  revert f w w'. induction n as [|n IH]; intros f w w' H HP; [done|].
  destruct f; simpl in H.
  - by simplify_eq.
  - by eapply Pun.
  - apply fmap_Some in H as ([u w1] & H & ->). by eapply Psub.
  - unfold notify_with, batch in H. apply bind_Some in H as (C & HC & H).
    by eapply walk_stable.
  - unfold clear in H. apply bind_Some in H as (C & HC & H). by simplify_eq.
  - apply fmap_Some in H as ([u w1] & H & ->). by eapply addNestedSub_stable.
  - unfold notifyNestedSubs_with in H. apply bind_Some in H as (S0 & HS & H).
    destruct (s_listeners S0); simpl in H; [by simplify_eq|].
    unfold notify_with, batch in H. apply bind_Some in H as (C & HC & H).
    by eapply walk_stable.
  - unfold handleChangeWrapper_with in H. apply bind_Some in H as (S0 & HS & H).
    destruct (onStateChange S0); [by eapply IH|by simplify_eq].
  - unfold trySubscribe, trySubscribe_with in H.
    apply bind_Some in H as (S0 & HS0 & H). simpl in H.
    destruct (s_unsubscribe S0); [by simplify_eq|].
    apply bind_Some in H as ([u1 w2] & Hup & H). simpl in H.
    apply bind_Some in H as (S2 & HS2 & H). simpl in H.
    apply bind_Some in H as (S3 & HS3 & H). simplify_eq. simpl.
    destruct (parentSub S0) as [p|].
    + by eapply addNestedSub_stable.
    + unfold store_subscribe in Hup. by eapply Psub in Hup.
  - unfold tryUnsubscribe_with in H.
    apply bind_Some in H as (S0 & HS0 & H).
    destruct (s_unsubscribe S0) as [u|]; [|by simplify_eq].
    apply bind_Some in H as (w1 & H1 & H). simpl in H.
    apply bind_Some in H as (S1 & HS1 & H). simpl in H.
    apply bind_Some in H as (S2 & HS2 & H).
    apply bind_Some in H as (w3 & H3 & H).
    apply bind_Some in H as (S3 & HS3 & H). simplify_eq. simpl.
    destruct (s_listeners S2); simpl in H3; [done|].
    unfold clear in H3. apply bind_Some in H3 as (C & HC & H3). simplify_eq.
    simpl. by eapply IH.
  - apply bind_Some in H as (w1 & H1 & H). eapply IH; [done|]. by eapply IH.
Qed.

End HeapStable.

(** C5.  Calling an [unsubscribe] closure a second time is a no-op: the
    second call returns the world left by the first one unchanged, and so
    does any number of further calls.  Once the closure has given up its
    subscription ([isSubscribed] is false, as after every call that
    unlinked the handle), it stays a no-op at any later time, whatever was
    called in between. *)
Theorem unsubscribe_idempotent (l : loc) (w w1 : World) :
  unsubscribe l w = Some w1 →
  unsubscribe l w1 = Some w1 ∧
  (∀ k, unsubscribe_all (replicate k l) w1 = Some w1) ∧
  (flag_of (heap w1) l = Some false →
   ∀ n f w2, call n f w1 = Some w2 → unsubscribe l w2 = Some w2).
Proof.
  intros H1.
  assert (Hdead : ∀ w2, flag_of (heap w2) l = Some false → unsubscribe l w2 = Some w2).
  { intros w2 Hf. unfold flag_of in Hf.
    destruct (heap w2 !! l) as [cell|] eqn:Hl; [|done]. simpl in Hf.
    apply (unsubscribe_dead _ _ cell); [done|congruence]. }
  assert (H2 : unsubscribe l w1 = Some w1).
  { destruct (unsubscribe_flags _ _ _ H1) as ([->|Hf] & _); [done|by apply Hdead]. }
  split; [exact H2|]. split.
  - induction k as [|k IH]; [done|]. simpl. rewrite H2. exact IH.
  - intros Hf n f w2 Hcall. apply Hdead.
    eapply (call_stable (λ h, flag_of h l = Some false)); [| |done|done].
    + intros. by eapply subscribe_flags.
    + intros l0 w0 w0' H0 ?. by apply (unsubscribe_flags _ _ _ H0).
Qed.

Lemma unsubscribe_empty l w cell C :
  heap w !! l = Some cell → colls w !! scope cell = Some C → first C = None →
  unsubscribe l w = Some w.
Proof.
  intros Hl HC Hf. unfold unsubscribe. rewrite Hl. simpl.
  destruct (isSubscribed cell); simpl; [|done]. rewrite HC. simpl. by rewrite Hf.
Qed.

(** C4, as the code has it.  After [clear()], every [unsubscribe] closure
    that the registry returned before the clear is a no-op: it returns and
    leaves the whole world unchanged, whatever [unsubscribe] calls follow
    the clear, as long as nothing has been subscribed to the registry
    since. *)
Theorem unsubscribe_after_clear_noop (c : cid) (w w1 : World) (ls : list loc) :
  clear c w = Some w1 →
  Forall (λ l, scope_of (heap w) l = Some c) ls →
  unsubscribe_all ls w1 = Some w1.
Proof.
  intros Hclear Hls. rewrite Forall_forall in Hls. unfold clear in Hclear.
  apply bind_Some in Hclear as (C & HC & Hw1). simplify_eq.
  induction ls as [|l ls IH]; [done|]. simpl.
  assert (Hl : scope_of (heap w) l = Some c) by (apply Hls; left).
  unfold scope_of in Hl. destruct (heap w !! l) as [cell|] eqn:Hcell; [|done].
  simpl in Hl. simplify_eq.
  rewrite (unsubscribe_empty l _ cell (mkCollection None None)); try done.
  - simpl. apply IH. intros l' Hl'. apply Hls. by right.
  - simpl. apply list_lookup_insert_eq. by eapply lookup_lt_Some.
Qed.

(** C4 as stated fails once a [subscribe] follows the [clear()]: the stale
    closure of the handle that was last at the time of the clear passes the
    [first === null] guard and overwrites [first]/[last], here dropping the
    newly registered listener. *)
Lemma stale_unsubscribe_after_clear_and_resubscribe :
  ∃ u w1 w2 w3 w4,
    subscribe 0 (Mark 1) (createListenerCollection init).2 = Some (u, w1) ∧
    clear 0 w1 = Some w2 ∧
    snd <$> subscribe 0 (Mark 2) w2 = Some w3 ∧
    call 1 u w3 = Some w4 ∧
    get 0 w3 = Some [1] ∧
    get 0 w4 = Some [] ∧
    colls w3 = [mkCollection (Some 1) (Some 1)] ∧
    colls w4 = [mkCollection None None].
Proof. by_running. Qed.

(** ** Passes whose callbacks unsubscribe *)

Section Pass.

Context (c : cid) (n : nat) (A0 : loc → Prop).

Lemma unsubscribe_pass_inv l w cell w' :
  heap w !! l = Some cell → scope cell = c → isSubscribed cell = true →
  reg_ok w c → pass_inv c A0 w → unsubscribe l w = Some w' → pass_inv c A0 w'.
Proof.
  intros Hl Hsc Hflag Hok [Hsub Hst] Hun.
  pose proof Hok as Hok'. rewrite <- Hsc in Hok'.
  destruct (unsubscribe_live_effect _ _ _ Hl Hflag Hok') as
    (w2 & Hw2 & _ & _ & _ & _ & Halive & Hnxt & _).
  rewrite Hun in Hw2. injection Hw2 as <-.
  destruct Hok as (C & HC & Hf & Hlast & Hlinks).
  assert (Hal : alive (heap w) c l) by (exists cell; eauto).
  destruct (Hlinks l Hal) as [Hn Hp].
  split.
  - intros x [Hx _]%Halive. by apply Hsub.
  - intros y Hy. rewrite Hnxt.
    destruct (decide (prv (heap w) l = Some y)) as [Hpy|Hpy].
    + rewrite Hpy in Hp. destruct Hp as (Hy1 & Hy2 & Hy3).
      destruct (nxt (heap w) l) as [z|]; simpl in *.
      * destruct Hn as (Hz1 & Hz2 & Hz3). split; [by apply Hsub|]. split; [lia|].
        intros x [Hx Hxl]%Halive Hyx.
        destruct (decide (x < l)); [specialize (Hy3 x Hx); lia|].
        apply Hz3; [done|lia].
      * intros x [Hx Hxl]%Halive Hyx.
        destruct (decide (x < l)); [specialize (Hy3 x Hx); lia|].
        eapply Hn; [exact Hx|lia].
    + specialize (Hst y Hy). destruct (nxt (heap w) y) as [z|]; simpl in *.
      * destruct Hst as (?&?&Hmin). split; [done|]. split; [done|].
        intros x [Hx _]%Halive. by apply Hmin.
      * intros x [Hx _]%Halive. by apply Hst.
Qed.

Lemma call_unsubs f : ∀ w ls,
  unsubs f = Some ls → height f ≤ n → reg_ok w c → pass_inv c A0 w →
  (∀ l, l ∈ ls → scope_of (heap w) l = Some c) →
  ∃ w', call n f w = Some w' ∧ reg_ok w' c ∧ pass_inv c A0 w' ∧
    length (heap w') = length (heap w) ∧
    invoked (trace w') = invoked (trace w) ∧
    (∀ z, alive (heap w') c z ↔ alive (heap w) c z ∧ z ∉ ls) ∧
    (∀ z, cb_of (heap w') z = cb_of (heap w) z) ∧
    (∀ z, scope_of (heap w') z = scope_of (heap w) z).
Proof.
  revert n. induction f; intros m w ls Hun Hh Hok Hpass Hsc;
    simpl in Hun; simplify_eq; (destruct m as [|m]; [simpl in Hh; lia|]).
  - (* Mark *)
    exists (log (EvMark k) w). simpl. split; [done|]. split; [done|]. split; [done|].
    split; [done|]. split.
    { unfold invoked. rewrite omap_app. simpl. by rewrite app_nil_r. }
    split; [|done]. intros z. split; [intros ?; split; [done|apply not_elem_of_nil]|by intros []].
  - (* Unsubscribe *)
    simpl.
    assert (Hl : scope_of (heap w) l = Some c) by (apply Hsc; left).
    unfold scope_of in Hl. destruct (heap w !! l) as [cell|] eqn:Hcell; [|done].
    simpl in Hl. injection Hl as Hl.
    destruct (isSubscribed cell) eqn:Hflag.
    + pose proof Hok as Hok'. rewrite <- Hl in Hok'.
      destruct (unsubscribe_live_effect _ _ _ Hcell Hflag Hok') as
        (w' & Hw' & Hlen & _ & Htr & _ & Halive & _ & Hcb & Hscope).
      exists w'. split; [done|].
      split; [by eapply (reg_ok_unsubscribe l w cell c)|].
      split; [by eapply unsubscribe_pass_inv|].
      split; [done|]. split; [by rewrite Htr|].
      split; [|done]. intros z. rewrite Halive, list_elem_of_singleton. done.
    + exists w. rewrite (unsubscribe_dead _ _ _ Hcell Hflag).
      do 5 (split; [done|]). split; [|done].
      intros z. rewrite list_elem_of_singleton. split; [|by intros []].
      intros Hz. split; [done|]. intros ->. destruct Hz as (x & Hx & _ & Hfx).
      simplify_eq. congruence.
  - (* Seq *)
    apply bind_Some in Hun as (a & Ha & Hun).
    apply bind_Some in Hun as (b & Hb & Hun). simplify_eq.
    simpl in Hh.
    destruct (IHf1 m w a Ha) as
      (w1 & H1 & Hok1 & Hpass1 & Hlen1 & Htr1 & Hal1 & Hcb1 & Hsc1);
      [lia|done|done|intros; apply Hsc, elem_of_app; by left|].
    destruct (IHf2 m w1 b Hb) as
      (w2 & H2 & Hok2 & Hpass2 & Hlen2 & Htr2 & Hal2 & Hcb2 & Hsc2);
      [lia|done|done|intros; rewrite Hsc1; apply Hsc, elem_of_app; by right|].
    exists w2. simpl. rewrite H1. simpl. split; [done|].
    split; [done|]. split; [done|]. split; [congruence|]. split; [congruence|].
    split; [|split; intros; congruence].
    intros z. rewrite Hal2, Hal1, elem_of_app. tauto.
Qed.

Lemma cbs_ok_stable w w' :
  (∀ z, cb_of (heap w') z = cb_of (heap w) z) →
  (∀ z, scope_of (heap w') z = scope_of (heap w) z) →
  cbs_ok c n A0 w → cbs_ok c n A0 w'.
Proof.
  intros Hcb Hsc H y Hy. destruct (H y Hy) as (f & ls & ? & ? & ? & Hls).
  exists f, ls. rewrite Hcb. do 3 (split; [done|]). intros l Hl. rewrite Hsc. by apply Hls.
Qed.

Lemma invoked_snoc tr l : invoked (tr ++ [EvInvoke l]) = invoked tr ++ [l].
Proof. unfold invoked. by rewrite omap_app. Qed.

Lemma walk_unsubs : ∀ k o w,
  reg_ok w c → pass_inv c A0 w → cbs_ok c n A0 w →
  (∀ y, o = Some y → A0 y ∧ length (heap w) - y ≤ k) →
  ∃ w' vis, walk (call n) k o w = Some w' ∧
    reg_ok w' c ∧
    length (heap w') = length (heap w) ∧
    (∀ z, cb_of (heap w') z = cb_of (heap w) z) ∧
    invoked (trace w') = invoked (trace w) ++ vis ∧
    (∀ x, alive (heap w') c x → alive (heap w) c x) ∧
    StronglySorted lt vis ∧
    (∀ x, x ∈ vis → A0 x ∧ at_or_after o x) ∧
    (∀ x, alive (heap w') c x → at_or_after o x → x ∈ vis) ∧
    (∀ x, A0 x → at_or_after o x → x ∉ vis →
       ¬ alive (heap w) c x ∨ ∃ g, g ∈ vis ∧ g < x ∧ x ∈ unsubs_of (heap w) g).
Proof.
  induction k as [|k IH]; intros o w Hok Hpass Hcbs Ho.
  - destruct o as [y|].
    + destruct (Ho y eq_refl) as [Hy Hk].
      destruct (Hcbs y Hy) as (f & _ & Hf & _). unfold cb_of in Hf.
      destruct (heap w !! y) eqn:E; [|done]. apply lookup_lt_Some in E. lia.
    + exists w, []. simpl. rewrite app_nil_r.
      do 6 (split; [done|]). split; [constructor|].
      split; [by intros x ?%elem_of_nil|]. split; by intros.
  - destruct o as [y|]; cycle 1.
    { exists w, []. simpl. rewrite app_nil_r.
      do 6 (split; [done|]). split; [constructor|].
      split; [by intros x ?%elem_of_nil|]. split; by intros. }
    destruct (Ho y eq_refl) as [Hy Hk].
    destruct (Hcbs y Hy) as (f & ls & Hf & Hun & Hh & Hls).
    unfold cb_of in Hf. destruct (heap w !! y) as [cell|] eqn:Hcell; [|done].
    simpl in Hf. injection Hf as Hf.
    destruct (call_unsubs f (log (EvInvoke y) w) ls Hun Hh Hok Hpass Hls) as
      (w1 & Hcall & Hok1 & Hpass1 & Hlen1 & Htr1 & Hal1 & Hcb1 & Hsc1).
    simpl in Hlen1, Htr1, Hal1, Hcb1, Hsc1. rewrite invoked_snoc in Htr1.
    destruct (lookup_lt_is_Some_2 (heap w1) y) as [cell' Hcell'];
      [rewrite Hlen1; by eapply lookup_lt_Some|].
    pose proof (proj2 Hpass1 y Hy) as Hnext. unfold nxt in Hnext.
    rewrite Hcell' in Hnext. simpl in Hnext.
    destruct (IH (next (obj cell')) w1 Hok1 Hpass1) as
      (w' & vis & Hwalk & Hok' & Hlen' & Hcb' & Htr' & Hmono & Hsorted & Hvis & Hall & Hskip).
    { by eapply cbs_ok_stable. }
    { intros z Hz. rewrite Hz in Hnext. destruct Hnext as (Hz0 & Hyz & _).
      split; [done|]. lia. }
    assert (Hafter : ∀ x, at_or_after (next (obj cell')) x → y < x).
    { intros x Hx. destruct (next (obj cell')) as [z|]; simpl in *; [|done].
      destruct Hnext as (_ & ? & _). lia. }
    assert (Hls_eq : unsubs_of (heap w) y = ls).
    { unfold unsubs_of, cb_of. rewrite Hcell. simpl. by rewrite Hf, Hun. }
    assert (Hdead : ∀ x, y < x → ¬ alive (heap w1) c x →
              ¬ alive (heap w) c x ∨
              ∃ g, g ∈ y :: vis ∧ g < x ∧ x ∈ unsubs_of (heap w) g).
    { intros x Hyx Hx. destruct (decide (alive (heap w) c x)) as [Hax|]; [|by left].
      right. exists y. split; [by left|]. split; [done|]. rewrite Hls_eq.
      destruct (decide (x ∈ ls)); [done|]. destruct Hx. by apply Hal1. }
    exists w', (y :: vis). split.
    { simpl. rewrite Hcell. simpl. rewrite Hf, Hcall. simpl.
      rewrite Hcell'. simpl. done. }
    split; [done|]. split; [congruence|]. split; [intros; congruence|].
    split; [by rewrite Htr', Htr1, <- app_assoc|].
    split; [intros x Hx%Hmono; by apply Hal1 in Hx as []|].
    split.
    { constructor; [done|]. apply Forall_forall. intros x [_ Hx]%Hvis.
      by apply Hafter. }
    split.
    { intros x [->|Hx]%elem_of_cons; [split; [done|simpl; lia]|].
      destruct (Hvis x Hx) as [? Hx']. split; [done|]. apply Hafter in Hx'.
      simpl. lia. }
    split.
    { intros x Hx Hyx. simpl in Hyx.
      destruct (decide (x = y)) as [->|Hne]; [by left|]. right.
      apply Hall; [done|]. apply Hmono in Hx.
      destruct (next (obj cell')) as [z|]; simpl in *.
      - destruct Hnext as (_ & _ & Hmin). apply Hmin; [done|lia].
      - eapply Hnext; [exact Hx|lia]. }
    intros x Hx Hyx Hnot. simpl in Hyx.
    apply not_elem_of_cons in Hnot as [Hne Hnot].
    assert (Hyx' : y < x) by lia.
    destruct (next (obj cell')) as [z|] eqn:Hz; simpl in *.
    + destruct (decide (z ≤ x)) as [Hzx|Hzx].
      * destruct (Hskip x Hx Hzx Hnot) as [Hd|(g & Hg & Hgx & Hxg)].
        -- by apply Hdead.
        -- right. exists g. split; [by right|]. split; [done|].
           unfold unsubs_of in *. by rewrite <- Hcb1.
      * apply Hdead; [done|]. intros Hal. destruct Hnext as (_ & _ & Hmin).
        specialize (Hmin x Hal Hyx'). lia.
    + apply Hdead; [done|]. intros Hal. by eapply Hnext.
Qed.

End Pass.

Lemma unsubscriber_spec h c n y :
  unsubscriber h c n y →
  ∃ f ls, cb_of h y = Some f ∧ unsubs f = Some ls ∧
    height f ≤ n ∧ ∀ l, l ∈ ls → scope_of h l = Some c.
Proof.
  unfold unsubscriber. destruct (cb_of h y) as [f|]; simpl; [|done].
  destruct (unsubs f) as [ls|] eqn:Hun; simpl; [|done].
  intros [Hh Hls]. exists f, ls. do 3 (split; [done|]).
  by apply Forall_forall.
Qed.

Lemma sorted_sublist_filter_seq (P : nat → Prop) `{∀ x, Decision (P x)} m :
  ∀ b vis, StronglySorted lt vis →
    (∀ x, x ∈ vis → P x ∧ b ≤ x ∧ x < b + m) →
    vis `sublist_of` filter P (seq b m).
Proof.
  induction m as [|m IH]; intros b vis Hs Hvis.
  - destruct vis as [|v vs]; [constructor|].
    destruct (Hvis v) as (_ & ? & ?); [by left|lia].
  - destruct vis as [|v vs]; [apply sublist_nil_l|].
    apply StronglySorted_inv in Hs as [Hs Hv]. rewrite Forall_forall in Hv.
    destruct (Hvis v) as (HPv & Hbv & Hvm); [by left|]. simpl.
    destruct (decide (v = b)) as [->|Hne].
    + rewrite filter_cons_True by done. apply sublist_skip, IH; [done|].
      intros x Hx. destruct (Hvis x) as (?&?&?); [by right|].
      specialize (Hv x Hx). split; [done|]. lia.
    + assert (Hrest : (v :: vs) `sublist_of` filter P (seq (S b) m)).
      { apply IH; [by constructor; [|apply Forall_forall]|].
        intros x [->|Hx]%elem_of_cons; [split; [done|lia]|].
        destruct (Hvis x) as (?&?&?); [by right|].
        specialize (Hv x Hx). split; [done|]. lia. }
      rewrite filter_cons. destruct (decide (P b)); [by apply sublist_cons|done].
Qed.

(** C1.  A [notify()] pass over a registry whose callbacks call
    [unsubscribe] closures of that registry (of handles already visited,
    of the current one, of handles not yet visited) returns, and it invokes
    callbacks in registration order, each handle at most once ([vis] is a
    subsequence of the handles live at the start); a handle live at the
    start is left out only if the callback of a handle invoked earlier in
    the pass unsubscribed it, so every handle not unsubscribed before its
    visit is invoked exactly once.  In the scenario of the specification
    the pass in which [cb3] unsubscribes handle1 returns, having invoked
    [cb1] and [cb3], and the next [notify()] invokes [cb3] only. *)
Theorem notify_with_unsubscribing_callbacks :
  (∀ (w : World) (c : cid) (n : nat),
     reg_ok w c →
     Forall (unsubscriber (heap w) c n) (live w c) →
     length (heap w) ≤ n →
     ∃ w' vis, notify n c w = Some w' ∧
       invoked (trace w') = invoked (trace w) ++ vis ∧
       vis `sublist_of` live w c ∧ NoDup vis ∧
       (∀ x, x ∈ live w c → x ∉ vis →
          ∃ g, g ∈ vis ∧ g < x ∧ x ∈ unsubs_of (heap w) g) ∧
       (∀ x, x ∈ live w' c → x ∈ vis) ∧
       reg_ok w' c) ∧
  (∃ w0 w1 w2,
     scenario_registry = Some w0 ∧ get 0 w0 = Some [0; 2] ∧
     notify 3 0 w0 = Some w1 ∧
     trace w1 = [EvInvoke 0; EvMark 1; EvInvoke 2; EvMark 3] ∧
     get 0 w1 = Some [2] ∧
     notify 3 0 w1 = Some w2 ∧
     trace w2 = trace w1 ++ [EvInvoke 2; EvMark 3]).
Proof.
  split; [|by_running].
  intros w c n Hok Hcbs Hn.
  set (A0 := alive (heap w) c).
  pose proof Hok as (C & HC & Hf & Hl & Hlinks).
  assert (Hpass : pass_inv c A0 w).
  { split; [done|]. intros y Hy. destruct (Hlinks y Hy) as [Hny _].
    destruct (nxt (heap w) y) as [z|]; simpl in *.
    - destruct Hny as (?&?&Hmin). split; [done|]. split; [lia|].
      intros x Hx Hyx. apply Hmin; [done|lia].
    - intros x Hx Hyx. eapply Hny; [exact Hx|lia]. }
  assert (Hcbs' : cbs_ok c n A0 w).
  { intros y Hy. apply unsubscriber_spec.
    rewrite Forall_forall in Hcbs. by apply Hcbs, elem_of_live. }
  destruct (walk_unsubs c n A0 n (first C) w Hok Hpass Hcbs') as
    (w' & vis & Hwalk & Hok' & Hlen & _ & Htr & Hmono & Hsorted & Hvis & Hall & Hskip).
  { intros y Hy. rewrite Hy in Hf. destruct Hf as (? & _). split; [done|lia]. }
  assert (Hafter : ∀ x, A0 x → at_or_after (first C) x).
  { intros x Hx. destruct (first C) as [f|]; simpl in *.
    - destruct Hf as (_ & _ & Hmin). apply Hmin; [done|lia].
    - eapply Hf; [exact Hx|lia]. }
  assert (Hsub : vis `sublist_of` live w c).
  { apply sorted_sublist_filter_seq; [done|]. intros x [Hx _]%Hvis.
    split; [done|]. split; [lia|]. by eapply alive_lt. }
  exists w', vis. split.
  { unfold notify, notify_with, batch. rewrite HC. done. }
  split; [done|]. split; [done|].
  split; [pose proof (NoDup_live w c); by eapply sublist_NoDup|].
  split; [|split; [|done]].
  - intros x Hx%elem_of_live Hnot.
    destruct (Hskip x Hx (Hafter x Hx) Hnot) as [Hd|]; [by destruct Hd|done].
  - intros x Hx%elem_of_live. apply Hall; [done|]. by apply Hafter, Hmono.
Qed.




Lemma filter_ext_in {A} (P Q : A → Prop)
    `{∀ x, Decision (P x)} `{∀ x, Decision (Q x)} (l : list A) :
  (∀ x, x ∈ l → (P x ↔ Q x)) → filter P l = filter Q l.
Proof.
  induction l as [|a l IH]; intros HPQ; [done|].
  rewrite !filter_cons. rewrite IH by (intros; apply HPQ; by right).
  destruct (decide (P a)) as [HP|HP], (decide (Q a)) as [HQ|HQ]; try done.
  - destruct HQ. apply HPQ; [by left|done].
  - destruct HP. apply HPQ; [by left|done].
Qed.

Lemma filter_all {A} (P : A → Prop) `{∀ x, Decision (P x)} (l : list A) :
  (∀ x, x ∈ l → P x) → filter P l = l.
Proof.
  induction l as [|a l IH]; intros HP; [done|].
  rewrite filter_cons_True by (apply HP; by left).
  f_equal. apply IH. intros; apply HP; by right.
Qed.


(** ** Passes whose callbacks subscribe *)

Section Appending.

Context (c : cid).




Lemma rest_cons w b y :
  alive (heap w) c y → b ≤ y →
  (∀ z, alive (heap w) c z → b ≤ z → y ≤ z) →
  b ≤ length (heap w) →
  rest w c b = y :: rest w c (S y).
Proof.
  intros Hy Hb Hmin Hlen. unfold rest.
  pose proof (alive_lt _ _ _ Hy).
  rewrite (filter_seq_split _ b _ y); [|done|lia|done|].
  - by replace (b + (length (heap w) - b) - S y) with (length (heap w) - S y) by lia.
  - intros z Hbz Hzy Hz. specialize (Hmin z Hz Hbz). lia.
Qed.


End Appending.



(** ** Subscription nodes: well-formedness is preserved *)

Lemma same_static_refl w : same_static w w.
Proof. split; [done|]. intros s S HS. exists S. eauto. Qed.

Lemma same_static_trans w1 w2 w3 :
  same_static w1 w2 → same_static w2 w3 → same_static w1 w3.
Proof.
  intros [Hl1 H1] [Hl2 H2]. split; [congruence|].
  intros s S HS. destruct (H1 s S HS) as (S' & HS' & ? & ? & ?).
  destruct (H2 s S' HS') as (S'' & HS'' & ? & ? & ?).
  exists S''. split; [done|]. split; [congruence|]. split; congruence.
Qed.

Lemma same_static_subs w w' : subs w' = subs w → same_static w w'.
Proof. intros H. split; [by rewrite H|]. intros s S HS. exists S. rewrite H. eauto. Qed.

Lemma attached_ok_mono w w' S :
  length (heap w) ≤ length (heap w') → length (colls w) ≤ length (colls w') →
  attached_ok w S → attached_ok w' S.
Proof.
  unfold attached_ok. intros ??.
  destruct (s_unsubscribe S) as [[]|], (s_listeners S); try done.
  intros [??]. split; lia.
Qed.

Lemma subs_ok_mono w w' :
  subs w' = subs w →
  length (heap w) ≤ length (heap w') → length (colls w) ≤ length (colls w') →
  subs_ok w → subs_ok w'.
Proof.
  intros Hs Hh Hc Hok s S HS. rewrite Hs in HS.
  destruct (Hok s S HS) as (? & ? & ?). split; [lia|]. split; [done|].
  by eapply attached_ok_mono.
Qed.

Lemma closed_log e w : closed w → closed (log e w).
Proof. done. Qed.

Lemma closed_create w : closed w → closed (createListenerCollection w).2.
Proof.
  intros (Hn & Hp & Hs & Hc). unfold closed. simpl.
  split; [done|]. split; [done|]. split.
  - intros z c Hz. apply Hs in Hz. rewrite length_app. lia.
  - intros c C HC. apply lookup_app_Some in HC as [HC|[_ HC]]; [by eapply Hc|].
    destruct (c - length (colls w)); simpl in HC; [|done]. simplify_eq. done.
Qed.

Lemma closed_clear c w w' : closed w → clear c w = Some w' → closed w'.
Proof.
  intros (Hn & Hp & Hs & Hc) H. unfold clear in H.
  apply bind_Some in H as (C & HC & H). simplify_eq. unfold closed. simpl.
  split; [done|]. split; [done|]. split.
  - intros z c0 Hz. rewrite length_insert. by eapply Hs.
  - intros c0 C0 HC0. destruct (decide (c0 = c)) as [->|].
    + rewrite list_lookup_insert_eq in HC0 by (by eapply lookup_lt_Some).
      by simplify_eq.
    + rewrite list_lookup_insert_ne in HC0 by done. by eapply Hc.
Qed.

Lemma closed_subscribe c cb w :
  closed w → c < length (colls w) →
  ∃ w' C', subscribe c cb w = Some (Unsubscribe (length (heap w)), w') ∧
    closed w' ∧
    length (heap w') = S (length (heap w)) ∧
    length (colls w') = length (colls w) ∧
    subs w' = subs w ∧ trace w' = trace w ∧
    cb_of (heap w') (length (heap w)) = Some cb ∧
    scope_of (heap w') (length (heap w)) = Some c ∧
    alive (heap w') c (length (heap w)) ∧
    colls w' !! c = Some C' ∧ last C' = Some (length (heap w)).
Proof.
  intros (Hn & Hp & Hs & Hc) Hlt.
  destruct (lookup_lt_is_Some_2 _ _ Hlt) as [C HC].
  destruct (subscribe_effect c cb w C HC) as
    (w' & Hsub & Hlen & Hsubs & Htr & Hcolls & Hal & Hnxt & Hprv & Hcb & Hsc).
  { intros p Hl. by eapply Hc. }
  exists w'. eexists. split; [done|].
  assert (Hclen : length (colls w') = length (colls w))
    by (by rewrite Hcolls, length_insert).
  split; [|split; [done|split; [done|split; [done|split; [done|]]]]].
  - unfold closed. rewrite Hlen, Hclen. split; [|split; [|split]].
    + intros z n. rewrite Hnxt. repeat case_decide; intros ?; simplify_eq; [lia|].
      etrans; [by eapply Hn|lia].
    + intros z p. rewrite Hprv. case_decide; intros Hz.
      * destruct (Hc c C HC) as [_ Hl]. etrans; [by eapply Hl|lia].
      * etrans; [by eapply Hp|lia].
    + intros z c0. rewrite Hsc. case_decide; intros ?; simplify_eq; [done|].
      by eapply Hs.
    + intros c0 C0 HC0. rewrite Hcolls in HC0.
      destruct (decide (c0 = c)) as [->|].
      * rewrite list_lookup_insert_eq in HC0 by done. simplify_eq. simpl.
        destruct (Hc c C HC) as [Hf Hl]. split; [|intros ? [= <-]; lia].
        destruct (last C); intros f ?; simplify_eq; [|lia].
        etrans; [by eapply Hf|lia].
      * rewrite list_lookup_insert_ne in HC0 by done.
        destruct (Hc c0 C0 HC0) as [Hf Hl].
        split; intros f ?; [etrans; [by eapply Hf|lia]|etrans; [by eapply Hl|lia]].
  - rewrite Hcb, Hsc, !decide_True by done. split; [done|]. split; [done|].
    split; [apply Hal; by right|].
    rewrite Hcolls. rewrite list_lookup_insert_eq by done. done.
Qed.

Lemma closed_unsubscribe l w :
  closed w → l < length (heap w) →
  ∃ w', unsubscribe l w = Some w' ∧ closed w' ∧
    length (heap w') = length (heap w) ∧
    length (colls w') = length (colls w) ∧
    subs w' = subs w ∧ trace w' = trace w.
Proof.
  intros Hcl Hlt. pose proof Hcl as (Hn & Hp & Hs & Hc).
  destruct (lookup_lt_is_Some_2 _ _ Hlt) as [cell Hcell].
  destruct (isSubscribed cell) eqn:Hflag;
    [|exists w; by rewrite (unsubscribe_dead _ _ _ Hcell Hflag)].
  assert (Hsc : scope cell < length (colls w)).
  { apply (Hs l). unfold scope_of. by rewrite Hcell. }
  destruct (lookup_lt_is_Some_2 _ _ Hsc) as [C HC].
  destruct (first C) as [f0|] eqn:Hfirst;
    [|exists w; by rewrite (unsubscribe_empty _ _ _ _ Hcell HC Hfirst)].
  destruct (unsubscribe_effect l w cell C Hcell Hflag HC) as
    (w' & Hun & Hlen & Hsubs & Htr & Hcolls & _ & Hnxt & Hprv & _ & Hsc');
    [by rewrite Hfirst|intros; by eapply Hn|intros; by eapply Hp|].
  exists w'. split; [done|].
  assert (Hclen : length (colls w') = length (colls w))
    by (by rewrite Hcolls, length_insert).
  split; [|done]. unfold closed. rewrite Hlen, Hclen.
  split; [|split; [|split]].
  - intros z n. rewrite Hnxt. case_decide; intros ?; by eapply Hn.
  - intros z p. rewrite Hprv. case_decide; intros ?; by eapply Hp.
  - intros z c0. rewrite Hsc'. by apply Hs.
  - intros c0 C0 HC0. rewrite Hcolls in HC0.
    destruct (decide (c0 = scope cell)) as [->|].
    + rewrite list_lookup_insert_eq in HC0 by done. simplify_eq. simpl.
      destruct (Hc _ C HC) as [Hf Hl]. split.
      * destruct (prv (heap w) l) eqn:?; intros f ?; [by apply Hf|by eapply Hn].
      * destruct (nxt (heap w) l) eqn:?; intros f ?; [by apply Hl|by eapply Hp].
    + rewrite list_lookup_insert_ne in HC0 by done. by eapply Hc.
Qed.

Lemma wf_log e w : wf w → wf (log e w).
Proof. done. Qed.

Lemma trySubscribe_with_wf up s w :
  (∀ p g w0, p < s → wf w0 → p < length (subs w0) →
     ∃ r, up p g w0 = Some r ∧ add_post p g w0 r) →
  wf w → s < length (subs w) →
  ∃ w', trySubscribe_with up s w = Some w' ∧ try_post s w w'.
Proof.
  intros Hup [Hcl Hsubs] Hs.
  destruct (lookup_lt_is_Some_2 _ _ Hs) as [S0 HS0].
  destruct (Hsubs s S0 HS0) as (Hst & Hpar & Hatt).
  unfold trySubscribe_with. rewrite HS0. simpl.
  destruct (s_unsubscribe S0) as [u|] eqn:Hu.
  - (* already attached *)
    exists w. split; [done|]. unfold attached_ok in Hatt. rewrite Hu in Hatt.
    destruct u; try done. destruct (s_listeners S0) as [|c] eqn:Hls; [done|].
    exists S0, c, l, []. split; [done|]. split; [apply same_static_refl|].
    do 5 (split; [done|]). split; [by rewrite app_nil_r|]. split; [constructor|].
    intros S HS. simplify_eq. by rewrite Hu.
  - (* attach upstream *)
    assert (Hupstream : ∃ l w1 e evs',
      match parentSub S0 with
      | Some p => up p (HandleChangeWrapper s) w
      | None => store_subscribe (store S0) (HandleChangeWrapper s) w
      end = Some (Unsubscribe l, w1) ∧
      wf w1 ∧ same_static w w1 ∧ l < length (heap w1) ∧
      length (heap w) ≤ length (heap w1) ∧ length (colls w) ≤ length (colls w1) ∧
      trace w1 = trace w ++ e :: evs' ∧ upstream_of s e ∧
      Forall (λ e, ∃ q, q < s ∧ upstream_of q e) evs').
    { destruct (parentSub S0) as [p|] eqn:Hp.
      - specialize (Hpar p eq_refl).
        destruct (Hup p (HandleChangeWrapper s) w) as ([u w1] & Hr & Hpost);
          [done|done|lia|].
        destruct Hpost as (l & c & S' & C & evs & Hu1 & Hwf1 & Hst1 & Hl1 & Hl2 & Hc1
                           & _ & _ & _ & _ & _ & _ & _ & Htr & Hevs).
        simpl in *. subst u.
        exists l, w1, (EvAddNestedSub p (HandleChangeWrapper s)), evs.
        split; [done|]. split; [done|]. split; [done|]. split; [done|].
        split; [lia|]. split; [done|]. split; [done|]. split; [done|].
        eapply Forall_impl; [exact Hevs|]. intros e (q & ? & ?). exists q.
        split; [lia|done].
      - unfold store_subscribe.
        destruct (closed_subscribe (store S0) (HandleChangeWrapper s)
                    (log (EvStoreSubscribe (store S0) (HandleChangeWrapper s)) w))
          as (w1 & C' & Hsub & Hcl1 & Hlen1 & Hclen1 & Hsubs1 & Htr1 & _);
          [done|done|].
        simpl in *. exists (length (heap w)), w1,
          (EvStoreSubscribe (store S0) (HandleChangeWrapper s)), [].
        split; [done|]. split.
        { split; [done|]. eapply (subs_ok_mono w); [done|lia|lia|done]. }
        split; [by apply same_static_subs|]. split; [lia|]. split; [lia|].
        split; [lia|]. split; [done|]. split; [done|constructor]. }
    destruct Hupstream as (l & w1 & e & evs' & Hr & [Hcl1 Hsubs1] & Hst1 & Hl & Hh & Hc
                           & Htr & He & Hevs').
    rewrite Hr. simpl.
    destruct Hst1 as [Hslen Hstat].
    destruct (Hstat s S0 HS0) as (S1 & HS1 & Hst1 & Hpar1 & Hon1).
    rewrite HS1. simpl.
    assert (Hs1 : s < length (subs w1)) by lia.
    rewrite list_lookup_insert_eq by done. simpl.
    eexists. split; [done|].
    exists (set_listeners (Live (length (colls w1))) (set_unsubscribe (Some (Unsubscribe l)) S1)),
      (length (colls w1)), l, (e :: evs').
    split.
    { split.
      - apply (closed_create (store_sub s (set_unsubscribe (Some (Unsubscribe l)) S1) w1)).
        done.
      - intros s' S' HS'. simpl in HS'. simpl. rewrite length_app. simpl.
        destruct (decide (s' = s)) as [->|Hne].
        + rewrite list_lookup_insert_eq in HS' by (by rewrite length_insert).
          simplify_eq. simpl.
          destruct (Hsubs1 s S1 HS1) as (? & ? & _).
          split; [lia|]. split; [done|]. unfold attached_ok. simpl.
          rewrite length_app. simpl. lia.
        + rewrite !list_lookup_insert_ne in HS' by done.
          destruct (Hsubs1 s' S' HS') as (? & ? & Hatt').
          split; [lia|]. split; [done|].
          eapply (attached_ok_mono w1); [done| |done]. simpl.
          rewrite length_app. lia. }
    split.
    { split; [simpl; by rewrite !length_insert|].
      intros s' S' HS'. destruct (Hstat s' S' HS') as (S'' & HS'' & ? & ? & ?).
      simpl. destruct (decide (s' = s)) as [->|Hne].
      - rewrite list_lookup_insert_eq by (by rewrite length_insert).
        eexists. split; [done|]. simplify_eq. done.
      - rewrite !list_lookup_insert_ne by done. eauto. }
    simpl. rewrite length_app. split; [done|]. split; [lia|].
    split; [by rewrite list_lookup_insert_eq by (by rewrite length_insert)|].
    split; [done|]. split; [done|]. split; [done|].
    split.
    { constructor; [exists s; split; [lia|done]|].
      eapply Forall_impl; [exact Hevs'|]. intros e' (q & ? & ?). exists q.
      split; [lia|done]. }
    intros S HS. simplify_eq. rewrite Hu. eauto.
Qed.

Lemma addNestedSub_wf : ∀ n s f w,
  s < n → wf w → s < length (subs w) →
  ∃ r, addNestedSub n s f w = Some r ∧ add_post s f w r.
Proof.
  induction n as [|n IH]; intros s f w Hn Hwf Hs; [lia|].
  destruct (trySubscribe_with_wf (addNestedSub n) s (log (EvAddNestedSub s f) w))
    as (w1 & H1 & S' & c & l0 & evs & [Hcl1 Hsubs1] & Hst1 & Hh1 & Hc1 & HS' & Hls
        & Hu & Htr1 & Hevs & _); [|done|done|].
  { intros p g w0 Hp Hwf0 Hp0. apply IH; [lia|done|done]. }
  simpl in *. rewrite H1. simpl. rewrite HS'. simpl. rewrite Hls. simpl.
  destruct (Hsubs1 s S' HS') as (_ & _ & Hatt). unfold attached_ok in Hatt.
  rewrite Hu, Hls in Hatt. destruct Hatt as [Hl0 Hc].
  destruct (closed_subscribe c f w1 Hcl1 Hc) as
    (w2 & C' & Hsub & Hcl2 & Hlen2 & Hclen2 & Hsubs2 & Htr2 & Hcb & _ & Hal & HC' & Hlast).
  rewrite Hsub. eexists. split; [done|].
  exists (length (heap w1)), c, S', C', evs. simpl.
  split; [done|]. split.
  { split; [done|]. eapply (subs_ok_mono w1); [done|lia|lia|done]. }
  split.
  { eapply same_static_trans; [exact Hst1|]. by apply same_static_subs. }
  split; [done|]. split; [lia|]. split; [lia|]. split; [by rewrite Hsubs2|].
  split; [done|]. split; [by rewrite Hu|]. split; [done|]. split; [done|].
  split; [done|]. split; [done|]. split; [|done].
  by rewrite Htr2, Htr1, <- app_assoc.
Qed.

Lemma trySubscribe_wf n s w :
  s ≤ n → wf w → s < length (subs w) →
  ∃ w', trySubscribe n s w = Some w' ∧ try_post s w w'.
Proof.
  intros Hn Hwf Hs. apply trySubscribe_with_wf; [|done|done].
  intros p g w0 Hp Hwf0 Hp0. apply addNestedSub_wf; [lia|done|done].
Qed.

(** More fuel does not change a result. *)
Lemma trySubscribe_with_mono up up' s w w' :
  (∀ p g w0 r, up p g w0 = Some r → up' p g w0 = Some r) →
  trySubscribe_with up s w = Some w' → trySubscribe_with up' s w = Some w'.
Proof.
  intros Hup H. unfold trySubscribe_with in *.
  apply bind_Some in H as (S0 & HS0 & H). rewrite HS0. simpl in *.
  destruct (s_unsubscribe S0); [done|].
  apply bind_Some in H as ([u w1] & Hr & H).
  destruct (parentSub S0).
  - apply Hup in Hr. rewrite Hr. done.
  - rewrite Hr. done.
Qed.

Lemma addNestedSub_mono : ∀ n m s f w r,
  n ≤ m → addNestedSub n s f w = Some r → addNestedSub m s f w = Some r.
Proof.
  induction n as [|n IH]; intros m s f w r Hnm H; [done|].
  destruct m as [|m]; [lia|]. simpl in *.
  apply bind_Some in H as (w1 & H1 & H).
  rewrite (trySubscribe_with_mono (addNestedSub n) (addNestedSub m) _ _ w1);
    [done| |done].
  intros p g w0 r0 Hr0. eapply IH; [|done]. lia.
Qed.

Lemma addNestedSub_lookup n s f w r :
  addNestedSub n s f w = Some r → s < length (subs w).
Proof.
  destruct n; [done|]. simpl. intros H.
  apply bind_Some in H as (w1 & H1 & _). unfold trySubscribe_with in H1.
  apply bind_Some in H1 as (S0 & HS0 & _). simpl in HS0. by eapply lookup_lt_Some.
Qed.

Lemma addNestedSub_post n s f w r :
  wf w → addNestedSub n s f w = Some r → add_post s f w r.
Proof.
  intros Hwf H. pose proof (addNestedSub_lookup _ _ _ _ _ H) as Hs.
  destruct (addNestedSub_wf (n `max` S s) s f w) as (r' & Hr' & Hpost);
    [lia|done|done|].
  apply (addNestedSub_mono n (n `max` S s)) in H; [|lia]. by simplify_eq.
Qed.

Lemma trySubscribe_post n s w w' :
  wf w → trySubscribe n s w = Some w' → try_post s w w'.
Proof.
  intros Hwf H.
  assert (Hs : s < length (subs w)).
  { unfold trySubscribe, trySubscribe_with in H.
    apply bind_Some in H as (S0 & HS0 & _). by eapply lookup_lt_Some. }
  destruct (trySubscribe_wf (n `max` s) s w) as (w2 & H2 & Hpost); [lia|done|done|].
  unfold trySubscribe in *.
  apply (trySubscribe_with_mono _ (addNestedSub (n `max` s))) in H.
  - by simplify_eq.
  - intros p g w0 r Hr. eapply addNestedSub_mono; [|done]. lia.
Qed.

Lemma walk_preserves (P : World → Prop) callf k o w w' :
  (∀ e w, P w → P (log e w)) →
  (∀ f w w', callf f w = Some w' → P w → P w') →
  walk callf k o w = Some w' → P w → P w'.
Proof.
  intros Hlog Hcall. revert o w. induction k as [|k IH]; intros [l|] w H HP;
    simpl in H; simplify_eq; try done.
  apply bind_Some in H as (cell & Hcell & H).
  apply bind_Some in H as (w1 & H1 & H).
  apply bind_Some in H as (cell' & Hcell' & H).
  eapply IH; [done|]. eapply Hcall; [done|]. by apply Hlog.
Qed.

Lemma closed_ext w w' :
  heap w' = heap w → colls w' = colls w → closed w → closed w'.
Proof. unfold closed. intros -> ->. done. Qed.

Lemma wf_unsubscribe l w w' : wf w → unsubscribe l w = Some w' → wf w'.
Proof.
  intros [Hcl Hsubs] H.
  assert (Hl : l < length (heap w)).
  { unfold unsubscribe in H. apply bind_Some in H as (cell & Hcell & _).
    by eapply lookup_lt_Some. }
  destruct (closed_unsubscribe l w Hcl Hl) as (w2 & H2 & Hcl2 & Hh & Hc & Hs & _).
  simplify_eq. split; [done|]. eapply (subs_ok_mono w); [done|lia|lia|done].
Qed.

Lemma wf_subscribe c cb w u w' : wf w → subscribe c cb w = Some (u, w') → wf w'.
Proof.
  intros [Hcl Hsubs] H.
  assert (Hc : c < length (colls w)).
  { unfold subscribe in H. apply bind_Some in H as (C & HC & _).
    by eapply lookup_lt_Some. }
  destruct (closed_subscribe c cb w Hcl Hc) as
    (w2 & C' & H2 & Hcl2 & Hh & Hcl' & Hs & _).
  simplify_eq. split; [done|]. eapply (subs_ok_mono w); [done|lia|lia|done].
Qed.

Lemma wf_clear c w w' : wf w → clear c w = Some w' → wf w'.
Proof.
  intros [Hcl Hsubs] H. split; [by eapply closed_clear|].
  unfold clear in H. apply bind_Some in H as (C & HC & H). simplify_eq.
  eapply (subs_ok_mono w); [done|done|simpl; by rewrite length_insert|done].
Qed.

Lemma wf_notify callf k c w w' :
  (∀ f w w', callf f w = Some w' → wf w → wf w') →
  notify_with callf k c w = Some w' → wf w → wf w'.
Proof.
  intros Hcall H Hwf. unfold notify_with, batch in H.
  apply bind_Some in H as (C & HC & H).
  eapply (walk_preserves wf); [|exact Hcall|exact H|exact Hwf]. done.
Qed.

Lemma wf_tryUnsubscribe callf s w w' :
  (∀ f w w', callf f w = Some w' → wf w → wf w') →
  tryUnsubscribe_with callf s w = Some w' → wf w → wf w'.
Proof.
  intros Hcall H Hwf. unfold tryUnsubscribe_with in H.
  apply bind_Some in H as (S0 & HS0 & H).
  destruct (s_unsubscribe S0) as [u|]; [|by simplify_eq].
  apply bind_Some in H as (w1 & H1 & H). simpl in H.
  apply bind_Some in H as (S1 & HS1 & H). simpl in H.
  pose proof (lookup_lt_Some _ _ _ HS1) as Hs.
  rewrite list_lookup_insert_eq in H by done. simpl in H.
  destruct (s_listeners S1) as [|c] eqn:Hls; simpl in H; [done|].
  apply bind_Some in H as (w3 & H3 & H).
  unfold clear in H3. simpl in H3. apply bind_Some in H3 as (C & HC & H3).
  injection H3 as <-. simpl in H.
  rewrite list_lookup_insert_eq in H by done. simpl in H. simplify_eq.
  destruct (Hcall _ _ _ H1 Hwf) as [Hcl1 Hsubs1].
  split.
  - eapply (closed_ext (store_coll c (mkCollection None None) w1)); [done|done|].
    eapply closed_clear; [exact Hcl1|]. unfold clear. by rewrite HC.
  - intros s' S' HS'. simpl in *. rewrite length_insert.
    destruct (decide (s' = s)) as [->|Hne].
    + rewrite list_lookup_insert_eq in HS' by (by rewrite length_insert).
      simplify_eq. simpl. destruct (Hsubs1 s S1 HS1) as (? & ? & _).
      split; [done|]. split; done.
    + rewrite !list_lookup_insert_ne in HS' by done.
      destruct (Hsubs1 s' S' HS') as (? & ? & Hatt). split; [done|]. split; [done|].
      eapply (attached_ok_mono w1); [done|simpl; by rewrite length_insert|done].
Qed.

Lemma call_wf : ∀ n f w w', call n f w = Some w' → wf w → wf w'.
Proof.
  induction n as [|n IH]; intros f w w' H Hwf; [done|].
  destruct f; simpl in H.
  - by simplify_eq.
  - by eapply wf_unsubscribe.
  - apply fmap_Some in H as ([u w1] & H & ->). by eapply wf_subscribe.
  - by eapply wf_notify.
  - by eapply wf_clear.
  - apply fmap_Some in H as ([u w1] & H & ->).
    destruct (addNestedSub_post _ _ _ _ _ Hwf H) as (?&?&?&?&?&?&?&?); done.
  - unfold notifyNestedSubs_with in H. apply bind_Some in H as (S0 & HS0 & H).
    destruct (s_listeners S0); simpl in H; [by simplify_eq|]. by eapply wf_notify.
  - unfold handleChangeWrapper_with in H. apply bind_Some in H as (S0 & HS0 & H).
    destruct (onStateChange S0); [by eapply IH|by simplify_eq].
  - destruct (trySubscribe_post _ _ _ _ Hwf H) as (?&?&?&?&?&?); done.
  - by eapply wf_tryUnsubscribe.
  - apply bind_Some in H as (w1 & H1 & H). eapply IH; [done|]. by eapply IH.
Qed.

Lemma wf_init : wf init.
Proof.
  split; [|by intros s S HS].
  unfold closed, nxt, prv, scope_of. simpl.
  split; [by intros z n|]. split; [by intros z n|]. split; [by intros z n|].
  by intros c C HC.
Qed.

Lemma reachable_wf w : reachable w → wf w.
Proof.
  induction 1 as [|w _ [Hcl Hsubs]|w st parent _ [Hcl Hsubs] Hst Hpar
                  |w s f w' _ [Hcl Hsubs] Has|w n f w' _ IH Hcall].
  - apply wf_init.
  - split; [by apply closed_create|].
    eapply (subs_ok_mono w); [done|done|simpl; rewrite length_app; lia|done].
  - split; [done|]. intros s S HS. simpl in *.
    apply lookup_app_Some in HS as [HS|[Hs HS]]; [by apply Hsubs|].
    destruct (s - length (subs w)) eqn:E; simpl in HS; [|done]. simplify_eq.
    simpl. split; [done|]. split; [|done]. intros p Hp. specialize (Hpar p Hp). lia.
  - unfold assign_onStateChange in Has.
    apply bind_Some in Has as (S0 & HS0 & Has). simplify_eq.
    split; [done|]. intros s' S' HS'. simpl in *.
    destruct (decide (s' = s)) as [->|Hne].
    + rewrite list_lookup_insert_eq in HS' by (by eapply lookup_lt_Some).
      injection HS' as <-. by destruct (Hsubs s S0 HS0) as (? & ? & ?).
    + rewrite list_lookup_insert_ne in HS' by done. by apply Hsubs.
  - by eapply call_wf.
Qed.

(** The invariant [tail_has_head] holds in every reachable world. *)
Lemma tail_has_head_insert cs c C :
  tail_has_head cs → (is_Some (last C) → is_Some (first C)) →
  tail_has_head (<[c := C]> cs).
Proof.
  intros Hcs HC c' C' HC'. destruct (decide (c' = c)) as [->|Hne].
  - apply list_lookup_insert_Some in HC'.
    destruct HC' as [(_ & HCC & _)|[? _]]; [subst C'; exact HC|done].
  - rewrite list_lookup_insert_ne in HC' by done. exact (Hcs c' C' HC').
Qed.

Lemma tail_has_head_snoc cs :
  tail_has_head cs → tail_has_head (cs ++ [mkCollection None None]).
Proof.
  intros Hcs c C HC. apply lookup_app_Some in HC as [HC|[_ HC]]; [exact (Hcs c C HC)|].
  destruct (c - length cs); simpl in HC; [|done]. simplify_eq. simpl.
  by intros [? ?].
Qed.

Lemma subscribe_colls c cb w u w' :
  subscribe c cb w = Some (u, w') →
  ∃ C, colls w !! c = Some C ∧
    colls w' =
      <[c := mkCollection
               (match last C with Some _ => first C | None => Some (length (heap w)) end)
               (Some (length (heap w)))]> (colls w).
Proof.
  unfold subscribe. intros H.
  apply bind_Some in H as (C & HC & H). simpl in H. exists C. split; [done|].
  pose proof (lookup_lt_Some _ _ _ HC) as Hc.
  rewrite lookup_snoc, decide_True in H by done. simpl in H.
  destruct C as [fC lC]. simpl in *. destruct lC as [p|]; simpl in H.
  - apply bind_Some in H as (w2 & H2 & H). simplify_eq.
    apply bind_Some in H2 as (cp & Hcp & H2). by simplify_eq.
  - apply bind_Some in H as (w2 & H2 & H). simplify_eq.
    apply bind_Some in H2 as (C1 & HC1 & H2). simplify_eq. simpl.
    rewrite list_lookup_insert_eq in HC1 by done. simplify_eq.
    by rewrite list_insert_insert_eq.
Qed.

Lemma subscribe_tail_has_head c cb w u w' :
  subscribe c cb w = Some (u, w') →
  tail_has_head (colls w) → tail_has_head (colls w').
Proof.
  intros (C & HC & ->)%subscribe_colls Hcs.
  apply tail_has_head_insert; [done|]. simpl. intros _.
  destruct (last C) eqn:Hl; [|by eexists]. apply (Hcs c C HC). by rewrite Hl.
Qed.

Lemma unsubscribe_tail_has_head l w w' :
  unsubscribe l w = Some w' →
  tail_has_head (colls w) → tail_has_head (colls w').
Proof.
  unfold unsubscribe. intros H Hcs. revert H.
  destruct (heap w !! l) as [cell|] eqn:Hl; simpl; [|done].
  destruct (isSubscribed cell) eqn:Hflag; simpl; [|intros; by simplify_eq].
  destruct (colls w !! scope cell) as [C|] eqn:HC; simpl; [|done].
  destruct (first C) as [f0|] eqn:Hfirst; [|intros; by simplify_eq].
  pose proof (lookup_lt_Some _ _ _ Hl) as Hlt.
  pose proof (lookup_lt_Some _ _ _ HC) as Hclt.
  rewrite list_lookup_insert_eq by done. simpl.
  set (h1 := <[l := set_isSubscribed false cell]> (heap w)).
  destruct (next (obj cell)) as [n|] eqn:Hnext; simpl; fold h1.
  - destruct (h1 !! n) as [cn|] eqn:Hn; simpl; [|done]. fold h1.
    set (h2 := <[n := upd_obj (set_prev (prev (obj cell))) cn]> h1).
    assert (Hnx : nxt h2 l = Some n).
    { unfold h2. rewrite nxt_set_prev by done. unfold h1.
      rewrite nxt_unflag by done. unfold nxt. by rewrite Hl. }
    destruct (h2 !! l) as [cl2|] eqn:Hl2; simpl; [|done]. fold h1. fold h2.
    unfold nxt in Hnx. rewrite Hl2 in Hnx. simpl in Hnx.
    destruct (prev (obj cl2)) as [p|]; simpl; fold h1; fold h2.
    + destruct (h2 !! p) as [cp|] eqn:Hp; simpl; [|done].
      intros ?; simplify_eq. simpl. done.
    + rewrite HC. simpl. intros ?; simplify_eq. simpl.
      apply tail_has_head_insert; [done|]. simpl. rewrite Hnx. by eexists.
  - assert (h1 !! l = Some (set_isSubscribed false cell)) as ->
      by (by apply list_lookup_insert_eq).
    simpl. fold h1.
    destruct (prev (obj cell)) as [p|] eqn:Hprev; simpl; fold h1.
    + destruct (h1 !! p) as [cp|] eqn:Hp; simpl; [|done].
      intros ?; simplify_eq. simpl.
      apply tail_has_head_insert; [done|]. simpl. rewrite Hfirst. by eexists.
    + rewrite list_lookup_insert_eq by done. simpl.
      intros ?; simplify_eq. simpl.
      apply tail_has_head_insert; [by apply tail_has_head_insert|].
      simpl. by intros [? ?].
Qed.

Lemma trySubscribe_with_tail_has_head up s w w' :
  (∀ p g w0 r, up p g w0 = Some r →
     tail_has_head (colls w0) → tail_has_head (colls r.2)) →
  trySubscribe_with up s w = Some w' →
  tail_has_head (colls w) → tail_has_head (colls w').
Proof.
  intros Hup H Hcs. unfold trySubscribe_with in H.
  apply bind_Some in H as (S0 & HS0 & H). simpl in H.
  destruct (s_unsubscribe S0); [by simplify_eq|].
  apply bind_Some in H as ([u1 w2] & Hcall & H). simpl in H.
  apply bind_Some in H as (S2 & HS2 & H). simpl in H.
  apply bind_Some in H as (S3 & HS3 & H). simplify_eq. simpl.
  apply tail_has_head_snoc.
  destruct (parentSub S0) as [p|].
  - by apply (Hup _ _ _ _ Hcall).
  - unfold store_subscribe in Hcall. by eapply subscribe_tail_has_head in Hcall.
Qed.

Lemma addNestedSub_tail_has_head n : ∀ s g w r,
  addNestedSub n s g w = Some r →
  tail_has_head (colls w) → tail_has_head (colls r.2).
Proof.
  induction n as [|n IH]; intros s g w [u w'] H Hcs; [done|].
  simpl in H. apply bind_Some in H as (w1 & H1 & H).
  apply bind_Some in H as (S1 & HS1 & H).
  assert (Hcs1 : tail_has_head (colls w1)).
  { eapply trySubscribe_with_tail_has_head; [|exact H1|done]. apply IH. }
  destruct (s_listeners S1) as [|c]; simpl in H; [done|].
  simpl. by eapply subscribe_tail_has_head.
Qed.

Lemma walk_tail_has_head (callf : VoidFunc → World → option World) k o w w' :
  (∀ f w w', callf f w = Some w' →
     tail_has_head (colls w) → tail_has_head (colls w')) →
  walk callf k o w = Some w' →
  tail_has_head (colls w) → tail_has_head (colls w').
Proof.
  intros Hcall. revert o w. induction k as [|k IH]; intros [l|] w H HP;
    simpl in H; simplify_eq; try done.
  apply bind_Some in H as (cell & Hcell & H).
  apply bind_Some in H as (w1 & H1 & H).
  apply bind_Some in H as (cell' & Hcell' & H).
  eapply IH; [done|]. by eapply Hcall in H1.
Qed.

Lemma call_tail_has_head n : ∀ f w w',
  call n f w = Some w' →
  tail_has_head (colls w) → tail_has_head (colls w').
Proof.
  induction n as [|n IH]; intros f w w' H HP; [done|].
  destruct f; simpl in H.
  - by simplify_eq.
  - by eapply unsubscribe_tail_has_head.
  - apply fmap_Some in H as ([u w1] & H & ->). by eapply subscribe_tail_has_head.
  - unfold notify_with, batch in H. apply bind_Some in H as (C & HC & H).
    by eapply walk_tail_has_head.
  - unfold clear in H. apply bind_Some in H as (C & HC & H). simplify_eq. simpl.
    apply tail_has_head_insert; [done|]. simpl. by intros [? ?].
  - apply fmap_Some in H as (r & H & ->). by eapply addNestedSub_tail_has_head.
  - unfold notifyNestedSubs_with in H. apply bind_Some in H as (S0 & HS & H).
    destruct (s_listeners S0); simpl in H; [by simplify_eq|].
    unfold notify_with, batch in H. apply bind_Some in H as (C & HC & H).
    by eapply walk_tail_has_head.
  - unfold handleChangeWrapper_with in H. apply bind_Some in H as (S0 & HS & H).
    destruct (onStateChange S0); [by eapply IH|by simplify_eq].
  - eapply trySubscribe_with_tail_has_head; [|exact H|done].
    intros p g w0 r. apply addNestedSub_tail_has_head.
  - unfold tryUnsubscribe_with in H.
    apply bind_Some in H as (S0 & HS0 & H).
    destruct (s_unsubscribe S0) as [u|]; [|by simplify_eq].
    apply bind_Some in H as (w1 & H1 & H). simpl in H.
    apply bind_Some in H as (S1 & HS1 & H). simpl in H.
    apply bind_Some in H as (S2 & HS2 & H).
    apply bind_Some in H as (w3 & H3 & H).
    apply bind_Some in H as (S3 & HS3 & H). simplify_eq. simpl.
    destruct (s_listeners S2); simpl in H3; [done|].
    unfold clear in H3. apply bind_Some in H3 as (C & HC & H3). simplify_eq.
    simpl. apply tail_has_head_insert; [by eapply IH|]. simpl. by intros [? ?].
  - apply bind_Some in H as (w1 & H1 & H). eapply IH; [done|]. by eapply IH.
Qed.

Lemma reachable_tail_has_head w : reachable w → tail_has_head (colls w).
Proof.
  induction 1 as [|w _ IH|w st parent _ IH _ _|w s f w' _ IH Has|w n f w' _ IH Hcall].
  - intros c C HC. done.
  - by apply tail_has_head_snoc.
  - done.
  - unfold assign_onStateChange in Has.
    apply bind_Some in Has as (S0 & HS0 & Has). by simplify_eq.
  - by eapply call_tail_has_head.
Qed.

Lemma subscribe_new_tail c cb w u w' :
  closed w → subscribe c cb w = Some (u, w') →
  u = Unsubscribe (length (heap w)) ∧ nxt (heap w') (length (heap w)) = None.
Proof.
  intros Hcl Hsub. destruct (subscribe_colls _ _ _ _ _ Hsub) as (C & HC & _).
  destruct Hcl as (_ & _ & _ & Hcolls). destruct (Hcolls c C HC) as [_ Hlast].
  destruct (subscribe_effect c cb w C HC Hlast)
    as (w2 & Hsub2 & _ & _ & _ & _ & _ & Hnxt & _).
  rewrite Hsub in Hsub2. simplify_eq. split; [done|].
  rewrite Hnxt. destruct (decide (last C = Some (length (heap w)))) as [Heq|_].
  - specialize (Hlast _ Heq). lia.
  - by rewrite decide_True.
Qed.

Lemma addNestedSub_new_tail n s f w l w' :
  wf w → addNestedSub n s f w = Some (Unsubscribe l, w') →
  nxt (heap w') l = None.
Proof.
  intros Hwf H. destruct n as [|n]; [done|]. simpl in H.
  apply bind_Some in H as (w1 & H1 & H).
  apply bind_Some in H as (S1 & HS1 & H).
  destruct (trySubscribe_post n s _ w1 (wf_log _ _ Hwf) H1)
    as (? & ? & ? & ? & [Hcl1 _] & _).
  destruct (s_listeners S1) as [|c]; simpl in H; [done|].
  destruct (subscribe_new_tail _ _ _ _ _ Hcl1 H) as [Hu Hn]. by simplify_eq.
Qed.

(** C8.  In every reachable world, of a freshly constructed node as well as
    of one torn down by [tryUnsubscribe], [addNestedSub] returns: it never
    calls the sentinel's missing [subscribe].  The node is attached
    afterwards, its registry is a live collection, and the closure returned
    is that of a new handle holding the callback, subscribed and linked as
    the tail of that collection.  The closure works: calling it returns,
    clears the handle's flag and unlinks the handle ([last] is the handle's
    predecessor again, whose [next] is null, or the list is empty), removes
    no other handle and touches no other registry and no node; where the
    registry satisfied the list invariant, [get()] returns the former list
    without the handle. *)
Theorem addNestedSub_returns_working_closure
    (w : World) (s : sid) (f : VoidFunc) (n : nat) :
  reachable w → s < length (subs w) → s < n →
  ∃ l c C w' w'',
    addNestedSub n s f w = Some (Unsubscribe l, w') ∧
    getListeners s w' = Some (Live c) ∧
    sub_isSubscribed s w' = Some true ∧
    length (heap w) ≤ l ∧
    cb_of (heap w') l = Some f ∧ alive (heap w') c l ∧
    colls w' !! c = Some C ∧ last C = Some l ∧ nxt (heap w') l = None ∧
    call 1 (Unsubscribe l) w' = Some w'' ∧
    flag_of (heap w'') l = Some false ∧
    (∀ c' z, alive (heap w'') c' z ↔ alive (heap w') c' z ∧ z ≠ l) ∧
    colls w'' !! c =
      Some (mkCollection
              (match prv (heap w') l with Some _ => first C | None => None end)
              (prv (heap w') l)) ∧
    (∀ p, prv (heap w') l = Some p → nxt (heap w'') p = None) ∧
    (∀ c', c' ≠ c → colls w'' !! c' = colls w' !! c') ∧
    subs w'' = subs w' ∧ trace w'' = trace w' ∧
    (∀ ls, reg_ok w' c → get c w' = Some ls →
       l ∈ ls ∧ get c w'' = Some (filter (λ z, z ≠ l) ls) ∧ reg_ok w'' c).
Proof.
  intros Hr Hs Hn. pose proof (reachable_wf w Hr) as Hwf.
  destruct (addNestedSub_wf n s f w Hn Hwf Hs) as ([u w'] & Hadd & Hpost).
  destruct Hpost as (l & c & S' & C & evs & Hu & [Hcl' _] & _ & Hl1 & Hl2 & _ & HS'
                     & Hls & [u' Hu'] & Hcb & Hal & HC & Hlast & _).
  simpl in *. subst u.
  pose proof (addNestedSub_new_tail n s f w l w' Hwf Hadd) as Hnxt.
  pose proof (addNestedSub_tail_has_head n s f w _ Hadd
                (reachable_tail_has_head w Hr)) as Hth. simpl in Hth.
  pose proof Hal as (cell & Hcell & Hscope & Hflag).
  assert (Hfirst : is_Some (first C)) by (apply (Hth c C HC); by rewrite Hlast).
  pose proof Hcl' as (Hcn & Hcp & _).
  destruct (unsubscribe_effect l w' cell C Hcell Hflag)
    as (w'' & Hun & Hlen & Hsubs & Htr & Hcolls & Hal' & Hnxt' & _);
    [by rewrite Hscope|done|by apply Hcn|by apply Hcp|].
  rewrite Hscope, Hnxt in Hcolls.
  exists l, c, C, w', w''. split; [done|].
  split; [unfold getListeners; rewrite HS'; simpl; by rewrite Hls|].
  split; [unfold sub_isSubscribed; rewrite HS'; simpl; by rewrite Hu'|].
  do 6 (split; [done|]). split; [exact Hun|].
  split.
  { destruct (unsubscribe_flags _ _ _ Hun) as ([->|Hf] & _); [|done].
    exfalso. apply Hal' in Hal as [_ Hne]. done. }
  split; [done|].
  split; [rewrite Hcolls; apply list_lookup_insert_eq; by eapply lookup_lt_Some|].
  split; [intros p Hp; by rewrite Hnxt', decide_True|].
  split; [intros c' Hne; rewrite Hcolls; by apply list_lookup_insert_ne|].
  split; [done|]. split; [done|].
  intros ls Hok Hget. rewrite (get_live w' c Hok) in Hget. injection Hget as <-.
  split; [by apply elem_of_live|].
  assert (Hok'' : reg_ok w'' c).
  { eapply (reg_ok_unsubscribe l w' cell c); [done|by rewrite Hscope|done|done]. }
  split; [|done]. rewrite (get_live w'' c Hok''). f_equal.
  unfold live. rewrite Hlen, list_filter_filter.
  apply filter_ext_in. intros z _. rewrite Hal'. tauto.
Qed.

Lemma tryUnsubscribe_with_attached callf s w S u c w1 :
  subs w !! s = Some S → s_unsubscribe S = Some u → s_listeners S = Live c →
  callf u w = Some w1 → subs w1 = subs w → c < length (colls w1) →
  tryUnsubscribe_with callf s w =
    Some (mkWorld (heap w1) (<[c := mkCollection None None]> (colls w1))
            (<[s := set_listeners NullListeners (set_unsubscribe None S)]> (subs w))
            (trace w1)).
Proof.
  intros HS Hu Hl Hcall Hsubs Hc. pose proof (lookup_lt_Some _ _ _ HS) as Hs.
  unfold tryUnsubscribe_with. rewrite HS. simpl. rewrite Hu, Hcall. simpl.
  rewrite Hsubs, HS. simpl.
  rewrite list_lookup_insert_eq by done. simpl. rewrite Hl. simpl.
  destruct (lookup_lt_is_Some_2 (colls w1) c Hc) as [C HC].
  unfold clear. simpl. rewrite HC. simpl.
  rewrite list_lookup_insert_eq by (by rewrite Hsubs). simpl.
  unfold store_sub, store_coll. simpl. by rewrite list_insert_insert_eq, Hsubs.
Qed.

(** Once a closure has been called, calling it again changes nothing, also
    after a registry has been cleared. *)
Lemma unsubscribe_used_up l w w1 c w' :
  closed w → unsubscribe l w = Some w1 →
  heap w' = heap w1 → colls w' = <[c := mkCollection None None]> (colls w1) →
  unsubscribe l w' = Some w'.
Proof.
  intros Hcl Hun Hh Hc.
  destruct (heap w !! l) as [cell|] eqn:Hcell;
    [|by unfold unsubscribe in Hun; rewrite Hcell in Hun].
  assert (Hdead : flag_of (heap w1) l = Some false → unsubscribe l w' = Some w').
  { intros Hf. unfold flag_of in Hf. rewrite <- Hh in Hf.
    destruct (heap w' !! l) as [cell'|] eqn:Hcell'; [|done]. simpl in Hf.
    apply (unsubscribe_dead l w' cell'); [done|congruence]. }
  destruct (isSubscribed cell) eqn:Hflag.
  - pose proof Hcl as (Hcn & Hcp & Hsc & _).
    destruct (lookup_lt_is_Some_2 (colls w) (scope cell)) as [C HC].
    { apply (Hsc l). unfold scope_of. by rewrite Hcell. }
    destruct (first C) as [f0|] eqn:Hfirst.
    + destruct (unsubscribe_effect l w cell C Hcell Hflag HC)
        as (w2 & Hun2 & _ & _ & _ & _ & Hal & _);
        [by rewrite Hfirst|by apply Hcn|by apply Hcp|].
      rewrite Hun in Hun2. injection Hun2 as <-. apply Hdead.
      destruct (unsubscribe_flags _ _ _ Hun) as ([->|Hf] & _); [|done].
      exfalso. assert (Ha : alive (heap w) (scope cell) l) by (by exists cell).
      apply Hal in Ha as [_ Hne]. done.
    + rewrite (unsubscribe_empty l w cell C Hcell HC Hfirst) in Hun.
      injection Hun as <-.
      rewrite <- Hh in Hcell.
      destruct (decide (scope cell = c)) as [Heq|Hne].
      * apply (unsubscribe_empty l w' cell (mkCollection None None)); [done| |done].
        rewrite Hc, Heq. apply list_lookup_insert_eq. rewrite <- Heq.
        by eapply lookup_lt_Some.
      * apply (unsubscribe_empty l w' cell C); [done| |done].
        rewrite Hc. by rewrite list_lookup_insert_ne.
  - rewrite (unsubscribe_dead l w cell Hcell Hflag) in Hun. injection Hun as <-.
    apply Hdead. unfold flag_of. rewrite Hcell. simpl. by rewrite Hflag.
Qed.

Lemma sentinel_is_inert s w'' :
  getListeners s w'' = Some NullListeners →
  (∀ m, notifyNestedSubs m s w'' = Some w'') ∧
  (getListeners s w'' ≫= λ r, ref_get r w'') = Some [].
Proof.
  intros Hnull. unfold getListeners in Hnull.
  apply bind_Some in Hnull as (S'' & HS'' & Hnull). injection Hnull as Hnull.
  split.
  - intros m. unfold notifyNestedSubs, notifyNestedSubs_with.
    rewrite HS''. simpl. by rewrite Hnull.
  - unfold getListeners. rewrite HS''. simpl. by rewrite Hnull.
Qed.

(** C9.  In every reachable world [tryUnsubscribe] on an attached node
    returns, and afterwards the node's registry is the sentinel:
    [notifyNestedSubs()] returns without invoking anything or changing the
    world, [getListeners().get()] returns the empty sequence, the registry
    the node had is empty, nothing was invoked by the call, and the closure
    the node held has been called (calling it again changes nothing).  The
    sentinel's behaviour holds of every later world in which the registry
    is still the sentinel. *)
Theorem tryUnsubscribe_leaves_sentinel
    (n : nat) (s : sid) (w : World) (Sb : Subscription) :
  reachable w → subs w !! s = Some Sb → is_Some (s_unsubscribe Sb) →
  ∃ w', tryUnsubscribe (S n) s w = Some w' ∧
    getListeners s w' = Some NullListeners ∧
    sub_isSubscribed s w' = Some false ∧
    (∀ m, notifyNestedSubs m s w' = Some w') ∧
    (getListeners s w' ≫= λ r, ref_get r w') = Some [] ∧
    (∀ c, s_listeners Sb = Live c → get c w' = Some []) ∧
    trace w' = trace w ∧
    (∀ l, s_unsubscribe Sb = Some (Unsubscribe l) → unsubscribe l w' = Some w') ∧
    ∀ w'', getListeners s w'' = Some NullListeners →
      (∀ m, notifyNestedSubs m s w'' = Some w'') ∧
      (getListeners s w'' ≫= λ r, ref_get r w'') = Some [].
Proof.
  intros Hr HS [u Hu]. destruct (reachable_wf w Hr) as [Hcl Hsubs].
  pose proof (lookup_lt_Some _ _ _ HS) as Hs.
  destruct (Hsubs s Sb HS) as (_ & _ & Hatt). unfold attached_ok in Hatt.
  rewrite Hu in Hatt. destruct u; try done.
  destruct (s_listeners Sb) as [|c] eqn:Hl; [done|]. destruct Hatt as [Hllt Hclt].
  destruct (closed_unsubscribe l w Hcl Hllt)
    as (w1 & Hun & _ & _ & Hclen & Hsubs1 & Htr).
  set (w' := mkWorld (heap w1) (<[c := mkCollection None None]> (colls w1))
               (<[s := set_listeners NullListeners (set_unsubscribe None Sb)]> (subs w))
               (trace w1)).
  assert (Hnull : getListeners s w' = Some NullListeners).
  { unfold getListeners, w'. simpl. by rewrite list_lookup_insert_eq. }
  exists w'. split.
  { unfold tryUnsubscribe.
    apply (tryUnsubscribe_with_attached _ s w Sb (Unsubscribe l) c w1);
      [done|done|done|done|done|lia]. }
  split; [done|].
  split; [unfold sub_isSubscribed, w'; simpl; by rewrite list_lookup_insert_eq|].
  destruct (sentinel_is_inert s w' Hnull) as [H1 H2].
  split; [done|]. split; [done|].
  split.
  { intros c' Hc'. injection Hc' as <-. unfold get, w'. simpl.
    rewrite list_lookup_insert_eq by lia. simpl. by destruct (length (heap w1)). }
  split; [done|].
  split.
  { intros l' Hl'. rewrite Hu in Hl'. injection Hl' as <-.
    by apply (unsubscribe_used_up l w w1 c w'). }
  apply sentinel_is_inert.
Qed.

Lemma upstream_calls_app s tr evs :
  upstream_calls s (tr ++ evs) = upstream_calls s tr + upstream_calls s evs.
Proof. unfold upstream_calls. by rewrite filter_app, length_app. Qed.

Lemma upstream_calls_ancestors s evs :
  Forall (λ e, ∃ q, q < s ∧ upstream_of q e) evs → upstream_calls s evs = 0.
Proof.
  unfold upstream_calls. induction 1 as [|e evs (q & Hq & He) _ IH]; [done|].
  rewrite filter_cons_False; [done|]. intros Hs. destruct e; simpl in *; try done;
    simplify_eq; lia.
Qed.

(** C6.  In every reachable world, [trySubscribe] returns and a second
    [trySubscribe] right after it returns without changing the world; over
    the two calls the upstream subscribe mechanism (the parent's
    [addNestedSub], or the store's [subscribe]) is invoked for the node
    exactly once if the node was detached, and not at all if it was
    attached.  [tryUnsubscribe] on a detached node returns without changing
    the world, so it calls nothing. *)
Theorem trySubscribe_tryUnsubscribe_idempotent
    (w : World) (s : sid) (S : Subscription) (n : nat) :
  reachable w → subs w !! s = Some S → s ≤ n →
  (∃ w1, trySubscribe n s w = Some w1 ∧ trySubscribe n s w1 = Some w1 ∧
     sub_isSubscribed s w1 = Some true ∧
     upstream_calls s (trace w1) =
       upstream_calls s (trace w) +
       match s_unsubscribe S with Some _ => 0 | None => 1 end) ∧
  (s_unsubscribe S = None → ∀ m, tryUnsubscribe m s w = Some w).
Proof.
  intros Hwf%reachable_wf HS Hn. split.
  - destruct (trySubscribe_wf n s w Hn Hwf) as (w1 & H1 & Hpost);
      [by eapply lookup_lt_Some|].
    destruct Hpost as (S' & c & l & evs & _ & _ & _ & _ & HS' & Hls & Hu & Htr & Hevs & Hcase).
    exists w1. split; [done|]. split; [|split].
    + unfold trySubscribe, trySubscribe_with. rewrite HS'. simpl. by rewrite Hu.
    + unfold sub_isSubscribed. rewrite HS'. simpl. by rewrite Hu.
    + specialize (Hcase S HS). rewrite Htr, upstream_calls_app. f_equal.
      destruct (s_unsubscribe S).
      * subst w1. assert (evs = []) as ->; [|done].
        apply (f_equal length) in Htr. rewrite length_app in Htr.
        destruct evs; [done|simpl in Htr; lia].
      * destruct Hcase as (e & evs' & -> & He & Hevs').
        change (e :: evs') with ([e] ++ evs').
        rewrite upstream_calls_app, (upstream_calls_ancestors s evs') by done.
        unfold upstream_calls. by rewrite filter_cons_True.
  - intros Hu m. unfold tryUnsubscribe, tryUnsubscribe_with. rewrite HS. simpl.
    by rewrite Hu.
Qed.

(** ** Quiet callbacks and the tree scenario *)

Lemma logs_nil w : logs [] w = w.
Proof. destruct w. unfold logs. simpl. by rewrite app_nil_r. Qed.

Lemma logs_logs evs1 evs2 w : logs evs2 (logs evs1 w) = logs (evs1 ++ evs2) w.
Proof. unfold logs. simpl. by rewrite app_assoc. Qed.

Lemma same_store_logs w w2 evs : same_store w w2 → same_store w (logs evs w2).
Proof. done. Qed.

Lemma walk_quiet n c E w :
  reg_ok w c →
  (∀ x f, alive (heap w) c x → cb_of (heap w) x = Some f → quiet n f w (E f)) →
  ∀ k b o w2, same_store w w2 →
    least (alive (heap w) c) b o → b ≤ length (heap w) →
    length (rest w c b) ≤ k →
    walk (call n) k o w2 = Some (logs (pass_events E w c b) w2).
Proof.
  intros Hok Hq. pose proof Hok as (C0 & _ & _ & _ & Hlinks).
  assert (Hnone : ∀ k b w2, least (alive (heap w) c) b None →
            walk (call n) k None w2 = Some (logs (pass_events E w c b) w2)).
  { intros k b w2 Ho. unfold pass_events, rest.
    rewrite filter_seq_none; [|intros z Hbz _ Hz; by eapply Ho].
    simpl. rewrite logs_nil. by destruct k. }
  induction k as [|k IH]; intros b o w2 Hsame Ho Hb Hk.
  - destruct o as [y|]; [|by apply Hnone].
    destruct Ho as (Hy & Hby & Hmin).
    rewrite (rest_cons c w b y) in Hk by done. simpl in Hk. lia.
  - destruct o as [y|]; [|by apply Hnone].
    destruct Ho as (Hy & Hby & Hmin).
    unfold pass_events. rewrite (rest_cons c w b y) in Hk |- * by done.
    simpl in Hk. simpl. destruct Hsame as (Hh & Hc & Hs).
    pose proof Hy as (cell & Hcell & _). rewrite Hh, Hcell. simpl.
    assert (Hcb : cb_of (heap w) y = Some (callback (obj cell)))
      by (unfold cb_of; by rewrite Hcell).
    rewrite (Hq y _ Hy Hcb (log (EvInvoke y) w2)) by done. simpl.
    rewrite Hh, Hcell. simpl.
    destruct (Hlinks y Hy) as [Hnext _]. unfold nxt in Hnext.
    rewrite Hcell in Hnext. simpl in Hnext.
    rewrite (IH (S y) (next (obj cell))
               (logs (E (callback (obj cell))) (log (EvInvoke y) w2)));
      [|done|done|by eapply alive_lt|lia].
    f_equal. rewrite Hcb. simpl. unfold pass_events, logs, log. simpl. f_equal.
    by rewrite <- !app_assoc.
Qed.

Lemma cb_of_alive h c x : alive h c x → is_Some (cb_of h x).
Proof. intros (cell & Hcell & _). unfold cb_of. rewrite Hcell. by eexists. Qed.

Lemma marks_app tr1 tr2 : marks (tr1 ++ tr2) = marks tr1 ++ marks tr2.
Proof. unfold marks. apply omap_app. Qed.

Lemma marks_pass_events E w c :
  marks (pass_events E w c 0) = flat_map (λ f, marks (E f)) (cbs w c).
Proof.
  unfold pass_events, cbs, rest, live. rewrite Nat.sub_0_r.
  set (ls := filter (alive (heap w) c) (seq 0 (length (heap w)))).
  assert (Hls : ∀ x, x ∈ ls → alive (heap w) c x)
    by (intros x Hx; by apply list_elem_of_filter in Hx as [? _]).
  clearbody ls. induction ls as [|x ls IH]; [done|]. simpl.
  destruct (cb_of_alive _ _ _ (Hls x ltac:(by left))) as [f Hf]. rewrite Hf. simpl.
  rewrite marks_app, IH by (intros; apply Hls; by right). done.
Qed.

Lemma quiet_Mark n k w : quiet (S n) (Mark k) w [EvMark k].
Proof. intros w2 _. done. Qed.

(** The change handler of a live node whose [onStateChange] is its
    [notifyNestedSubs] runs a pass over the node's registry. *)
Lemma quiet_handleChangeWrapper n s c E w Sb :
  subs w !! s = Some Sb → onStateChange Sb = Some (NotifyNestedSubs s) →
  s_listeners Sb = Live c → reg_ok w c →
  (∀ x f, alive (heap w) c x → cb_of (heap w) x = Some f → quiet n f w (E f)) →
  length (live w c) ≤ n →
  quiet (S (S n)) (HandleChangeWrapper s) w (pass_events E w c 0).
Proof.
  intros HS Hon Hls Hok Hq Hn w2 Hsame. pose proof Hsame as (Hh & Hc & Hs).
  simpl. unfold handleChangeWrapper_with. rewrite Hs, HS. simpl. rewrite Hon.
  simpl. unfold notifyNestedSubs_with. rewrite Hs, HS. simpl. rewrite Hls. simpl.
  unfold notify_with, batch. pose proof Hok as (C & HC & Hf & _).
  rewrite Hc, HC. simpl.
  apply (walk_quiet n c E w Hok Hq n 0 (first C) w2 Hsame Hf); [lia|].
  unfold rest. by rewrite Nat.sub_0_r.
Qed.

Lemma omap_ext_in {A B} (f g : A → option B) (l : list A) :
  (∀ x, x ∈ l → f x = g x) → omap f l = omap g l.
Proof.
  induction l as [|a l IH]; intros Hfg; [done|]. simpl.
  rewrite (Hfg a) by (by left).
  assert (omap f l = omap g l) as Heq by (apply IH; intros; apply Hfg; by right).
  destruct (g a); [f_equal|]; exact Heq.
Qed.

Lemma subscribe_cbs c f w :
  closed w → reg_ok w c →
  ∃ w', subscribe c f w = Some (Unsubscribe (length (heap w)), w') ∧
    closed w' ∧ subs w' = subs w ∧ trace w' = trace w ∧
    length (colls w') = length (colls w) ∧
    (∀ c', reg_ok w c' → reg_ok w' c') ∧
    cbs w' c = cbs w c ++ [f] ∧
    (∀ c', c' ≠ c → cbs w' c' = cbs w c').
Proof.
  intros Hcl Hok.
  destruct (subscribe_live_effect c f w Hok) as
    (w' & Hsub & Hlen & Hsubs & Htr & Hclen & Halive & Hcb & _).
  assert (Hc : c < length (colls w)).
  { destruct Hok as (C & HC & _). by eapply lookup_lt_Some. }
  destruct (closed_subscribe c f w Hcl Hc) as (w2 & C' & Hsub2 & Hcl2 & _).
  rewrite Hsub in Hsub2. injection Hsub2 as <-.
  exists w'. do 5 (split; [done|]).
  split; [intros c' Hok'; exact (reg_ok_subscribe w c c' f _ w' Hok Hok' Hsub)|].
  assert (Hlive : ∀ c', live w' c' =
            live w c' ++ (if decide (c' = c) then [length (heap w)] else [])).
  { intros c'. unfold live. rewrite Hlen, seq_S, filter_app. simpl. f_equal.
    - apply filter_ext_in. intros x [_ Hx]%elem_of_seq. rewrite Halive.
      split; [intros [|[_ ->]]; [done|lia]|by left].
    - destruct (decide (c' = c)) as [->|Hne].
      + rewrite filter_cons_True; [done|]. apply Halive. by right.
      + rewrite filter_cons_False; [done|]. intros [Hal|[? _]]%Halive; [|done].
        apply alive_lt in Hal. lia. }
  assert (Hold : ∀ c', omap (cb_of (heap w')) (live w c') = cbs w c').
  { intros c'. apply omap_ext_in. intros x Hx%elem_of_live. rewrite Hcb.
    apply alive_lt in Hx. by rewrite decide_False by lia. }
  split.
  - unfold cbs at 1. rewrite Hlive, decide_True, omap_app, Hold by done. simpl.
    by rewrite Hcb, decide_True.
  - intros c' Hne. unfold cbs at 1.
    by rewrite Hlive, decide_False, app_nil_r, Hold.
Qed.

Lemma closed_scoped w : closed w → scoped w.
Proof.
  intros (_ & _ & Hs & _) l cell Hl. apply (Hs l). unfold scope_of. by rewrite Hl.
Qed.

Lemma marks_snoc_other tr e :
  (∀ k, e ≠ EvMark k) → marks (tr ++ [e]) = marks tr.
Proof.
  intros He. rewrite marks_app. destruct e; simpl; try by rewrite app_nil_r.
  by destruct (He k).
Qed.

Lemma tree_inv1_add fsP w k :
  tree_inv1 fsP w →
  ∃ r, addNestedSub 2 0 (Mark k) w = Some r ∧ tree_inv1 (fsP ++ [Mark k]) r.2.
Proof.
  intros (Hcl & Hok0 & Hok1 & Hc0 & Hc1 & Hm & Hlen & Hsubs).
  destruct (subscribe_cbs 1 (Mark k) (log (EvAddNestedSub 0 (Mark k)) w) Hcl Hok1)
    as (w' & Hsub & Hcl' & Hsubs' & Htr' & Hlen' & Hok' & Hcbs & Hother).
  simpl in *. unfold trySubscribe_with. simpl. rewrite Hsubs. simpl.
  rewrite Hsubs. simpl. rewrite Hsub. eexists. split; [done|]. simpl.
  split; [done|]. split; [by apply Hok'|]. split; [by apply Hok'|].
  split; [by rewrite Hother|]. split; [by rewrite Hcbs, <- Hc1|].
  split; [by rewrite Htr', marks_snoc_other|]. split; [lia|]. by rewrite Hsubs'.
Qed.

Lemma tree_inv1_add_all ks : ∀ fsP w,
  tree_inv1 fsP w →
  ∃ w', add_all 2 0 ks w = Some w' ∧ tree_inv1 (fsP ++ (Mark <$> ks)) w'.
Proof.
  induction ks as [|k ks IH]; intros fsP w Hinv.
  - exists w. simpl. by rewrite app_nil_r.
  - destruct (tree_inv1_add fsP w k Hinv) as (r & Hr & Hinv').
    destruct (IH _ _ Hinv') as (w' & Hw' & Hinv'').
    exists w'. cbn [add_all]. rewrite Hr. simpl. split; [done|].
    by rewrite <- app_assoc in Hinv''.
Qed.

Lemma reg_ok_ext w w' c :
  heap w' = heap w → colls w' = colls w → reg_ok w c → reg_ok w' c.
Proof. unfold reg_ok. intros -> ->. done. Qed.

Lemma cbs_ext w w' c : heap w' = heap w → cbs w' c = cbs w c.
Proof. unfold cbs, live. by intros ->. Qed.

Lemma cbs_none w c : (∀ z, ¬ alive (heap w) c z) → cbs w c = [].
Proof.
  intros Hno. unfold cbs, live. rewrite filter_seq_none; [done|].
  intros z _ _. apply Hno.
Qed.

Lemma tree_inv2_add fsP fsC w k :
  tree_inv2 fsP fsC w →
  ∃ r, addNestedSub 2 1 (Mark k) w = Some r ∧ tree_inv2 fsP (fsC ++ [Mark k]) r.2.
Proof.
  intros (Hcl & Hok0 & Hok1 & Hok2 & Hc0 & Hc1 & Hc2 & Hm & Hlen & l & Hsubs).
  destruct (subscribe_cbs 2 (Mark k) (log (EvAddNestedSub 1 (Mark k)) w) Hcl Hok2)
    as (w' & Hsub & Hcl' & Hsubs' & Htr' & Hlen' & Hok' & Hcbs & Hother).
  simpl in *. unfold trySubscribe_with. simpl. rewrite Hsubs. simpl.
  rewrite Hsubs. simpl. rewrite Hsub. eexists. split; [done|]. simpl.
  split; [done|]. do 3 (split; [by apply Hok'|]).
  split; [by rewrite Hother|]. split; [by rewrite Hother|].
  split; [by rewrite Hcbs, <- Hc2|].
  split; [by rewrite Htr', marks_snoc_other|]. split; [lia|].
  exists l. by rewrite Hsubs'.
Qed.

Lemma tree_inv1_addC fsP w k :
  tree_inv1 fsP w →
  ∃ r, addNestedSub 2 1 (Mark k) w = Some r ∧
    tree_inv2 (fsP ++ [HandleChangeWrapper 1]) [Mark k] r.2.
Proof.
  intros (Hcl & Hok0 & Hok1 & Hc0 & Hc1 & Hm & Hlen & Hsubs).
  set (w0 := log (EvAddNestedSub 0 (HandleChangeWrapper 1))
               (log (EvAddNestedSub 1 (Mark k)) w)).
  (* C attaches: P.addNestedSub(C.handleChangeWrapper) *)
  destruct (subscribe_cbs 1 (HandleChangeWrapper 1) w0 Hcl Hok1)
    as (w1 & Hsub1 & Hcl1 & Hsubs1 & Htr1 & Hlen1 & Hok1' & Hcbs1 & Hother1).
  (* listeners = createListenerCollection() *)
  set (w4 := mkWorld (heap w1) (colls w1 ++ [mkCollection None None])
               [P_rec; C_attached (length (heap w))] (trace w1)).
  assert (Hcl4 : closed w4).
  { eapply (closed_ext (createListenerCollection w1).2); [done|done|].
    by apply closed_create. }
  assert (Hlen1' : length (colls w1) = 2) by (simpl in Hlen1; lia).
  assert (Hok4 : ∀ c, reg_ok w1 c → reg_ok w4 c).
  { intros c Hc. eapply (reg_ok_ext (createListenerCollection w1).2); [done|done|].
    by apply reg_ok_create. }
  assert (Hok42 : reg_ok w4 2).
  { eapply (reg_ok_ext (createListenerCollection w1).2); [done|done|].
    pose proof (reg_ok_fresh w1 (closed_scoped _ Hcl1)) as Hfresh.
    simpl in Hfresh. by rewrite Hlen1' in Hfresh. }
  assert (Hc42 : cbs w4 2 = []).
  { apply cbs_none. intros z (cell & Hcell & Hsc & _).
    apply (closed_scoped _ Hcl1) in Hcell. lia. }
  (* listeners.subscribe(listener) *)
  destruct (subscribe_cbs 2 (Mark k) w4 Hcl4 Hok42)
    as (w5 & Hsub5 & Hcl5 & Hsubs5 & Htr5 & Hlen5 & Hok5 & Hcbs5 & Hother5).
  unfold w0 in *. clear w0.
  simpl in *. unfold trySubscribe_with. simpl. rewrite Hsubs. simpl.
  rewrite Hsubs. simpl.
  rewrite Hsub1. simpl. rewrite Hsubs1, Hsubs. simpl.
  rewrite Hlen1'. eexists. split; [exact Hsub5|]. simpl.
  split; [done|].
  split; [by apply Hok5, Hok4, Hok1'|]. split; [by apply Hok5, Hok4, Hok1'|].
  split; [by apply Hok5|].
  split; [rewrite Hother5 by done; rewrite (cbs_ext w1 w4) by done;
          by rewrite Hother1|].
  split; [rewrite Hother5 by done; rewrite (cbs_ext w1 w4) by done;
          by rewrite Hcbs1, <- Hc1|].
  split; [by rewrite Hcbs5, Hc42|].
  split.
  { rewrite Htr5. simpl. rewrite Htr1.
    by rewrite !marks_snoc_other. }
  split; [rewrite Hlen5; simpl; rewrite length_app; simpl; lia|].
  exists (length (heap w)). by rewrite Hsubs5.
Qed.

Lemma tree_inv2_add_all ks : ∀ fsP fsC w,
  tree_inv2 fsP fsC w →
  ∃ w', add_all 2 1 ks w = Some w' ∧ tree_inv2 fsP (fsC ++ (Mark <$> ks)) w'.
Proof.
  induction ks as [|k ks IH]; intros fsP fsC w Hinv.
  - exists w. simpl. by rewrite app_nil_r.
  - destruct (tree_inv2_add fsP fsC w k Hinv) as (r & Hr & Hinv').
    destruct (IH _ _ _ Hinv') as (w' & Hw' & Hinv'').
    exists w'. cbn [add_all]. rewrite Hr. simpl. split; [done|].
    by rewrite <- app_assoc in Hinv''.
Qed.

Lemma tree_inv2_addP fsP fsC w k :
  tree_inv2 fsP fsC w →
  ∃ r, addNestedSub 2 0 (Mark k) w = Some r ∧ tree_inv2 (fsP ++ [Mark k]) fsC r.2.
Proof.
  intros (Hcl & Hok0 & Hok1 & Hok2 & Hc0 & Hc1 & Hc2 & Hm & Hlen & l & Hsubs).
  destruct (subscribe_cbs 1 (Mark k) (log (EvAddNestedSub 0 (Mark k)) w) Hcl Hok1)
    as (w' & Hsub & Hcl' & Hsubs' & Htr' & Hlen' & Hok' & Hcbs & Hother).
  simpl in *. unfold trySubscribe_with. simpl. rewrite Hsubs. simpl.
  rewrite Hsubs. simpl. rewrite Hsub. eexists. split; [done|]. simpl.
  split; [done|]. do 3 (split; [by apply Hok'|]).
  split; [by rewrite Hother|]. split; [by rewrite Hcbs, <- Hc1|].
  split; [by rewrite Hother|].
  split; [by rewrite Htr', marks_snoc_other|]. split; [lia|].
  exists l. by rewrite Hsubs'.
Qed.

Lemma tree_inv2_addP_all ks : ∀ fsP fsC w,
  tree_inv2 fsP fsC w →
  ∃ w', add_all 2 0 ks w = Some w' ∧ tree_inv2 (fsP ++ (Mark <$> ks)) fsC w'.
Proof.
  induction ks as [|k ks IH]; intros fsP fsC w Hinv.
  - exists w. simpl. by rewrite app_nil_r.
  - destruct (tree_inv2_addP fsP fsC w k Hinv) as (r & Hr & Hinv').
    destruct (IH _ _ _ Hinv') as (w' & Hw' & Hinv'').
    exists w'. cbn [add_all]. rewrite Hr. simpl. split; [done|].
    by rewrite <- app_assoc in Hinv''.
Qed.

Lemma tree_inv1_base : ∃ w, tree_base = Some w ∧ tree_inv1 [] w.
Proof.
  eexists. split; [vm_compute; reflexivity|].
  set (w0 := (createStore init).2).
  assert (Hok0 : reg_ok w0 0) by apply (reg_ok_fresh init scoped_init).
  assert (Hcl0 : closed w0) by apply closed_create, wf_init.
  destruct (subscribe_cbs 0 (HandleChangeWrapper 0)
              (log (EvStoreSubscribe 0 (HandleChangeWrapper 0)) w0) Hcl0 Hok0)
    as (w1 & Hsub & Hcl1 & _ & _ & _ & Hok1 & Hcbs & _).
  vm_compute in Hsub. injection Hsub as <-.
  pose proof (reg_ok_fresh _ (closed_scoped _ Hcl1)) as Hfresh.
  pose proof (closed_create _ Hcl1) as Hcl2.
  pose proof (reg_ok_create _ 0 (Hok1 0 Hok0)) as Hok2.
  split; [exact Hcl2|]. split; [exact Hok2|]. split; [exact Hfresh|].
  split; [exact Hcbs|]. split; [|done].
  apply cbs_none. intros z (cell & Hcell & Hsc & _).
  destruct z as [|z]; simpl in Hcell; [|done]. by simplify_eq.
Qed.

Lemma cb_in_cbs w c x f :
  alive (heap w) c x → cb_of (heap w) x = Some f → f ∈ cbs w c.
Proof.
  intros Hx Hf. unfold cbs. apply list_elem_of_omap. exists x.
  split; [by apply elem_of_live|done].
Qed.

Lemma length_cbs w c : length (cbs w c) = length (live w c).
Proof.
  unfold cbs.
  assert (Hls : ∀ x, x ∈ live w c → alive (heap w) c x)
    by (intros x Hx; by apply elem_of_live).
  induction (live w c) as [|x ls IH]; [done|]. simpl.
  destruct (cb_of_alive _ _ _ (Hls x ltac:(by left))) as [f Hf]. rewrite Hf. simpl.
  f_equal. apply IH. intros; apply Hls; by right.
Qed.

Lemma flat_map_marks_Mark (E : VoidFunc → list Event) ks :
  (∀ k, E (Mark k) = [EvMark k]) →
  flat_map (λ f, marks (E f)) (Mark <$> ks) = ks.
Proof.
  intros HE. induction ks as [|k ks IH]; [done|].
  rewrite fmap_cons. cbn [flat_map]. rewrite HE. simpl. f_equal. exact IH.
Qed.

Lemma quiet_leaves n w c ks :
  cbs w c = Mark <$> ks →
  ∀ x f, alive (heap w) c x → cb_of (heap w) x = Some f →
    quiet (S n) f w (leaf_events f).
Proof.
  intros Hcbs x f Hx Hf. pose proof (cb_in_cbs _ _ _ _ Hx Hf) as Hin.
  rewrite Hcbs in Hin. apply list_elem_of_fmap in Hin as (k & -> & _).
  apply quiet_Mark.
Qed.

Lemma store_change_quiet n w E :
  reg_ok w 0 → cbs w 0 = [HandleChangeWrapper 0] →
  quiet (S n) (HandleChangeWrapper 0) w E →
  ∃ w', store_change (S n) 0 w = Some w' ∧
    marks (trace w') = marks (trace w) ++ marks E.
Proof.
  intros Hok Hcbs Hq. pose proof Hok as (C & HC & Hf & _).
  assert (Hwalk : walk (call (S n)) (S n) (first C) w =
            Some (logs (pass_events (λ _, E) w 0 0) w)).
  { apply (walk_quiet (S n) 0 (λ _, E) w Hok); [|done|done|lia|].
    - intros x f Hx Hcb. pose proof (cb_in_cbs _ _ _ _ Hx Hcb) as Hin.
      rewrite Hcbs in Hin. by apply list_elem_of_singleton in Hin as ->.
    - unfold rest. rewrite Nat.sub_0_r. fold (live w 0).
      rewrite <- length_cbs, Hcbs. simpl. lia. }
  eexists. split.
  - unfold store_change, notify, notify_with, batch. rewrite HC. exact Hwalk.
  - cbn [logs trace]. rewrite marks_app, marks_pass_events, Hcbs. simpl.
    by rewrite app_nil_r.
Qed.

Lemma change_detached ks w n :
  tree_inv1 (Mark <$> ks) w → length ks + 3 ≤ n →
  ∃ w', store_change n 0 w = Some w' ∧ marks (trace w') = ks.
Proof.
  intros (Hcl & Hok0 & Hok1 & Hc0 & Hc1 & Hm & Hlen & Hsubs) Hn.
  destruct n as [|[|[|n]]]; try lia.
  destruct (store_change_quiet (S (S n)) w (pass_events leaf_events w 1 0) Hok0 Hc0)
    as (w' & Hw' & Hmarks).
  - apply (quiet_handleChangeWrapper (S n) 0 1 leaf_events w P_rec);
      [by rewrite Hsubs|done|done|done|by eapply quiet_leaves|].
    rewrite <- length_cbs, Hc1, length_fmap. lia.
  - exists w'. split; [done|].
    rewrite Hmarks, Hm, marks_pass_events, Hc1. simpl.
    by apply flat_map_marks_Mark.
Qed.

Lemma change_attached ksP ksC ksP' w n :
  tree_inv2 (((Mark <$> ksP) ++ [HandleChangeWrapper 1]) ++ (Mark <$> ksP'))
            (Mark <$> ksC) w →
  length ksP + length ksC + length ksP' + 5 ≤ n →
  ∃ w', store_change n 0 w = Some w' ∧ marks (trace w') = ksP ++ ksC ++ ksP'.
Proof.
  intros (Hcl & Hok0 & Hok1 & Hok2 & Hc0 & Hc1 & Hc2 & Hm & Hlen & l & Hsubs) Hn.
  destruct n as [|[|[|[|[|n]]]]]; try lia.
  assert (HqC : quiet (S (S (S n))) (HandleChangeWrapper 1) w
                  (pass_events leaf_events w 2 0)).
  { apply (quiet_handleChangeWrapper (S n) 1 2 leaf_events w (C_attached l));
      [by rewrite Hsubs|done|done|done|by eapply quiet_leaves|].
    rewrite <- length_cbs, Hc2, length_fmap. lia. }
  destruct (store_change_quiet (S (S (S (S n)))) w
              (pass_events (node_events w 2) w 1 0) Hok0 Hc0)
    as (w' & Hw' & Hmarks).
  - apply (quiet_handleChangeWrapper (S (S (S n))) 0 1 (node_events w 2) w P_rec);
      [by rewrite Hsubs|done|done|done| |].
    + intros x f Hx Hf. pose proof (cb_in_cbs _ _ _ _ Hx Hf) as Hin.
      rewrite Hc1 in Hin.
      apply elem_of_app in Hin as [Hin|(k & -> & _)%list_elem_of_fmap];
        [|by apply quiet_Mark].
      apply elem_of_app in Hin as [(k & -> & _)%list_elem_of_fmap
                                  | ->%list_elem_of_singleton].
      * apply quiet_Mark.
      * exact HqC.
    + rewrite <- length_cbs, Hc1, !length_app, !length_fmap. simpl. lia.
  - exists w'. split; [done|].
    rewrite Hmarks, Hm, marks_pass_events, Hc1. simpl.
    rewrite !flat_map_app, !flat_map_marks_Mark by done. simpl.
    rewrite app_nil_r, marks_pass_events, Hc2.
    rewrite flat_map_marks_Mark by done. by rewrite <- app_assoc.
Qed.

(** C2.  In the tree of the specification's scenario (P attached to the
    store, C with parent P), with terminal listeners [ksP] registered on P
    before C attaches, [ksC] registered on C, and [ksP'] registered on P
    after C attached, one change of the store runs every listener exactly
    once: P's earlier listeners in order, then C's listeners in order, at
    the place of C's change handler in P's registry, then P's later
    listeners in order. *)
Theorem ancestor_listeners_run_before_descendants
    (ksP ksC ksP' : list nat) (n : nat) :
  length ksP + length ksC + length ksP' + 5 ≤ n →
  ∃ w w', tree_scenario_late ksP ksC ksP' = Some w ∧
    marks (trace w) = [] ∧
    store_change n 0 w = Some w' ∧
    marks (trace w') = ksP ++ ksC ++ ksP'.
Proof.
  intros Hn. destruct tree_inv1_base as (w0 & Hbase & Hinv0).
  destruct (tree_inv1_add_all ksP [] w0 Hinv0) as (w1 & Hadd1 & Hinv1).
  simpl in Hinv1. unfold tree_scenario_late, tree_scenario.
  rewrite Hbase. cbn [mbind option_bind]. rewrite Hadd1. cbn [mbind option_bind].
  destruct ksC as [|k ks].
  - cbn [add_all mbind option_bind].
    destruct (tree_inv1_add_all ksP' _ w1 Hinv1) as (w2 & Hadd2 & Hinv2).
    rewrite <- fmap_app in Hinv2.
    destruct (change_detached (ksP ++ ksP') w2 n Hinv2) as (w' & Hw' & Hmarks);
      [rewrite length_app; simpl in Hn; lia|].
    exists w2, w'. split; [done|]. split; [apply Hinv2|]. done.
  - destruct (tree_inv1_addC _ w1 k Hinv1) as (r & Hr & Hinv2).
    destruct (tree_inv2_add_all ks _ _ _ Hinv2) as (w2 & Hadd2 & Hinv2').
    change ([Mark k] ++ (Mark <$> ks)) with (Mark <$> (k :: ks)) in Hinv2'.
    destruct (tree_inv2_addP_all ksP' _ _ _ Hinv2') as (w3 & Hadd3 & Hinv3).
    destruct (change_attached ksP (k :: ks) ksP' w3 n Hinv3 Hn)
      as (w' & Hw' & Hmarks).
    exists w3, w'. cbn [add_all]. rewrite Hr. cbn [mbind option_bind].
    rewrite Hadd2. cbn [mbind option_bind].
    split; [done|]. split; [apply Hinv3|]. done.
Qed.

(** C2 as stated fails when a listener is registered on P after C has
    attached: C's change handler precedes it in P's registry, so the
    descendant's listener runs before that listener of the ancestor.  Both
    orders of the claim's scenario are run here: P, C, P and C, P. *)
Lemma descendant_listener_runs_before_later_ancestor_listener :
  ∃ w0 w1 w1' w2 w2',
    tree_base = Some w0 ∧
    (w ← add_all 2 0 [100] w0; w ← add_all 2 1 [200] w; add_all 2 0 [101] w) = Some w1 ∧
    marks (trace w1) = [] ∧
    store_change 7 0 w1 = Some w1' ∧
    marks (trace w1') = [100; 200; 101] ∧
    (w ← add_all 2 1 [200] w0; add_all 2 0 [100] w) = Some w2 ∧
    marks (trace w2) = [] ∧
    store_change 7 0 w2 = Some w2' ∧
    marks (trace w2') = [200; 100].
Proof. by_running. Qed.

(** The scenario with one listener on each node, event by event: the
    store invokes P's change handler (handle 0), P's pass invokes [markP]
    (handle 1) and then C's change handler (handle 2), whose pass invokes
    [markC] (handle 3). *)
Example tree_scenario_trace :
  ∃ w w', tree_scenario [100] [200] = Some w ∧
    store_change 7 0 w = Some w' ∧
    trace w' = trace w ++
      [EvInvoke 0; EvInvoke 1; EvMark 100; EvInvoke 2; EvInvoke 3; EvMark 200].
Proof. by_running. Qed.

(** ** Further properties of the listener collection *)

Lemma live_snoc_same w w' c :
  length (heap w') = S (length (heap w)) →
  (∀ z, alive (heap w') c z ↔ alive (heap w) c z ∨ z = length (heap w)) →
  live w' c = live w c ++ [length (heap w)].
Proof.
  intros Hlen Hal. unfold live. rewrite Hlen, seq_S, filter_app. simpl.
  f_equal.
  - apply filter_ext_in. intros z Hz. apply elem_of_seq in Hz. rewrite Hal.
    split; [|by left]. intros [?|?]; [done|lia].
  - rewrite filter_cons, decide_True; [done|]. apply Hal. by right.
Qed.

Lemma live_snoc_other w w' c :
  length (heap w') = S (length (heap w)) →
  (∀ z, alive (heap w') c z ↔ alive (heap w) c z) →
  live w' c = live w c.
Proof.
  intros Hlen Hal. unfold live. rewrite Hlen, seq_S, filter_app. simpl.
  rewrite filter_cons, decide_False, filter_nil, app_nil_r.
  - apply filter_ext_in. intros z _. apply Hal.
  - rewrite Hal. intros Ha%alive_lt. lia.
Qed.

(** X1.  On a registry that satisfies the list invariant, [subscribe]
    returns, and the new handle is the last one [get()] returns, behind the
    handles that were there, with the callback it was given.  The callbacks
    of the older handles and the contents of every other registry are
    unchanged. *)
Theorem subscribe_appends_at_tail (w : World) (c : cid) (cb : VoidFunc) (ls : list loc) :
  reg_ok w c → get c w = Some ls →
  ∃ w', subscribe c cb w = Some (Unsubscribe (length (heap w)), w') ∧
    get c w' = Some (ls ++ [length (heap w)]) ∧
    cb_of (heap w') (length (heap w)) = Some cb ∧
    (∀ z, z < length (heap w) → cb_of (heap w') z = cb_of (heap w) z) ∧
    reg_ok w' c ∧
    (∀ c', c' ≠ c → reg_ok w c' → reg_ok w' c' ∧ get c' w' = get c' w).
Proof.
  intros Hok Hget. rewrite (get_live w c Hok) in Hget. simplify_eq.
  destruct (subscribe_live_effect c cb w Hok)
    as (w' & Hsub & Hlen & _ & _ & _ & Hal & Hcb & _).
  exists w'. split; [done|].
  assert (Hok' : reg_ok w' c) by (by eapply (reg_ok_subscribe w c c)).
  split.
  { rewrite (get_live w' c Hok'). f_equal. apply live_snoc_same; [done|].
    intros z. rewrite Hal. naive_solver. }
  split; [by rewrite Hcb, decide_True|].
  split; [intros z Hz; rewrite Hcb, decide_False by lia; done|].
  split; [done|].
  intros c' Hne Hok1.
  assert (Hok1' : reg_ok w' c') by (by eapply (reg_ok_subscribe w c c')).
  split; [done|]. rewrite (get_live w' c' Hok1'), (get_live w c' Hok1). f_equal.
  apply live_snoc_other; [done|]. intros z. rewrite Hal. naive_solver.
Qed.

Lemma live_remove w w' c l :
  length (heap w') = length (heap w) →
  (∀ z, alive (heap w') c z ↔ alive (heap w) c z ∧ z ≠ l) →
  live w' c = filter (λ z, z ≠ l) (live w c).
Proof.
  intros Hlen Hal. unfold live. rewrite Hlen, list_filter_filter.
  apply filter_ext_in. intros z _. rewrite Hal. tauto.
Qed.

Lemma alive_views h c l :
  alive h c l ↔ scope_of h l = Some c ∧ flag_of h l = Some true.
Proof.
  unfold alive, scope_of, flag_of. destruct (h !! l) as [cell|]; simpl.
  - split.
    + intros (x & Hx & Hs & Hf). simplify_eq. by rewrite Hf.
    + intros [H1 H2]. exists cell. by simplify_eq.
  - split; [by intros (? & ? & _)|by intros [? _]].
Qed.

(** X2.  Calling the [unsubscribe] closure of a handle that is still
    subscribed removes that handle and no other: [get()] returns the former
    list without it, in the same order, the closure's flag is cleared, and
    every other registry returns what it returned before. *)
Theorem unsubscribe_removes_its_handle (w : World) (c : cid) (l : loc) (ls : list loc) :
  reg_ok w c → scope_of (heap w) l = Some c → flag_of (heap w) l = Some true →
  get c w = Some ls →
  ∃ w', unsubscribe l w = Some w' ∧
    l ∈ ls ∧ get c w' = Some (filter (λ z, z ≠ l) ls) ∧
    flag_of (heap w') l = Some false ∧
    reg_ok w' c ∧
    (∀ c', c' ≠ c → reg_ok w c' → reg_ok w' c' ∧ get c' w' = get c' w).
Proof.
  intros Hok Hsc Hfl Hget. rewrite (get_live w c Hok) in Hget. simplify_eq.
  assert (Hal : alive (heap w) c l) by (by apply alive_views).
  destruct Hal as (cell & Hcell & Hscope & Hflag). subst c.
  destruct (unsubscribe_live_effect l w cell Hcell Hflag Hok)
    as (w' & Hun & Hlen & _ & _ & _ & Hal' & _).
  exists w'. split; [done|].
  split; [apply elem_of_live; by exists cell|].
  assert (Hok' : ∀ c', reg_ok w c' → reg_ok w' c')
    by (intros c' ?; by eapply (reg_ok_unsubscribe l w cell c')).
  split.
  { rewrite (get_live w' _ (Hok' _ Hok)). f_equal. by apply live_remove. }
  split.
  { destruct (unsubscribe_flags _ _ _ Hun) as ([->|Hf] & _); [|done].
    exfalso. assert (Ha : alive (heap w) (scope cell) l) by (by exists cell).
    apply Hal' in Ha as [_ Hne]. done. }
  split; [by apply Hok'|].
  intros c' Hne Hok1. split; [by apply Hok'|].
  rewrite (get_live w' c' (Hok' _ Hok1)), (get_live w c' Hok1). f_equal.
  rewrite (live_remove w w' c' l Hlen (Hal' c')).
  apply filter_all. intros z Hz%elem_of_live Heq. subst z.
  destruct Hz as (x & Hx & Hsx & _). by simplify_eq.
Qed.

Lemma reg_ok_last w c C :
  reg_ok w c → colls w !! c = Some C →
  match last C with
  | None => first C = None
  | Some p => ∃ cp, heap w !! p = Some cp ∧ next (obj cp) = None ∧ is_Some (first C)
  end.
Proof.
  intros (C' & HC' & Hf & Hl & Hlinks) HC.
  assert (C' = C) as -> by congruence. clear HC'.
  destruct (last C) as [p|] eqn:Hlast; simpl in Hl.
  - destruct Hl as (Hp & Hlt & Hmax). pose proof Hp as (cp & Hcp & _).
    exists cp. split; [done|]. split.
    + destruct (Hlinks p Hp) as [Hn _]. unfold nxt in Hn. rewrite Hcp in Hn. simpl in Hn.
      destruct (next (obj cp)) as [z|]; [|done]. simpl in Hn.
      destruct Hn as (Hz & Hle & _). pose proof (alive_lt _ _ _ Hz).
      specialize (Hmax z Hz ltac:(done)). lia.
    + destruct (first C) as [f|]; [by eexists|]. simpl in Hf.
      exfalso. apply (Hf p Hp). lia.
  - destruct (first C) as [f|]; [|done]. simpl in Hf. destruct Hf as (Hfa & _).
    exfalso. apply (Hl f Hfa). by eapply alive_lt.
Qed.

(** [subscribe] followed by the closure it returned, the latter run in any
    world with the same heap and with more registries. *)
Lemma subscribe_unsubscribe_core c cb w C :
  reg_ok w c → colls w !! c = Some C →
  ∃ w1, subscribe c cb w = Some (Unsubscribe (length (heap w)), w1) ∧
    subs w1 = subs w ∧ trace w1 = trace w ∧ length (colls w1) = length (colls w) ∧
    length (heap w1) = S (length (heap w)) ∧
    ∀ w1' extra, heap w1' = heap w1 → colls w1' = colls w1 ++ extra →
      unsubscribe (length (heap w)) w1' =
        Some (mkWorld (heap w ++ [mkCell (mkListener cb None (last C)) c false])
                      (colls w ++ extra) (subs w1') (trace w1')).
Proof.
  intros Hok HC. pose proof (reg_ok_last w c C Hok HC) as Hlast.
  pose proof (lookup_lt_Some _ _ _ HC) as Hclt.
  unfold subscribe. rewrite HC. simpl.
  rewrite lookup_snoc, decide_True by done. simpl.
  destruct C as [fC lC]. simpl in *. destruct lC as [p|]; simpl.
  - destruct Hlast as (cp & Hcp & Hnext & [f0 ->]).
    pose proof (lookup_lt_Some _ _ _ Hcp) as Hplt.
    rewrite lookup_snoc, decide_False by lia. rewrite Hcp. simpl.
    eexists. split; [reflexivity|]. simpl.
    split; [done|]. split; [done|]. split; [by rewrite length_insert|].
    split; [by rewrite length_insert, length_app; simpl; lia|].
    intros [h' c' s' t'] extra Hh Hc. simpl in *. subst h' c'.
    set (l := length (heap w)) in *.
    set (cell0 := mkCell (mkListener cb None (Some p)) c true).
    set (cp1 := upd_obj (set_next (Some l)) cp).
    set (h1 := <[p := cp1]> (heap w ++ [cell0])).
    set (cs1 := <[c := set_last (Some l) (mkCollection (Some f0) (Some p))]> (colls w) ++ extra).
    assert (Hlen1 : length h1 = S l)
      by (unfold h1; rewrite length_insert, length_app; simpl; lia).
    assert (Hl1 : h1 !! l = Some cell0).
    { unfold h1. rewrite list_lookup_insert_ne by lia.
      by rewrite lookup_snoc, decide_True. }
    assert (Hc1 : cs1 !! c = Some (mkCollection (Some f0) (Some l))).
    { unfold cs1. rewrite lookup_app_l by (by rewrite length_insert).
      by rewrite list_lookup_insert_eq. }
    unfold unsubscribe. simpl. rewrite Hl1. simpl. rewrite Hc1. simpl.
    rewrite (list_lookup_insert_eq h1) by lia. simpl.
    rewrite (list_lookup_insert_eq h1) by lia. simpl.
    assert (Hp1 : h1 !! p = Some cp1).
    { unfold h1. apply list_lookup_insert_eq. rewrite length_app. simpl. lia. }
    rewrite list_lookup_insert_ne by lia. rewrite Hp1. simpl.
    unfold store_cell, store_coll. simpl. f_equal. f_equal.
    + apply list_eq. intros i.
      destruct (decide (i = p)) as [->|Hip].
      * rewrite list_lookup_insert_eq by (rewrite length_insert; lia).
        rewrite lookup_app_l, Hcp by done. f_equal.
        unfold cp1. destruct cp as [[? ? ?] ? ?]. simpl in *. by subst.
      * rewrite list_lookup_insert_ne by done.
        destruct (decide (i = l)) as [->|Hil].
        -- rewrite list_lookup_insert_eq by lia.
           by rewrite lookup_snoc, decide_True.
        -- rewrite list_lookup_insert_ne by done. unfold h1.
           rewrite list_lookup_insert_ne by done.
           by rewrite !lookup_snoc, !decide_False.
    + unfold cs1. rewrite insert_app_l by (by rewrite length_insert).
      rewrite list_insert_insert_eq. f_equal. by apply list_insert_id.
  - subst fC. rewrite list_lookup_insert_eq by done. simpl.
    eexists. split; [reflexivity|]. simpl.
    split; [done|]. split; [done|]. split; [by rewrite !length_insert|].
    split; [by rewrite length_app; simpl; lia|].
    intros [h' c' s' t'] extra Hh Hc. simpl in *. subst h' c'.
    set (l := length (heap w)) in *.
    set (cell0 := mkCell (mkListener cb None None) c true).
    rewrite list_insert_insert_eq.
    change (set_first (Some l) (set_last (Some l) (mkCollection None None)))
      with (mkCollection (Some l) (Some l)).
    set (cs1 := <[c := mkCollection (Some l) (Some l)]> (colls w) ++ extra).
    assert (Hl1 : (heap w ++ [cell0]) !! l = Some cell0)
      by (by rewrite lookup_snoc, decide_True).
    assert (Hc1 : cs1 !! c = Some (mkCollection (Some l) (Some l))).
    { unfold cs1. rewrite lookup_app_l by (by rewrite length_insert).
      by rewrite list_lookup_insert_eq. }
    assert (Hlen1 : length (heap w ++ [cell0]) = S l)
      by (rewrite length_app; simpl; lia).
    unfold unsubscribe. simpl. rewrite Hl1. simpl. rewrite Hc1. simpl.
    rewrite (list_lookup_insert_eq (heap w ++ [cell0])) by lia. simpl.
    rewrite (list_lookup_insert_eq cs1)
      by (unfold cs1; rewrite length_app, length_insert; lia). simpl.
    rewrite (list_lookup_insert_eq (heap w ++ [cell0])) by lia. simpl.
    unfold store_cell, store_coll. simpl. f_equal. f_equal.
    + fold l. rewrite <- (Nat.add_0_r l). unfold l.
      rewrite insert_app_r. done.
    + rewrite list_insert_insert_eq. unfold cs1.
      rewrite insert_app_l by (by rewrite length_insert).
      rewrite list_insert_insert_eq. f_equal. by apply list_insert_id.
Qed.

(** X3.  [subscribe] followed by the closure it returned is a round trip:
    [first], [last] and every listener object that existed are exactly as
    before; what remains is the unlinked listener object, whose flag is
    false. *)
Theorem subscribe_then_unsubscribe_restores (w : World) (c : cid) (cb : VoidFunc) :
  reg_ok w c →
  ∃ C w1 w2, colls w !! c = Some C ∧
    subscribe c cb w = Some (Unsubscribe (length (heap w)), w1) ∧
    unsubscribe (length (heap w)) w1 = Some w2 ∧
    w2 = mkWorld (heap w ++ [mkCell (mkListener cb None (last C)) c false])
                 (colls w) (subs w) (trace w) ∧
    ∀ c', reg_ok w c' → reg_ok w2 c' ∧ get c' w2 = get c' w.
Proof.
  intros Hok. pose proof Hok as (C & HC & _).
  destruct (subscribe_unsubscribe_core c cb w C Hok HC)
    as (w1 & Hsub & Hsubs & Htr & _ & Hlen1 & Hun).
  specialize (Hun w1 [] eq_refl (eq_sym (app_nil_r _))).
  rewrite app_nil_r, Hsubs, Htr in Hun.
  exists C, w1. eexists. split; [done|]. split; [done|]. split; [exact Hun|].
  split; [done|]. intros c' Hok'.
  assert (Hok1 : ∀ c'', reg_ok w c'' → reg_ok w1 c'')
    by (intros c'' ?; by eapply (reg_ok_subscribe w c c'')).
  destruct (lookup_lt_is_Some_2 (heap w1) (length (heap w))) as [cell Hcell]; [lia|].
  assert (Hsc : scope cell = c).
  { destruct (subscribe_live_effect c cb w Hok) as (w1' & Hsub' & _ & _ & _ & _ & _ & _ & Hscope).
    rewrite Hsub in Hsub'. simplify_eq.
    specialize (Hscope (length (heap w))). rewrite decide_True in Hscope by done.
    unfold scope_of in Hscope. rewrite Hcell in Hscope. simpl in Hscope. by simplify_eq. }
  assert (Hok2 : reg_ok (mkWorld (heap w ++ [mkCell (mkListener cb None (last C)) c false])
                   (colls w) (subs w) (trace w)) c').
  { eapply (reg_ok_unsubscribe _ w1 cell c'); [done| |by apply Hok1|done].
    rewrite Hsc. by apply Hok1. }
  split; [done|]. rewrite (get_live _ _ Hok2), (get_live _ _ Hok'). f_equal.
  apply live_snoc_other; simpl.
  - rewrite length_app. simpl. lia.
  - intros z. unfold alive. rewrite lookup_snoc.
    destruct (decide (z = length (heap w))) as [->|]; [|done].
    rewrite lookup_ge_None_2 by done. split; intros (x & Hx & _ & Hf); by simplify_eq.
Qed.

(** X4.  [clear()] empties a registry at once, whatever it held: [get()]
    returns the empty list and [notify()] invokes nothing, while no listener
    object is touched.  A [subscribe] that follows starts a new list whose
    only handle is the new one. *)
Theorem clear_empties_and_subscribe_starts_afresh
    (w : World) (c : cid) (C : Collection) (cb : VoidFunc) :
  colls w !! c = Some C →
  ∃ w1 w2, clear c w = Some w1 ∧
    get c w1 = Some [] ∧ (∀ n, notify n c w1 = Some w1) ∧
    heap w1 = heap w ∧
    subscribe c cb w1 = Some (Unsubscribe (length (heap w)), w2) ∧
    w2 = mkWorld (heap w ++ [mkCell (mkListener cb None None) c true])
                 (<[c := mkCollection (Some (length (heap w))) (Some (length (heap w)))]>
                    (colls w))
                 (subs w) (trace w) ∧
    get c w2 = Some [length (heap w)].
Proof.
  intros HC. pose proof (lookup_lt_Some _ _ _ HC) as Hlt.
  unfold clear. rewrite HC. simpl. eexists. eexists. split; [reflexivity|].
  split.
  { unfold get. simpl. rewrite list_lookup_insert_eq by done. simpl.
    by destruct (length (heap w)). }
  split.
  { intros n. unfold notify, notify_with, batch. simpl.
    rewrite list_lookup_insert_eq by done. simpl. by destruct n. }
  split; [done|].
  unfold subscribe. simpl. rewrite list_lookup_insert_eq by done. simpl.
  rewrite lookup_snoc, decide_True by done. simpl.
  rewrite list_lookup_insert_eq by (by rewrite length_insert). simpl.
  unfold store_coll. simpl. rewrite !list_insert_insert_eq.
  split; [reflexivity|]. split; [reflexivity|].
  unfold get. simpl. rewrite list_lookup_insert_eq by done. simpl.
  rewrite length_app, Nat.add_1_r. simpl.
  rewrite lookup_snoc, decide_True by done. simpl.
  by destruct (length (heap w)).
Qed.

Lemma invoked_app tr1 tr2 : invoked (tr1 ++ tr2) = invoked tr1 ++ invoked tr2.
Proof. unfold invoked. by rewrite omap_app. Qed.

Lemma invoked_pass_events_leaf w c b :
  invoked (pass_events leaf_events w c b) = rest w c b.
Proof.
  unfold pass_events. induction (rest w c b) as [|x ls IH]; [done|].
  cbn [flat_map]. rewrite invoked_app. simpl. rewrite IH.
  by destruct (default (Mark 0) (cb_of (heap w) x)).
Qed.

Lemma notify_leaves w c ks n :
  reg_ok w c → cbs w c = Mark <$> ks → length ks ≤ n →
  notify n c w = Some (logs (pass_events leaf_events w c 0) w).
Proof.
  intros Hok Hcbs Hn. pose proof Hok as (C & HC & Hf & _).
  assert (Hlen : length (live w c) = length ks)
    by (by rewrite <- length_cbs, Hcbs, length_fmap).
  assert (Hq : ∀ x f, alive (heap w) c x → cb_of (heap w) x = Some f →
             quiet n f w (leaf_events f)).
  { destruct n as [|n].
    - intros x f Hx _. apply elem_of_live in Hx.
      destruct (live w c); [by apply elem_of_nil in Hx|simpl in Hlen; lia].
    - by eapply quiet_leaves. }
  unfold notify, notify_with, batch. rewrite HC. simpl.
  apply (walk_quiet n c leaf_events w Hok Hq); [done|done|lia|].
  unfold rest. rewrite Nat.sub_0_r. fold (live w c). lia.
Qed.

Lemma marks_pass_events_leaf w c ks :
  cbs w c = Mark <$> ks → marks (pass_events leaf_events w c 0) = ks.
Proof.
  intros Hcbs. rewrite marks_pass_events, Hcbs. by apply flat_map_marks_Mark.
Qed.

(** X5.  When the callbacks of a registry only record that they ran,
    [notify()] returns, invokes exactly the handles that [get()] returns, in
    that order, each once, and leaves every object as it was. *)
Theorem notify_runs_recording_callbacks_in_order
    (w : World) (c : cid) (ks : list nat) (n : nat) :
  reg_ok w c → cbs w c = Mark <$> ks → length ks ≤ n →
  ∃ w' ls, get c w = Some ls ∧ notify n c w = Some w' ∧
    heap w' = heap w ∧ colls w' = colls w ∧ subs w' = subs w ∧
    invoked (trace w') = invoked (trace w) ++ ls ∧
    marks (trace w') = marks (trace w) ++ ks.
Proof.
  intros Hok Hcbs Hn.
  exists (logs (pass_events leaf_events w c 0) w), (live w c).
  split; [by apply get_live|].
  split; [by apply (notify_leaves w c ks)|].
  split; [done|]. split; [done|]. split; [done|]. cbn [logs trace]. split.
  - rewrite invoked_app, invoked_pass_events_leaf. unfold rest.
    by rewrite Nat.sub_0_r.
  - by rewrite marks_app, (marks_pass_events_leaf w c ks).
Qed.


(** [unsubscribe] and [subscribe] allocate or relink; they never write a
    [callback] or move a handle. *)
Lemma unsubscribe_static l w w1 :
  unsubscribe l w = Some w1 →
  length (heap w1) = length (heap w) ∧
  ∀ z, cb_of (heap w1) z = cb_of (heap w) z ∧
       scope_of (heap w1) z = scope_of (heap w) z.
Proof.
  unfold unsubscribe.
  destruct (heap w !! l) as [cell|] eqn:Hl; simpl; [|done].
  destruct (isSubscribed cell) eqn:Hflag; simpl; [|intros; by simplify_eq].
  destruct (colls w !! scope cell) as [C|] eqn:HC; simpl; [|done].
  destruct (first C) as [f0|]; [|intros; by simplify_eq].
  pose proof (lookup_lt_Some _ _ _ Hl) as Hlt.
  rewrite list_lookup_insert_eq by done. simpl.
  set (h1 := <[l := set_isSubscribed false cell]> (heap w)).
  assert (H1 : length h1 = length (heap w) ∧
               ∀ z, cb_of h1 z = cb_of (heap w) z ∧ scope_of h1 z = scope_of (heap w) z).
  { split; [by unfold h1; rewrite length_insert|]. intros z. unfold h1.
    by rewrite cb_of_unflag, scope_of_unflag. }
  assert (Hrel : ∀ h p cp g, h !! p = Some cp → (∀ L, callback (g L) = callback L) →
            (length h = length (heap w) ∧
             ∀ z, cb_of h z = cb_of (heap w) z ∧ scope_of h z = scope_of (heap w) z) →
            length (<[p := upd_obj g cp]> h) = length (heap w) ∧
            ∀ z, cb_of (<[p := upd_obj g cp]> h) z = cb_of (heap w) z ∧
                 scope_of (<[p := upd_obj g cp]> h) z = scope_of (heap w) z).
  { intros h p cp g Hp Hg [Hlen Hv]. split; [by rewrite length_insert|].
    intros z. rewrite cb_of_relink, scope_of_relink by done. apply Hv. }
  destruct (next (obj cell)) as [n|]; simpl; fold h1.
  - destruct (h1 !! n) as [cn|] eqn:Hn; simpl; [|done]. fold h1.
    set (h2 := <[n := upd_obj (set_prev (prev (obj cell))) cn]> h1).
    assert (H2 : length h2 = length (heap w) ∧
               ∀ z, cb_of h2 z = cb_of (heap w) z ∧ scope_of h2 z = scope_of (heap w) z)
      by (by apply Hrel).
    destruct (h2 !! l) as [cl2|] eqn:Hl2; simpl; [|done]. fold h1. fold h2.
    destruct (prev (obj cl2)) as [p|]; simpl; fold h1; fold h2.
    + destruct (h2 !! p) as [cp|] eqn:Hp; simpl; [|done].
      intros ?; simplify_eq. simpl. by apply Hrel.
    + destruct (colls w !! scope cell); simpl; [|done].
      intros ?; simplify_eq. simpl. done.
  - assert (h1 !! l = Some (set_isSubscribed false cell)) as ->
      by (by apply list_lookup_insert_eq).
    simpl. fold h1.
    destruct (prev (obj cell)) as [p|]; simpl; fold h1.
    + destruct (h1 !! p) as [cp|] eqn:Hp; simpl; [|done].
      intros ?; simplify_eq. simpl. by apply Hrel.
    + rewrite list_lookup_insert_eq by (by eapply lookup_lt_Some). simpl.
      intros ?; simplify_eq. simpl. done.
Qed.

Lemma subscribe_static c cb w u w' :
  subscribe c cb w = Some (u, w') →
  length (heap w') = S (length (heap w)) ∧
  ∀ z, z < length (heap w) →
    cb_of (heap w') z = cb_of (heap w) z ∧ scope_of (heap w') z = scope_of (heap w) z.
Proof.
  unfold subscribe. intros H.
  apply bind_Some in H as (C & HC & H). simpl in H.
  rewrite lookup_snoc, decide_True in H by done. simpl in H.
  set (h1 := heap w ++ [mkCell (mkListener cb None (last C)) c true]) in *.
  assert (Hlen1 : length h1 = S (length (heap w)))
    by (unfold h1; rewrite length_app; simpl; lia).
  assert (H1 : ∀ z, z < length (heap w) →
            cb_of h1 z = cb_of (heap w) z ∧ scope_of h1 z = scope_of (heap w) z).
  { intros z Hz. unfold h1. by rewrite cb_of_snoc, scope_of_snoc, !decide_False by lia. }
  destruct (last C) as [p|]; simpl in H.
  - apply bind_Some in H as (w2 & H2 & H). simplify_eq.
    apply bind_Some in H2 as (cp & Hcp & H2). simplify_eq. simpl.
    split; [by rewrite length_insert|]. intros z Hz.
    rewrite cb_of_relink, scope_of_relink by done. by apply H1.
  - apply bind_Some in H as (w2 & H2 & H). simplify_eq.
    apply bind_Some in H2 as (C1 & HC1 & H2). by simplify_eq.
Qed.

(** X7.  No function of the program reassigns the [callback] of a listener
    object or moves a handle to another registry: whatever is called, a
    handle keeps the callback and the registry it was created with. *)
Theorem callbacks_and_registries_of_handles_never_change
    (n : nat) (f : VoidFunc) (w w' : World) (z : loc) (g : VoidFunc) (c : cid) :
  cb_of (heap w) z = Some g → scope_of (heap w) z = Some c →
  call n f w = Some w' →
  cb_of (heap w') z = Some g ∧ scope_of (heap w') z = Some c.
Proof.
  intros Hg Hc Hcall.
  apply (call_stable (λ h, cb_of h z = Some g ∧ scope_of h z = Some c))
    with (n := n) (f := f) (w := w); [| |done|done].
  - intros c0 cb0 w0 u w0' Hsub [H1 H2].
    destruct (subscribe_static _ _ _ _ _ Hsub) as [_ Hv].
    assert (Hz : z < length (heap w0)).
    { unfold cb_of in H1. destruct (heap w0 !! z) eqn:E; [|done].
      by eapply lookup_lt_Some. }
    destruct (Hv z Hz) as [-> ->]. done.
  - intros l w0 w0' Hun [H1 H2].
    destruct (unsubscribe_static _ _ _ Hun) as [_ Hv].
    destruct (Hv z) as [-> ->]. done.
Qed.

(** ** Further properties of subscription nodes *)

(** X8.  In every reachable world [isSubscribed()] is true exactly when
    [getListeners()] is a live registry (and then [unsubscribe] holds the
    closure of an allocated handle), and false exactly when it is the
    sentinel. *)
Theorem isSubscribed_iff_registry_is_live (w : World) (s : sid) (S : Subscription) :
  reachable w → subs w !! s = Some S →
  (sub_isSubscribed s w = Some true ∧
   ∃ c l, getListeners s w = Some (Live c) ∧ c < length (colls w) ∧
     s_unsubscribe S = Some (Unsubscribe l) ∧ l < length (heap w)) ∨
  (sub_isSubscribed s w = Some false ∧ getListeners s w = Some NullListeners).
Proof.
  intros Hr HS. destruct (reachable_wf w Hr) as [_ Hsubs].
  destruct (Hsubs s S HS) as (_ & _ & Hatt).
  unfold sub_isSubscribed, getListeners. rewrite HS. simpl.
  unfold attached_ok in Hatt.
  destruct (s_listeners S) as [|c], (s_unsubscribe S) as [u|];
    try done; try (by destruct u).
  - by right.
  - left. split; [done|]. destruct u; try done. destruct Hatt. by eexists _, _.
Qed.

Lemma trySubscribe_with_detached_inv up s w S w' :
  subs w !! s = Some S → s_unsubscribe S = None →
  trySubscribe_with up s w = Some w' →
  ∃ u w1 S1,
    match parentSub S with
    | Some p => up p (HandleChangeWrapper s) w
    | None => store_subscribe (store S) (HandleChangeWrapper s) w
    end = Some (u, w1) ∧
    subs w1 !! s = Some S1 ∧
    w' = mkWorld (heap w1) (colls w1 ++ [mkCollection None None])
           (<[s := set_listeners (Live (length (colls w1))) (set_unsubscribe (Some u) S1)]>
              (subs w1))
           (trace w1).
Proof.
  intros HS Hun. unfold trySubscribe_with. rewrite HS. simpl. rewrite Hun.
  intros H. apply bind_Some in H as ([u w1] & Hup & H).
  apply bind_Some in H as (S1 & HS1 & H). simpl in H.
  rewrite list_lookup_insert_eq in H by (by eapply lookup_lt_Some). simpl in H.
  simplify_eq. exists u, w1, S1. split; [done|]. split; [done|].
  unfold store_sub. simpl. by rewrite list_insert_insert_eq.
Qed.

(** X9.  [trySubscribe()] on a detached node returns and installs a
    registry that did not exist before and is empty: listeners nested
    before an earlier detach are not carried over, and [notifyNestedSubs()]
    right after attaching invokes nothing. *)
Theorem trySubscribe_installs_fresh_empty_registry
    (w : World) (s : sid) (S : Subscription) (n : nat) :
  reachable w → subs w !! s = Some S → s_unsubscribe S = None → s ≤ n →
  ∃ w' c, trySubscribe n s w = Some w' ∧
    getListeners s w' = Some (Live c) ∧
    length (colls w) ≤ c ∧
    colls w' !! c = Some (mkCollection None None) ∧
    get c w' = Some [] ∧
    ∀ m, notifyNestedSubs m s w' = Some w'.
Proof.
  intros Hr HS Hun Hn. pose proof (reachable_wf w Hr) as Hwf.
  pose proof (lookup_lt_Some _ _ _ HS) as Hs.
  destruct (trySubscribe_wf n s w Hn Hwf Hs) as (w' & Htry & _).
  destruct (trySubscribe_with_detached_inv _ s w S w' HS Hun Htry)
    as (u & w1 & S1 & Hup & HS1 & ->).
  pose proof (lookup_lt_Some _ _ _ HS1) as Hs1.
  exists (mkWorld (heap w1) (colls w1 ++ [mkCollection None None])
           (<[s := set_listeners (Live (length (colls w1))) (set_unsubscribe (Some u) S1)]>
              (subs w1)) (trace w1)), (length (colls w1)).
  split; [done|].
  assert (Hcolls : length (colls w) ≤ length (colls w1)).
  { destruct Hwf as [Hcl Hsubs]. destruct (Hsubs s S HS) as (Hst & _ & _).
    destruct (parentSub S) as [p|].
    - destruct (addNestedSub_post _ _ _ _ _ (conj Hcl Hsubs) Hup)
        as (?&?&?&?&?&?&?&?&?&?&?&?&?). done.
    - unfold store_subscribe in Hup.
      destruct (closed_subscribe (store S) (HandleChangeWrapper s)
                  (log (EvStoreSubscribe (store S) (HandleChangeWrapper s)) w))
        as (w2 & C2 & Hsub & _ & _ & Hlen & _); [by apply closed_log|done|].
      rewrite Hup in Hsub. simplify_eq. simpl in Hlen. lia. }
  assert (Hget : getListeners s (mkWorld (heap w1) (colls w1 ++ [mkCollection None None])
           (<[s := set_listeners (Live (length (colls w1))) (set_unsubscribe (Some u) S1)]>
              (subs w1)) (trace w1)) = Some (Live (length (colls w1)))).
  { unfold getListeners. simpl. by rewrite list_lookup_insert_eq. }
  split; [done|]. split; [done|].
  assert (Hc : (colls w1 ++ [mkCollection None None]) !! length (colls w1)
               = Some (mkCollection None None)).
  { rewrite lookup_app_r by done. by rewrite Nat.sub_diag. }
  split; [done|]. split.
  - unfold get. simpl. rewrite Hc. simpl. by destruct (length (heap w1)).
  - intros m. unfold notifyNestedSubs, notifyNestedSubs_with. simpl.
    rewrite list_lookup_insert_eq by done. simpl.
    unfold notify_with, batch. simpl. rewrite Hc. simpl. by destruct m.
Qed.

Lemma reg_ok_same_registry w w' c :
  heap w' = heap w → colls w' !! c = colls w !! c → reg_ok w c → reg_ok w' c.
Proof. unfold reg_ok. intros -> ->. done. Qed.

Lemma live_same_heap w w' c : heap w' = heap w → live w' c = live w c.
Proof. unfold live. by intros ->. Qed.

(** X10.  In every reachable world [tryUnsubscribe()] returns: the closure
    it calls and the [clear()] of its registry do not throw.  Afterwards the
    node is detached, the other nodes are untouched and no listener has
    been invoked. *)
Theorem tryUnsubscribe_returns (w : World) (s : sid) (n : nat) :
  reachable w → s < length (subs w) →
  ∃ w', tryUnsubscribe (S n) s w = Some w' ∧
    sub_isSubscribed s w' = Some false ∧
    getListeners s w' = Some NullListeners ∧
    (∀ s', s' ≠ s → subs w' !! s' = subs w !! s') ∧
    trace w' = trace w.
Proof.
  intros Hr Hs. destruct (reachable_wf w Hr) as [Hcl Hsubs].
  destruct (lookup_lt_is_Some_2 (subs w) s Hs) as [Sb HS].
  destruct (Hsubs s Sb HS) as (_ & _ & Hatt). unfold attached_ok in Hatt.
  destruct (s_unsubscribe Sb) as [u|] eqn:Hu.
  - destruct u; try done. destruct (s_listeners Sb) as [|c] eqn:Hl; [done|].
    destruct Hatt as [Hllt Hclt].
    destruct (closed_unsubscribe l w Hcl Hllt)
      as (w1 & Hun & _ & _ & Hclen & Hsubs1 & Htr).
    exists (mkWorld (heap w1) (<[c := mkCollection None None]> (colls w1))
              (<[s := set_listeners NullListeners (set_unsubscribe None Sb)]> (subs w))
              (trace w1)).
    split.
    { unfold tryUnsubscribe.
      apply (tryUnsubscribe_with_attached _ s w Sb (Unsubscribe l) c w1);
        [done|done|done|done|done|lia]. }
    unfold sub_isSubscribed, getListeners. simpl.
    rewrite list_lookup_insert_eq by done. simpl.
    split; [done|]. split; [done|].
    split; [intros s' Hne; by rewrite list_lookup_insert_ne|done].
  - destruct (s_listeners Sb) eqn:Hl; [|done]. exists w.
    unfold tryUnsubscribe, tryUnsubscribe_with, sub_isSubscribed, getListeners.
    rewrite HS. simpl. rewrite Hu, Hl. done.
Qed.

(** X11.  [trySubscribe()] on a detached node with a parent leaves the
    parent attached as well, and the node's change handler is the last
    listener of the parent's registry, at a handle allocated by this
    call. *)
Theorem trySubscribe_attaches_parent_first
    (w : World) (s p : sid) (Sb : Subscription) (n : nat) :
  reachable w → subs w !! s = Some Sb → s_unsubscribe Sb = None →
  parentSub Sb = Some p → s ≤ n →
  ∃ w' l cp Cp, trySubscribe n s w = Some w' ∧
    sub_isSubscribed s w' = Some true ∧
    sub_isSubscribed p w' = Some true ∧
    getListeners p w' = Some (Live cp) ∧
    colls w' !! cp = Some Cp ∧ last Cp = Some l ∧
    alive (heap w') cp l ∧
    cb_of (heap w') l = Some (HandleChangeWrapper s) ∧
    length (heap w) ≤ l.
Proof.
  intros Hr HS Hun Hpar Hn. pose proof (reachable_wf w Hr) as Hwf.
  pose proof (lookup_lt_Some _ _ _ HS) as Hs.
  destruct (trySubscribe_wf n s w Hn Hwf Hs) as (w' & Htry & _).
  destruct (trySubscribe_with_detached_inv _ s w Sb w' HS Hun Htry)
    as (u & w1 & S1 & Hup & HS1 & ->).
  rewrite Hpar in Hup.
  destruct (addNestedSub_post _ _ _ _ _ Hwf Hup)
    as (l & cp & Sp' & Cp & evs & Hu & _ & _ & Hle & _ & _ & HSp & Hlp & Hsome &
        Hcb & Hal & HCp & Hlast & _).
  simpl in *.
  assert (Hps : p ≠ s).
  { destruct Hwf as [_ Hsubs]. destruct (Hsubs s Sb HS) as (_ & Hp & _).
    specialize (Hp p Hpar). lia. }
  exists (mkWorld (heap w1) (colls w1 ++ [mkCollection None None])
           (<[s := set_listeners (Live (length (colls w1))) (set_unsubscribe (Some u) S1)]>
              (subs w1)) (trace w1)), l, cp, Cp.
  split; [done|]. unfold sub_isSubscribed, getListeners. simpl.
  rewrite list_lookup_insert_eq by (by eapply lookup_lt_Some). simpl.
  rewrite list_lookup_insert_ne by done. rewrite HSp. simpl.
  split; [done|]. split; [by rewrite bool_decide_eq_true_2|].
  split; [by rewrite Hlp|]. split; [by apply lookup_app_l_Some|].
  done.
Qed.

Lemma addNestedSub_attached n s f w Sb c :
  subs w !! s = Some Sb → is_Some (s_unsubscribe Sb) → s_listeners Sb = Live c →
  addNestedSub (S n) s f w = subscribe c f (log (EvAddNestedSub s f) w).
Proof.
  intros HS [u Hu] Hl. cbn [addNestedSub]. unfold trySubscribe_with. simpl.
  rewrite HS. simpl. rewrite Hu. simpl. rewrite HS. simpl. by rewrite Hl.
Qed.

(** An unlinked listener object and further registries do not disturb a
    registry. *)
Lemma reg_ok_dead_cell w c cell extra ss tr :
  reg_ok w c → isSubscribed cell = false →
  reg_ok (mkWorld (heap w ++ [cell]) (colls w ++ extra) ss tr) c ∧
  live (mkWorld (heap w ++ [cell]) (colls w ++ extra) ss tr) c = live w c.
Proof.
  intros (C & HC & Hf & Hl & Hlinks) Hdead.
  assert (Hal : ∀ z, alive (heap w ++ [cell]) c z ↔ alive (heap w) c z).
  { intros z. rewrite alive_snoc. split; [|by left].
    intros [?|(_ & _ & ?)]; [done|congruence]. }
  split.
  - exists C. simpl. split; [by apply lookup_app_l_Some|].
    split; [eapply least_ext; [|exact Hf]; intros; by rewrite Hal|].
    split.
    + rewrite length_app. simpl. destruct (last C) as [y|]; simpl in *.
      * destruct Hl as (Hy & Hlt & Hmax). split; [by apply Hal|]. split; [lia|].
        intros z Hz%Hal _. apply Hmax; [done|]. by eapply alive_lt.
      * intros z Hz%Hal _. apply (Hl z Hz). by eapply alive_lt.
    + intros l Hl'%Hal. pose proof (alive_lt _ _ _ Hl') as Hlt.
      destruct (Hlinks l Hl') as [Hn Hp].
      rewrite nxt_snoc, prv_snoc, !decide_False by lia. split.
      * eapply least_ext; [|exact Hn]. intros; by rewrite Hal.
      * eapply greatest_ext; [|exact Hp]. intros; by rewrite Hal.
  - apply live_snoc_other; simpl; [|done]. rewrite length_app. simpl. lia.
Qed.

(** X12.  On a node that is already attached, [addNestedSub(f)] makes no
    upstream call and changes no node: it only appends [f] to the node's
    registry.  Calling the closure it returned takes [f] out again and
    leaves the registry as it was. *)
Theorem addNestedSub_on_attached_node
    (w : World) (s : sid) (Sb : Subscription) (c : cid) (f : VoidFunc) (n : nat) :
  subs w !! s = Some Sb → is_Some (s_unsubscribe Sb) → s_listeners Sb = Live c →
  reg_ok w c →
  ∃ ls w1 w2, get c w = Some ls ∧
    addNestedSub (S n) s f w = Some (Unsubscribe (length (heap w)), w1) ∧
    get c w1 = Some (ls ++ [length (heap w)]) ∧
    cb_of (heap w1) (length (heap w)) = Some f ∧
    subs w1 = subs w ∧ trace w1 = trace w ++ [EvAddNestedSub s f] ∧
    (∀ m, call (S m) (Unsubscribe (length (heap w))) w1 = Some w2) ∧
    get c w2 = Some ls ∧ colls w2 = colls w ∧ subs w2 = subs w.
Proof.
  intros HS Hup Hl Hok. pose proof Hok as (C & HC & _).
  rewrite (addNestedSub_attached n s f w Sb c HS Hup Hl).
  set (e := EvAddNestedSub s f).
  assert (Hok0 : reg_ok (log e w) c) by (by apply (reg_ok_ext w)).
  destruct (subscribe_unsubscribe_core c f (log e w) C Hok0 HC)
    as (w1 & Hsub & Hsubs & Htr & _ & Hhlen & Hundo).
  destruct (subscribe_live_effect c f (log e w) Hok0)
    as (w1' & Hsub' & _ & _ & _ & _ & Hal & Hcb & _).
  simpl in *. rewrite Hsub in Hsub'. symmetry in Hsub'. simplify_eq.
  specialize (Hundo w1 [] eq_refl (eq_sym (app_nil_r _))).
  assert (Hok1 : reg_ok w1 c) by (by eapply (reg_ok_subscribe _ c c)).
  destruct (reg_ok_dead_cell w c (mkCell (mkListener f None (last C)) c false) []
              (subs w1) (trace w1) Hok eq_refl) as [Hok2 Hlive2].
  exists (live w c), w1. eexists.
  split; [by apply get_live|].
  split; [done|].
  split.
  { rewrite (get_live w1 c Hok1). f_equal.
    rewrite (live_snoc_same (log e w) w1 c); [done|done|].
    intros z. rewrite Hal. naive_solver. }
  split; [by rewrite Hcb, decide_True|].
  split; [done|]. split; [done|].
  split; [intros m; exact Hundo|].
  split; [by rewrite (get_live _ c Hok2), Hlive2|].
  simpl. by rewrite app_nil_r.
Qed.

(** Attaching a detached node whose upstream call is a [subscribe] on the
    registry [cu] (the store's, or the registry of an attached parent), and
    detaching it again. *)
Lemma attach_detach_core up s w Sb cu e :
  subs w !! s = Some Sb → s_unsubscribe Sb = None → s_listeners Sb = NullListeners →
  reg_ok w cu →
  match parentSub Sb with
  | Some p => up p (HandleChangeWrapper s) w
  | None => store_subscribe (store Sb) (HandleChangeWrapper s) w
  end = subscribe cu (HandleChangeWrapper s) (log e w) →
  ∃ C w1, colls w !! cu = Some C ∧
    trySubscribe_with up s w = Some w1 ∧
    sub_isSubscribed s w1 = Some true ∧
    getListeners s w1 = Some (Live (length (colls w))) ∧
    reg_ok w1 cu ∧ live w1 cu = live w cu ++ [length (heap w)] ∧
    cb_of (heap w1) (length (heap w)) = Some (HandleChangeWrapper s) ∧
    trace w1 = trace w ++ [e] ∧
    (∀ s', s' ≠ s → subs w1 !! s' = subs w !! s') ∧
    (∃ S1, subs w1 !! s = Some S1 ∧ onStateChange S1 = onStateChange Sb) ∧
    (∀ m, notifyNestedSubs m s w1 = Some w1) ∧
    ∀ m, tryUnsubscribe (S m) s w1 =
      Some (mkWorld
              (heap w ++ [mkCell (mkListener (HandleChangeWrapper s) None (last C)) cu false])
              (colls w ++ [mkCollection None None]) (subs w) (trace w ++ [e])).
Proof.
  intros HS Hun Hnull Hok Hup. pose proof (lookup_lt_Some _ _ _ HS) as Hs.
  pose proof Hok as (C & HC & _). exists C.
  assert (Hok0 : reg_ok (log e w) cu) by (by apply (reg_ok_ext w)).
  destruct (subscribe_unsubscribe_core cu (HandleChangeWrapper s) (log e w) C Hok0 HC)
    as (wa & Hsub & Hsubs & Htr & Hclen & Hhlen & Hundo).
  destruct (subscribe_live_effect cu (HandleChangeWrapper s) (log e w) Hok0)
    as (wa' & Hsub' & _ & _ & _ & _ & Hal & Hcb & _).
  simpl in *. rewrite Hsub in Hsub'. symmetry in Hsub'. simplify_eq.
  rewrite Hsub in Hup.
  assert (HSa : subs wa !! s = Some Sb) by (by rewrite Hsubs).
  set (w1 := mkWorld (heap wa) (colls wa ++ [mkCollection None None])
           (<[s := set_listeners (Live (length (colls wa)))
                     (set_unsubscribe (Some (Unsubscribe (length (heap w)))) Sb)]> (subs wa))
           (trace wa)).
  assert (Htry : trySubscribe_with up s w = Some w1).
  { unfold trySubscribe_with. rewrite HS. simpl. rewrite Hun, Hup. simpl.
    rewrite HSa. simpl. rewrite list_lookup_insert_eq by (by rewrite Hsubs). simpl.
    unfold store_sub. simpl. by rewrite list_insert_insert_eq. }
  assert (HS1 : subs w1 !! s =
            Some (set_listeners (Live (length (colls wa)))
                    (set_unsubscribe (Some (Unsubscribe (length (heap w)))) Sb))).
  { unfold w1. simpl. apply list_lookup_insert_eq. by rewrite Hsubs. }
  assert (Hok1 : reg_ok w1 cu).
  { apply (reg_ok_same_registry wa); [done| |by eapply (reg_ok_subscribe _ cu cu)].
    unfold w1. simpl. apply lookup_app_l. rewrite Hclen. by eapply lookup_lt_Some. }
  exists w1. split; [done|]. split; [done|].
  split; [unfold sub_isSubscribed; rewrite HS1; done|].
  split; [unfold getListeners; rewrite HS1; simpl; by rewrite Hclen|].
  split; [done|].
  split.
  { rewrite (live_same_heap wa w1) by done.
    rewrite (live_snoc_same (log e w) wa cu); [done|done|].
    intros z. rewrite Hal. naive_solver. }
  split; [unfold w1; simpl; by rewrite Hcb, decide_True|].
  split; [unfold w1; simpl; by rewrite Htr|].
  split; [intros s' Hne; unfold w1; simpl; rewrite list_lookup_insert_ne by done;
          by rewrite Hsubs|].
  split; [eexists; split; [exact HS1|done]|].
  split.
  { intros m. unfold notifyNestedSubs, notifyNestedSubs_with. rewrite HS1. simpl.
    unfold notify_with, batch. simpl.
    rewrite lookup_app_r, Nat.sub_diag by done. simpl. by destruct m. }
  intros m. unfold tryUnsubscribe.
  rewrite (tryUnsubscribe_with_attached (call (S m)) s w1 _
             (Unsubscribe (length (heap w))) (length (colls wa))
             (mkWorld
                (heap w ++ [mkCell (mkListener (HandleChangeWrapper s) None (last C)) cu false])
                (colls w ++ [mkCollection None None]) (subs w1) (trace w1)) HS1);
    [|done|done| |done|simpl; rewrite length_app, Hclen; simpl; lia].
  - simpl. f_equal. f_equal.
    + rewrite Hclen. rewrite <- (Nat.add_0_r (length (colls w))).
      by rewrite insert_app_r.
    + rewrite Hsubs, list_insert_insert_eq. apply list_insert_id.
      rewrite HS. f_equal. destruct Sb. simpl in *. by subst.
    + by rewrite Htr.
  - change (call (S m) (Unsubscribe (length (heap w))) w1)
      with (unsubscribe (length (heap w)) w1).
    by apply Hundo.
Qed.

(** X13.  Attaching a node to an attached parent appends the node's change
    handler to the parent's registry by one [addNestedSub] call, and
    [tryUnsubscribe()] undoes it: the parent's registry, all registries
    that existed and all nodes are as before the attach. *)
Theorem child_attach_then_detach_restores_parent
    (w : World) (s p : sid) (Sb Sp : Subscription) (cp : cid) (n : nat) :
  subs w !! s = Some Sb → parentSub Sb = Some p →
  s_unsubscribe Sb = None → s_listeners Sb = NullListeners →
  subs w !! p = Some Sp → is_Some (s_unsubscribe Sp) → s_listeners Sp = Live cp →
  reg_ok w cp →
  ∃ ls w1 w2, get cp w = Some ls ∧
    trySubscribe (S n) s w = Some w1 ∧
    sub_isSubscribed s w1 = Some true ∧
    get cp w1 = Some (ls ++ [length (heap w)]) ∧
    cb_of (heap w1) (length (heap w)) = Some (HandleChangeWrapper s) ∧
    trace w1 = trace w ++ [EvAddNestedSub p (HandleChangeWrapper s)] ∧
    (∀ m, tryUnsubscribe (S m) s w1 = Some w2) ∧
    get cp w2 = Some ls ∧
    (∀ c C, colls w !! c = Some C → colls w2 !! c = Some C) ∧
    subs w2 = subs w ∧ trace w2 = trace w1.
Proof.
  intros HS Hpar Hun Hnull HSp Hup Hlp Hok.
  destruct (attach_detach_core (addNestedSub (S n)) s w Sb cp
              (EvAddNestedSub p (HandleChangeWrapper s)) HS Hun Hnull Hok)
    as (C & w1 & HC & Htry & Hsubd & _ & Hok1 & Hlive & Hcb & Htr & _ & _ & _ & Hdet).
  { rewrite Hpar. by eapply addNestedSub_attached. }
  exists (live w cp), w1. eexists.
  split; [by apply get_live|]. split; [exact Htry|]. split; [done|].
  split; [by rewrite (get_live w1 cp Hok1), Hlive|].
  split; [done|]. split; [done|]. split; [exact Hdet|]. simpl.
  destruct (reg_ok_dead_cell w cp
              (mkCell (mkListener (HandleChangeWrapper s) None (last C)) cp false)
              [mkCollection None None] (subs w)
              (trace w ++ [EvAddNestedSub p (HandleChangeWrapper s)]) Hok eq_refl)
    as [Hok2 Hlive2].
  split; [by rewrite (get_live _ cp Hok2), Hlive2|].
  split; [intros c C' HC'; by apply lookup_app_l_Some|].
  split; [done|]. by rewrite Htr.
Qed.

(** ** The effect of Provider *)

(** X14.  The effect of [Provider], run on its detached root subscription,
    subscribes the subscription's change handler to the store with one
    [store.subscribe] call, behind the store's other listeners, whether or
    not the state changed.  The cleanup undoes it: the store's listeners
    are as before the effect, the subscription is detached and its
    [onStateChange] is unset. *)
Theorem Provider_effect_then_cleanup
    (w : World) (s : sid) (Sb : Subscription) (st : cid)
    (stateChanged : bool) (n m : nat) :
  subs w !! s = Some Sb → parentSub Sb = None → store Sb = st →
  s_unsubscribe Sb = None → s_listeners Sb = NullListeners →
  reg_ok w st →
  ∃ ls w1 w2, get st w = Some ls ∧
    Provider_effect n stateChanged s w = Some w1 ∧
    sub_isSubscribed s w1 = Some true ∧
    get st w1 = Some (ls ++ [length (heap w)]) ∧
    cb_of (heap w1) (length (heap w)) = Some (HandleChangeWrapper s) ∧
    trace w1 = trace w ++ [EvStoreSubscribe st (HandleChangeWrapper s)] ∧
    Provider_cleanup (S m) s w1 = Some w2 ∧
    get st w2 = Some ls ∧
    (∀ c C, colls w !! c = Some C → colls w2 !! c = Some C) ∧
    subs w2 = <[s := mkSubscription st None None NullListeners None]> (subs w) ∧
    trace w2 = trace w1.
Proof.
  intros HS Hroot Hst Hun Hnull Hok. pose proof (lookup_lt_Some _ _ _ HS) as Hs.
  set (Sb0 := set_onStateChange (Some (NotifyNestedSubs s)) Sb).
  set (w0 := store_sub s Sb0 w).
  assert (HS0 : subs w0 !! s = Some Sb0) by (by apply list_lookup_insert_eq).
  assert (Hok0 : reg_ok w0 st) by (by apply (reg_ok_ext w)).
  destruct (attach_detach_core (addNestedSub n) s w0 Sb0 st
              (EvStoreSubscribe st (HandleChangeWrapper s)) HS0 Hun Hnull Hok0)
    as (C & w1 & HC & Htry & Hsubd & _ & Hok1 & Hlive & Hcb & Htr & _ & _ & Hnot & Hdet).
  { unfold Sb0. simpl. rewrite Hroot, Hst. done. }
  set (w2 := mkWorld
         (heap w ++ [mkCell (mkListener (HandleChangeWrapper s) None (last C)) st false])
         (colls w ++ [mkCollection None None])
         (<[s := mkSubscription st None None NullListeners None]> (subs w))
         (trace w ++ [EvStoreSubscribe st (HandleChangeWrapper s)])).
  exists (live w st), w1, w2.
  split; [by apply get_live|].
  split.
  { unfold Provider_effect, assign_onStateChange. rewrite HS. simpl.
    fold Sb0. fold w0. unfold trySubscribe. rewrite Htry. simpl.
    destruct stateChanged; [apply Hnot|done]. }
  split; [done|].
  split; [by rewrite (get_live w1 st Hok1), Hlive|].
  split; [done|]. split; [done|].
  split.
  { unfold Provider_cleanup. rewrite Hdet. simpl.
    unfold assign_onStateChange. simpl.
    rewrite list_lookup_insert_eq by done. simpl.
    unfold store_sub, w2. simpl. rewrite list_insert_insert_eq.
    do 3 f_equal. unfold Sb0. destruct Sb. simpl in *. by subst. }
  destruct (reg_ok_dead_cell w st
              (mkCell (mkListener (HandleChangeWrapper s) None (last C)) st false)
              [mkCollection None None]
              (<[s := mkSubscription st None None NullListeners None]> (subs w))
              (trace w ++ [EvStoreSubscribe st (HandleChangeWrapper s)]) Hok eq_refl)
    as [Hok2 Hlive2].
  split; [fold w2 in Hok2, Hlive2; by rewrite (get_live _ st Hok2), Hlive2|].
  split; [intros c C' HC'; by apply lookup_app_l_Some|].
  split; [done|]. by rewrite Htr.
Qed.

Lemma upstream_calls_pass_events_leaf s w c b :
  upstream_calls s (pass_events leaf_events w c b) = 0.
Proof.
  unfold pass_events. induction (rest w c b) as [|x ls IH]; [done|].
  cbn [flat_map]. rewrite upstream_calls_app, IH.
  by destruct (default (Mark 0) (cb_of (heap w) x)).
Qed.

(** X15.  When the subscription is already attached (a descendant's effect
    ran first), the effect of [Provider] makes no upstream call and creates
    nothing; it runs the nested listeners, in order, exactly when the
    store's state has changed since render. *)
Theorem Provider_effect_on_attached_subscription
    (w : World) (s : sid) (Sb : Subscription) (c : cid) (ks : list nat)
    (stateChanged : bool) (n : nat) :
  subs w !! s = Some Sb → is_Some (s_unsubscribe Sb) → s_listeners Sb = Live c →
  reg_ok w c → cbs w c = Mark <$> ks → length ks ≤ n →
  ∃ w1, Provider_effect n stateChanged s w = Some w1 ∧
    heap w1 = heap w ∧ colls w1 = colls w ∧
    subs w1 = <[s := set_onStateChange (Some (NotifyNestedSubs s)) Sb]> (subs w) ∧
    marks (trace w1) = marks (trace w) ++ (if stateChanged then ks else []) ∧
    ∀ s', upstream_calls s' (trace w1) = upstream_calls s' (trace w).
Proof.
  intros HS [u Hu] Hl Hok Hcbs Hn. pose proof (lookup_lt_Some _ _ _ HS) as Hs.
  set (Sb0 := set_onStateChange (Some (NotifyNestedSubs s)) Sb).
  set (w0 := store_sub s Sb0 w).
  assert (HS0 : subs w0 !! s = Some Sb0) by (by apply list_lookup_insert_eq).
  assert (Hok0 : reg_ok w0 c) by (by apply (reg_ok_ext w)).
  assert (Hcbs0 : cbs w0 c = Mark <$> ks) by (by rewrite (cbs_ext w w0)).
  assert (Heff : Provider_effect n stateChanged s w =
            if stateChanged then notify n c w0 else Some w0).
  { unfold Provider_effect, assign_onStateChange. rewrite HS. simpl.
    fold Sb0. fold w0. unfold trySubscribe, trySubscribe_with. rewrite HS0. simpl.
    rewrite Hu. simpl. destruct stateChanged; [|done].
    unfold notifyNestedSubs, notifyNestedSubs_with. rewrite HS0. simpl.
    by rewrite Hl. }
  rewrite Heff. destruct stateChanged.
  - rewrite (notify_leaves w0 c ks n Hok0 Hcbs0 Hn). eexists. split; [done|].
    cbn [logs heap colls subs trace]. split; [done|]. split; [done|]. split; [done|].
    split.
    + by rewrite marks_app, (marks_pass_events_leaf w0 c ks).
    + intros s'. by rewrite upstream_calls_app, upstream_calls_pass_events_leaf.
  - exists w0. split; [done|]. split; [done|]. split; [done|]. split; [done|].
    split; [by rewrite app_nil_r|done].
Qed.

(** ** The theorems at concrete inputs *)

Lemma run_reg_ok w0 ops st :
  scoped w0 →
  run (createListenerCollection w0).1 ops ((createListenerCollection w0).2, []) = Some st →
  reg_ok st.1 (createListenerCollection w0).1.
Proof.
  intros Hsc Hrun.
  destruct (run_preserves (length (heap w0)) (createListenerCollection w0).1 ops [] []
              _ (run_inv_fresh w0 Hsc)) as (st' & Hrun' & Hinv).
  rewrite Hrun in Hrun'. injection Hrun' as <-. apply Hinv.
Qed.

Lemma demo_root_reachable : reachable demo_root.
Proof.
  apply reach_createSubscription; [apply reach_createStore, reach_init| |].
  - simpl. lia.
  - intros p Hp. discriminate Hp.
Qed.

Lemma get_returns_still_subscribed_witness :
  scoped init ∧
  ∃ w us,
    run (createListenerCollection init).1 scenario_ops
      ((createListenerCollection init).2, []) = Some (w, us) ∧
    us = (λ k, Unsubscribe (length (heap init) + k))
           <$> seq 0 (length (subscribed scenario_ops)) ∧
    (∀ k cb, subscribed scenario_ops !! k = Some cb →
       cb_of (heap w) (length (heap init) + k) = Some cb) ∧
    get (createListenerCollection init).1 w
      = Some ((λ k, length (heap init) + k) <$> still_subscribed scenario_ops).
Proof.
  split; [exact scoped_init|].
  exact (get_returns_still_subscribed init scenario_ops scoped_init).
Defined.

Lemma subscribe_unsubscribe_preserve_dll_invariant_witness :
  scoped init ∧
  ∃ st,
    run (createListenerCollection init).1 scenario_ops
      ((createListenerCollection init).2, []) = Some st ∧
    dll_invariant st.1 (createListenerCollection init).1 ∧
    ∀ op, ∃ st', step (createListenerCollection init).1 op st = Some st' ∧
      dll_invariant st'.1 (createListenerCollection init).1.
Proof.
  split; [exact scoped_init|].
  exact (subscribe_unsubscribe_preserve_dll_invariant init scenario_ops scoped_init).
Defined.

Lemma unsubscribe_idempotent_witness :
  unsubscribe 0 demo_registry = Some (default init (unsubscribe 0 demo_registry)) ∧
  unsubscribe 0 (default init (unsubscribe 0 demo_registry))
    = Some (default init (unsubscribe 0 demo_registry)) ∧
  (∀ k, unsubscribe_all (replicate k 0) (default init (unsubscribe 0 demo_registry))
          = Some (default init (unsubscribe 0 demo_registry))) ∧
  (flag_of (heap (default init (unsubscribe 0 demo_registry))) 0 = Some false →
   ∀ n f w2, call n f (default init (unsubscribe 0 demo_registry)) = Some w2 →
     unsubscribe 0 w2 = Some w2).
Proof.
  split; [vm_compute; reflexivity|].
  apply (unsubscribe_idempotent 0 demo_registry). vm_compute. reflexivity.
Defined.

Lemma unsubscribe_after_clear_noop_witness :
  clear 0 demo_registry = Some (default init (clear 0 demo_registry)) ∧
  Forall (λ l, scope_of (heap demo_registry) l = Some 0) [0; 1; 2] ∧
  unsubscribe_all [0; 1; 2] (default init (clear 0 demo_registry))
    = Some (default init (clear 0 demo_registry)).
Proof.
  split; [vm_compute; reflexivity|]. split; [by repeat constructor|].
  apply (unsubscribe_after_clear_noop 0 demo_registry); [vm_compute; reflexivity|].
  by repeat constructor.
Defined.

Lemma demo_attached_reachable : reachable demo_attached.
Proof.
  apply (reach_call demo_root 1 (TrySubscribe 0)); [exact demo_root_reachable|].
  vm_compute. reflexivity.
Qed.

Lemma tryUnsubscribe_leaves_sentinel_witness :
  reachable demo_attached ∧
  subs demo_attached !! 0
    = Some (mkSubscription 0 None (Some (Unsubscribe 0)) (Live 1) None) ∧
  is_Some (s_unsubscribe (mkSubscription 0 None (Some (Unsubscribe 0)) (Live 1) None)) ∧
  ∃ w', tryUnsubscribe 1 0 demo_attached = Some w' ∧
    getListeners 0 w' = Some NullListeners ∧
    sub_isSubscribed 0 w' = Some false ∧
    (∀ m, notifyNestedSubs m 0 w' = Some w') ∧
    (getListeners 0 w' ≫= λ r, ref_get r w') = Some [] ∧
    (∀ c, s_listeners (mkSubscription 0 None (Some (Unsubscribe 0)) (Live 1) None) = Live c →
       get c w' = Some []) ∧
    trace w' = trace demo_attached ∧
    (∀ l, s_unsubscribe (mkSubscription 0 None (Some (Unsubscribe 0)) (Live 1) None)
            = Some (Unsubscribe l) →
       unsubscribe l w' = Some w') ∧
    ∀ w'', getListeners 0 w'' = Some NullListeners →
      (∀ m, notifyNestedSubs m 0 w'' = Some w'') ∧
      (getListeners 0 w'' ≫= λ r, ref_get r w'') = Some [].
Proof.
  assert (H2 : subs demo_attached !! 0
               = Some (mkSubscription 0 None (Some (Unsubscribe 0)) (Live 1) None))
    by (vm_compute; reflexivity).
  assert (H3 : is_Some (s_unsubscribe
                 (mkSubscription 0 None (Some (Unsubscribe 0)) (Live 1) None)))
    by (by eexists).
  split; [exact demo_attached_reachable|]. split; [exact H2|]. split; [exact H3|].
  exact (tryUnsubscribe_leaves_sentinel 0 0 demo_attached _
           demo_attached_reachable H2 H3).
Defined.

Lemma notify_with_unsubscribing_callbacks_witness :
  reg_ok demo_registry 0 ∧
  Forall (unsubscriber (heap demo_registry) 0 3) (live demo_registry 0) ∧
  length (heap demo_registry) ≤ 3 ∧
  ∃ w' vis, notify 3 0 demo_registry = Some w' ∧
    invoked (trace w') = invoked (trace demo_registry) ++ vis ∧
    vis `sublist_of` live demo_registry 0 ∧ NoDup vis ∧
    (∀ x, x ∈ live demo_registry 0 → x ∉ vis →
       ∃ g, g ∈ vis ∧ g < x ∧ x ∈ unsubs_of (heap demo_registry) g) ∧
    (∀ x, x ∈ live w' 0 → x ∈ vis) ∧
    reg_ok w' 0.
Proof.
  assert (H1 : reg_ok demo_registry 0).
  { eapply (run_reg_ok init scenario_ops (demo_registry, _) scoped_init). vm_compute. reflexivity. }
  assert (H2 : Forall (unsubscriber (heap demo_registry) 0 3) (live demo_registry 0)).
  { apply (bool_decide_unpack _). vm_compute. exact I. }
  assert (H3 : length (heap demo_registry) ≤ 3) by (simpl; lia).
  split; [exact H1|]. split; [exact H2|]. split; [exact H3|].
  exact (proj1 notify_with_unsubscribing_callbacks demo_registry 0 3 H1 H2 H3).
Defined.


Lemma addNestedSub_returns_working_closure_witness :
  reachable demo_root ∧ 0 < length (subs demo_root) ∧ 0 < 1 ∧
  ∃ l c C w' w'',
    addNestedSub 1 0 (Mark 1) demo_root = Some (Unsubscribe l, w') ∧
    getListeners 0 w' = Some (Live c) ∧
    sub_isSubscribed 0 w' = Some true ∧
    length (heap demo_root) ≤ l ∧
    cb_of (heap w') l = Some (Mark 1) ∧ alive (heap w') c l ∧
    colls w' !! c = Some C ∧ last C = Some l ∧ nxt (heap w') l = None ∧
    call 1 (Unsubscribe l) w' = Some w'' ∧
    flag_of (heap w'') l = Some false ∧
    (∀ c' z, alive (heap w'') c' z ↔ alive (heap w') c' z ∧ z ≠ l) ∧
    colls w'' !! c =
      Some (mkCollection
              (match prv (heap w') l with Some _ => first C | None => None end)
              (prv (heap w') l)) ∧
    (∀ p, prv (heap w') l = Some p → nxt (heap w'') p = None) ∧
    (∀ c', c' ≠ c → colls w'' !! c' = colls w' !! c') ∧
    subs w'' = subs w' ∧ trace w'' = trace w' ∧
    (∀ ls, reg_ok w' c → get c w' = Some ls →
       l ∈ ls ∧ get c w'' = Some (filter (λ z, z ≠ l) ls) ∧ reg_ok w'' c).
Proof.
  assert (H2 : 0 < length (subs demo_root)) by (simpl; lia).
  assert (H3 : 0 < 1) by lia.
  split; [exact demo_root_reachable|]. split; [exact H2|]. split; [exact H3|].
  exact (addNestedSub_returns_working_closure demo_root 0 (Mark 1) 1
           demo_root_reachable H2 H3).
Defined.

Lemma trySubscribe_tryUnsubscribe_idempotent_witness :
  reachable demo_root ∧
  subs demo_root !! 0 = Some (mkSubscription 0 None None NullListeners None) ∧
  0 ≤ 1 ∧
  (∃ w1, trySubscribe 1 0 demo_root = Some w1 ∧ trySubscribe 1 0 w1 = Some w1 ∧
     sub_isSubscribed 0 w1 = Some true ∧
     upstream_calls 0 (trace w1) = upstream_calls 0 (trace demo_root) + 1) ∧
  (∀ m, tryUnsubscribe m 0 demo_root = Some demo_root).
Proof.
  assert (H3 : 0 ≤ 1) by lia.
  split; [exact demo_root_reachable|]. split; [vm_compute; reflexivity|]. split; [exact H3|].
  destruct (trySubscribe_tryUnsubscribe_idempotent demo_root 0
              (mkSubscription 0 None None NullListeners None) 1
              demo_root_reachable eq_refl H3) as [Ha Hb].
  split; [exact Ha|]. exact (Hb eq_refl).
Defined.

Lemma ancestor_listeners_run_before_descendants_witness :
  length [100] + length [200] + length [101] + 5 ≤ 8 ∧
  ∃ w w', tree_scenario_late [100] [200] [101] = Some w ∧
    marks (trace w) = [] ∧
    store_change 8 0 w = Some w' ∧
    marks (trace w') = [100] ++ [200] ++ [101].
Proof.
  assert (H : length [100] + length [200] + length [101] + 5 ≤ 8) by (simpl; lia).
  split; [exact H|].
  exact (ancestor_listeners_run_before_descendants [100] [200] [101] 8 H).
Defined.

Lemma reg_ok_demo_registry : reg_ok demo_registry 0.
Proof.
  eapply (run_reg_ok init scenario_ops (demo_registry, _) scoped_init).
  vm_compute. reflexivity.
Qed.

Lemma reg_ok_demo_marks : reg_ok demo_marks 0.
Proof.
  eapply (run_reg_ok init [OpSubscribe (Mark 1); OpSubscribe (Mark 2)]
            (demo_marks, _) scoped_init).
  vm_compute. reflexivity.
Qed.

Lemma reg_ok_demo_root : reg_ok demo_root 0.
Proof.
  apply (reg_ok_ext (createStore init).2); [done|done|].
  apply (reg_ok_fresh init scoped_init).
Qed.

Lemma demo_tree_base_inv : tree_inv1 [] demo_tree_base.
Proof.
  destruct tree_inv1_base as (w & Hw & Hinv). unfold demo_tree_base.
  by rewrite Hw.
Qed.

Lemma demo_provider_inv : tree_inv1 [Mark 100] demo_provider.
Proof.
  destruct tree_inv1_base as (w & Hw & Hinv).
  destruct (tree_inv1_add_all [100] [] w Hinv) as (w' & Hw' & Hinv').
  unfold demo_provider, tree_scenario. rewrite Hw. cbn [mbind option_bind].
  rewrite Hw'. done.
Qed.

Lemma demo_child_reachable : reachable demo_child.
Proof.
  apply reach_createSubscription; [exact demo_root_reachable| |].
  - simpl. lia.
  - intros p Hp. injection Hp as <-. simpl. lia.
Qed.

Lemma subscribe_appends_at_tail_witness :
  reg_ok demo_registry 0 ∧ get 0 demo_registry = Some [0; 2] ∧
  ∃ w', subscribe 0 (Mark 9) demo_registry
          = Some (Unsubscribe (length (heap demo_registry)), w') ∧
    get 0 w' = Some ([0; 2] ++ [length (heap demo_registry)]) ∧
    cb_of (heap w') (length (heap demo_registry)) = Some (Mark 9) ∧
    (∀ z, z < length (heap demo_registry) →
       cb_of (heap w') z = cb_of (heap demo_registry) z) ∧
    reg_ok w' 0 ∧
    (∀ c', c' ≠ 0 → reg_ok demo_registry c' →
       reg_ok w' c' ∧ get c' w' = get c' demo_registry).
Proof.
  assert (H2 : get 0 demo_registry = Some [0; 2]) by (vm_compute; reflexivity).
  split; [exact reg_ok_demo_registry|]. split; [exact H2|].
  exact (subscribe_appends_at_tail demo_registry 0 (Mark 9) [0; 2]
           reg_ok_demo_registry H2).
Defined.

Lemma unsubscribe_removes_its_handle_witness :
  reg_ok demo_registry 0 ∧ scope_of (heap demo_registry) 2 = Some 0 ∧
  flag_of (heap demo_registry) 2 = Some true ∧ get 0 demo_registry = Some [0; 2] ∧
  ∃ w', unsubscribe 2 demo_registry = Some w' ∧
    2 ∈ [0; 2] ∧ get 0 w' = Some (filter (λ z, z ≠ 2) [0; 2]) ∧
    flag_of (heap w') 2 = Some false ∧
    reg_ok w' 0 ∧
    (∀ c', c' ≠ 0 → reg_ok demo_registry c' →
       reg_ok w' c' ∧ get c' w' = get c' demo_registry).
Proof.
  assert (H2 : scope_of (heap demo_registry) 2 = Some 0) by (vm_compute; reflexivity).
  assert (H3 : flag_of (heap demo_registry) 2 = Some true) by (vm_compute; reflexivity).
  assert (H4 : get 0 demo_registry = Some [0; 2]) by (vm_compute; reflexivity).
  split; [exact reg_ok_demo_registry|]. split; [exact H2|]. split; [exact H3|].
  split; [exact H4|].
  exact (unsubscribe_removes_its_handle demo_registry 0 2 [0; 2]
           reg_ok_demo_registry H2 H3 H4).
Defined.

Lemma subscribe_then_unsubscribe_restores_witness :
  reg_ok demo_registry 0 ∧
  ∃ C w1 w2, colls demo_registry !! 0 = Some C ∧
    subscribe 0 (Mark 9) demo_registry
      = Some (Unsubscribe (length (heap demo_registry)), w1) ∧
    unsubscribe (length (heap demo_registry)) w1 = Some w2 ∧
    w2 = mkWorld (heap demo_registry ++ [mkCell (mkListener (Mark 9) None (last C)) 0 false])
                 (colls demo_registry) (subs demo_registry) (trace demo_registry) ∧
    ∀ c', reg_ok demo_registry c' → reg_ok w2 c' ∧ get c' w2 = get c' demo_registry.
Proof.
  split; [exact reg_ok_demo_registry|].
  exact (subscribe_then_unsubscribe_restores demo_registry 0 (Mark 9)
           reg_ok_demo_registry).
Defined.

Lemma clear_empties_and_subscribe_starts_afresh_witness :
  colls demo_registry !! 0 = Some (mkCollection (Some 0) (Some 2)) ∧
  ∃ w1 w2, clear 0 demo_registry = Some w1 ∧
    get 0 w1 = Some [] ∧ (∀ n, notify n 0 w1 = Some w1) ∧
    heap w1 = heap demo_registry ∧
    subscribe 0 (Mark 9) w1 = Some (Unsubscribe (length (heap demo_registry)), w2) ∧
    w2 = mkWorld (heap demo_registry ++ [mkCell (mkListener (Mark 9) None None) 0 true])
                 (<[0 := mkCollection (Some (length (heap demo_registry)))
                                      (Some (length (heap demo_registry)))]>
                    (colls demo_registry))
                 (subs demo_registry) (trace demo_registry) ∧
    get 0 w2 = Some [length (heap demo_registry)].
Proof.
  assert (H1 : colls demo_registry !! 0 = Some (mkCollection (Some 0) (Some 2)))
    by (vm_compute; reflexivity).
  split; [exact H1|].
  exact (clear_empties_and_subscribe_starts_afresh demo_registry 0
           (mkCollection (Some 0) (Some 2)) (Mark 9) H1).
Defined.

Lemma notify_runs_recording_callbacks_in_order_witness :
  reg_ok demo_marks 0 ∧ cbs demo_marks 0 = Mark <$> [1; 2] ∧ length [1; 2] ≤ 2 ∧
  ∃ w' ls, get 0 demo_marks = Some ls ∧ notify 2 0 demo_marks = Some w' ∧
    heap w' = heap demo_marks ∧ colls w' = colls demo_marks ∧
    subs w' = subs demo_marks ∧
    invoked (trace w') = invoked (trace demo_marks) ++ ls ∧
    marks (trace w') = marks (trace demo_marks) ++ [1; 2].
Proof.
  assert (H2 : cbs demo_marks 0 = Mark <$> [1; 2]) by (vm_compute; reflexivity).
  assert (H3 : length [1; 2] ≤ 2) by (simpl; lia).
  split; [exact reg_ok_demo_marks|]. split; [exact H2|]. split; [exact H3|].
  exact (notify_runs_recording_callbacks_in_order demo_marks 0 [1; 2] 2
           reg_ok_demo_marks H2 H3).
Defined.


Lemma callbacks_and_registries_of_handles_never_change_witness :
  cb_of (heap demo_registry) 0 = Some (Mark 1) ∧
  scope_of (heap demo_registry) 0 = Some 0 ∧
  call 4 (Notify 0) demo_registry = Some (default init (call 4 (Notify 0) demo_registry)) ∧
  cb_of (heap (default init (call 4 (Notify 0) demo_registry))) 0 = Some (Mark 1) ∧
  scope_of (heap (default init (call 4 (Notify 0) demo_registry))) 0 = Some 0.
Proof.
  assert (H1 : cb_of (heap demo_registry) 0 = Some (Mark 1)) by (vm_compute; reflexivity).
  assert (H2 : scope_of (heap demo_registry) 0 = Some 0) by (vm_compute; reflexivity).
  assert (H3 : call 4 (Notify 0) demo_registry
               = Some (default init (call 4 (Notify 0) demo_registry)))
    by (vm_compute; reflexivity).
  split; [exact H1|]. split; [exact H2|]. split; [exact H3|].
  exact (callbacks_and_registries_of_handles_never_change 4 (Notify 0) demo_registry
           _ 0 (Mark 1) 0 H1 H2 H3).
Defined.

Lemma isSubscribed_iff_registry_is_live_witness :
  reachable demo_root ∧
  subs demo_root !! 0 = Some (mkSubscription 0 None None NullListeners None) ∧
  ((sub_isSubscribed 0 demo_root = Some true ∧
    ∃ c l, getListeners 0 demo_root = Some (Live c) ∧ c < length (colls demo_root) ∧
      s_unsubscribe (mkSubscription 0 None None NullListeners None)
        = Some (Unsubscribe l) ∧ l < length (heap demo_root)) ∨
   (sub_isSubscribed 0 demo_root = Some false ∧
    getListeners 0 demo_root = Some NullListeners)).
Proof.
  split; [exact demo_root_reachable|]. split; [reflexivity|].
  exact (isSubscribed_iff_registry_is_live demo_root 0
           (mkSubscription 0 None None NullListeners None)
           demo_root_reachable eq_refl).
Defined.

Lemma trySubscribe_installs_fresh_empty_registry_witness :
  reachable demo_root ∧
  subs demo_root !! 0 = Some (mkSubscription 0 None None NullListeners None) ∧
  s_unsubscribe (mkSubscription 0 None None NullListeners None) = None ∧
  0 ≤ 0 ∧
  ∃ w' c, trySubscribe 0 0 demo_root = Some w' ∧
    getListeners 0 w' = Some (Live c) ∧
    length (colls demo_root) ≤ c ∧
    colls w' !! c = Some (mkCollection None None) ∧
    get c w' = Some [] ∧
    ∀ m, notifyNestedSubs m 0 w' = Some w'.
Proof.
  assert (H4 : 0 ≤ 0) by lia.
  split; [exact demo_root_reachable|]. split; [reflexivity|].
  split; [reflexivity|]. split; [exact H4|].
  exact (trySubscribe_installs_fresh_empty_registry demo_root 0
           (mkSubscription 0 None None NullListeners None) 0
           demo_root_reachable eq_refl eq_refl H4).
Defined.

Lemma Provider_effect_then_cleanup_witness :
  subs demo_root !! 0 = Some (mkSubscription 0 None None NullListeners None) ∧
  parentSub (mkSubscription 0 None None NullListeners None) = None ∧
  store (mkSubscription 0 None None NullListeners None) = 0 ∧
  s_unsubscribe (mkSubscription 0 None None NullListeners None) = None ∧
  s_listeners (mkSubscription 0 None None NullListeners None) = NullListeners ∧
  reg_ok demo_root 0 ∧
  ∃ ls w1 w2, get 0 demo_root = Some ls ∧
    Provider_effect 1 true 0 demo_root = Some w1 ∧
    sub_isSubscribed 0 w1 = Some true ∧
    get 0 w1 = Some (ls ++ [length (heap demo_root)]) ∧
    cb_of (heap w1) (length (heap demo_root)) = Some (HandleChangeWrapper 0) ∧
    trace w1 = trace demo_root ++ [EvStoreSubscribe 0 (HandleChangeWrapper 0)] ∧
    Provider_cleanup 1 0 w1 = Some w2 ∧
    get 0 w2 = Some ls ∧
    (∀ c C, colls demo_root !! c = Some C → colls w2 !! c = Some C) ∧
    subs w2 = <[0 := mkSubscription 0 None None NullListeners None]> (subs demo_root) ∧
    trace w2 = trace w1.
Proof.
  split; [reflexivity|]. split; [reflexivity|]. split; [reflexivity|].
  split; [reflexivity|]. split; [reflexivity|]. split; [exact reg_ok_demo_root|].
  exact (Provider_effect_then_cleanup demo_root 0
           (mkSubscription 0 None None NullListeners None) 0 true 1 0
           eq_refl eq_refl eq_refl eq_refl eq_refl reg_ok_demo_root).
Defined.

Lemma child_attach_then_detach_restores_parent_witness :
  subs demo_tree_base !! 1 = Some C_detached ∧ parentSub C_detached = Some 0 ∧
  s_unsubscribe C_detached = None ∧ s_listeners C_detached = NullListeners ∧
  subs demo_tree_base !! 0 = Some P_rec ∧ is_Some (s_unsubscribe P_rec) ∧
  s_listeners P_rec = Live 1 ∧ reg_ok demo_tree_base 1 ∧
  ∃ ls w1 w2, get 1 demo_tree_base = Some ls ∧
    trySubscribe 1 1 demo_tree_base = Some w1 ∧
    sub_isSubscribed 1 w1 = Some true ∧
    get 1 w1 = Some (ls ++ [length (heap demo_tree_base)]) ∧
    cb_of (heap w1) (length (heap demo_tree_base)) = Some (HandleChangeWrapper 1) ∧
    trace w1 = trace demo_tree_base ++ [EvAddNestedSub 0 (HandleChangeWrapper 1)] ∧
    (∀ m, tryUnsubscribe (S m) 1 w1 = Some w2) ∧
    get 1 w2 = Some ls ∧
    (∀ c C, colls demo_tree_base !! c = Some C → colls w2 !! c = Some C) ∧
    subs w2 = subs demo_tree_base ∧ trace w2 = trace w1.
Proof.
  assert (H1 : subs demo_tree_base !! 1 = Some C_detached) by (vm_compute; reflexivity).
  assert (H5 : subs demo_tree_base !! 0 = Some P_rec) by (vm_compute; reflexivity).
  assert (H6 : is_Some (s_unsubscribe P_rec)) by (by eexists).
  assert (H8 : reg_ok demo_tree_base 1) by apply demo_tree_base_inv.
  split; [exact H1|]. split; [reflexivity|]. split; [reflexivity|].
  split; [reflexivity|]. split; [exact H5|]. split; [exact H6|].
  split; [reflexivity|]. split; [exact H8|].
  exact (child_attach_then_detach_restores_parent demo_tree_base 1 0
           C_detached P_rec 1 0 H1 eq_refl eq_refl eq_refl H5 H6 eq_refl H8).
Defined.

Lemma addNestedSub_on_attached_node_witness :
  subs demo_tree_base !! 0 = Some P_rec ∧ is_Some (s_unsubscribe P_rec) ∧
  s_listeners P_rec = Live 1 ∧ reg_ok demo_tree_base 1 ∧
  ∃ ls w1 w2, get 1 demo_tree_base = Some ls ∧
    addNestedSub 1 0 (Mark 5) demo_tree_base
      = Some (Unsubscribe (length (heap demo_tree_base)), w1) ∧
    get 1 w1 = Some (ls ++ [length (heap demo_tree_base)]) ∧
    cb_of (heap w1) (length (heap demo_tree_base)) = Some (Mark 5) ∧
    subs w1 = subs demo_tree_base ∧
    trace w1 = trace demo_tree_base ++ [EvAddNestedSub 0 (Mark 5)] ∧
    (∀ m, call (S m) (Unsubscribe (length (heap demo_tree_base))) w1 = Some w2) ∧
    get 1 w2 = Some ls ∧ colls w2 = colls demo_tree_base ∧
    subs w2 = subs demo_tree_base.
Proof.
  assert (H1 : subs demo_tree_base !! 0 = Some P_rec) by (vm_compute; reflexivity).
  assert (H2 : is_Some (s_unsubscribe P_rec)) by (by eexists).
  assert (H4 : reg_ok demo_tree_base 1) by apply demo_tree_base_inv.
  split; [exact H1|]. split; [exact H2|]. split; [reflexivity|]. split; [exact H4|].
  exact (addNestedSub_on_attached_node demo_tree_base 0 P_rec 1 (Mark 5) 0
           H1 H2 eq_refl H4).
Defined.

Lemma Provider_effect_on_attached_subscription_witness :
  subs demo_provider !! 0 = Some P_rec ∧ is_Some (s_unsubscribe P_rec) ∧
  s_listeners P_rec = Live 1 ∧ reg_ok demo_provider 1 ∧
  cbs demo_provider 1 = Mark <$> [100] ∧ length [100] ≤ 1 ∧
  ∃ w1, Provider_effect 1 true 0 demo_provider = Some w1 ∧
    heap w1 = heap demo_provider ∧ colls w1 = colls demo_provider ∧
    subs w1 = <[0 := set_onStateChange (Some (NotifyNestedSubs 0)) P_rec]>
                (subs demo_provider) ∧
    marks (trace w1) = marks (trace demo_provider) ++ [100] ∧
    ∀ s', upstream_calls s' (trace w1) = upstream_calls s' (trace demo_provider).
Proof.
  assert (H1 : subs demo_provider !! 0 = Some P_rec) by (vm_compute; reflexivity).
  assert (H2 : is_Some (s_unsubscribe P_rec)) by (by eexists).
  assert (H4 : reg_ok demo_provider 1) by apply demo_provider_inv.
  assert (H5 : cbs demo_provider 1 = Mark <$> [100]) by (vm_compute; reflexivity).
  assert (H6 : length [100] ≤ 1) by (simpl; lia).
  split; [exact H1|]. split; [exact H2|]. split; [reflexivity|]. split; [exact H4|].
  split; [exact H5|]. split; [exact H6|].
  exact (Provider_effect_on_attached_subscription demo_provider 0 P_rec 1 [100] true 1
           H1 H2 eq_refl H4 H5 H6).
Defined.

Lemma tryUnsubscribe_returns_witness :
  reachable demo_root ∧ 0 < length (subs demo_root) ∧
  ∃ w', tryUnsubscribe 1 0 demo_root = Some w' ∧
    sub_isSubscribed 0 w' = Some false ∧
    getListeners 0 w' = Some NullListeners ∧
    (∀ s', s' ≠ 0 → subs w' !! s' = subs demo_root !! s') ∧
    trace w' = trace demo_root.
Proof.
  assert (H2 : 0 < length (subs demo_root)) by (simpl; lia).
  split; [exact demo_root_reachable|]. split; [exact H2|].
  exact (tryUnsubscribe_returns demo_root 0 0 demo_root_reachable H2).
Defined.

Lemma trySubscribe_attaches_parent_first_witness :
  reachable demo_child ∧
  subs demo_child !! 1 = Some (mkSubscription 0 (Some 0) None NullListeners None) ∧
  s_unsubscribe (mkSubscription 0 (Some 0) None NullListeners None) = None ∧
  parentSub (mkSubscription 0 (Some 0) None NullListeners None) = Some 0 ∧
  1 ≤ 1 ∧
  ∃ w' l cp Cp, trySubscribe 1 1 demo_child = Some w' ∧
    sub_isSubscribed 1 w' = Some true ∧
    sub_isSubscribed 0 w' = Some true ∧
    getListeners 0 w' = Some (Live cp) ∧
    colls w' !! cp = Some Cp ∧ last Cp = Some l ∧
    alive (heap w') cp l ∧
    cb_of (heap w') l = Some (HandleChangeWrapper 1) ∧
    length (heap demo_child) ≤ l.
Proof.
  assert (H5 : 1 ≤ 1) by lia.
  split; [exact demo_child_reachable|]. split; [reflexivity|].
  split; [reflexivity|]. split; [reflexivity|]. split; [exact H5|].
  exact (trySubscribe_attaches_parent_first demo_child 1 0
           (mkSubscription 0 (Some 0) None NullListeners None) 1
           demo_child_reachable eq_refl eq_refl eq_refl H5).
Defined.
